(** * Design-token extraction and aggregation engine

    A shallow embedding of [src/services/analyzer.js] (with the
    documentation generator of [src/services/docsGenerator.js] it calls
    and the route handlers of [src/routes/analyze.js] that call it) and
    the properties of the specification that are settled on it.

    Conventions of the embedding:
    - JavaScript strings are [string]s; a character stands for one code
      unit below 256.  Case conversion acts on the ASCII letters: the
      strings the analyzer converts are compared with ASCII keywords,
      framework names and tag names.
    - Occurrence counts are [nat]; the numbers that come out of chroma-js
      and the confidence computation are binary64 [float]s.
    - A JavaScript [Map] (and an object used as a dictionary) is an
      association list in insertion order, updated in place.
    - Code that can throw returns a [Result].
    - cheerio, chroma-js, axios, the clock and the file system are
      collaborators outside the repository: they are interfaces
      ([Cheerio], [ChromaJs], [World]) the definitions are parametrised by. *)

From Stdlib Require Import List String Ascii Bool Arith ZArith Lia.
From Stdlib Require Import Floats Permutation QArith Qround.
Import ListNotations.

Local Open Scope string_scope.
Local Open Scope list_scope.
Local Open Scope nat_scope.

Set Warnings "-inexact-float,-register-all".

(** ** Results of code that can throw *)

Inductive Result (A : Type) : Type :=
| Ok (a : A)
| Throw (message : string).
Arguments Ok {A} a.
Arguments Throw {A} message.

Definition bind {A B} (r : Result A) (k : A -> Result B) : Result B :=
  match r with
  | Ok a => k a
  | Throw m => Throw m
  end.

Notation "x <- r ;; k" := (bind r (fun x => k))
  (at level 61, r at next level, right associativity).

(** [arr.forEach(f)] for a body [f] that updates an accumulator and may
    throw. *)
Fixpoint forEach {A S} (f : S -> A -> Result S) (l : list A) (s : S) : Result S :=
  match l with
  | [] => Ok s
  | a :: l' => s' <- f s a ;; forEach f l' s'
  end.

(** ** Strings *)

Infix "+++" := String.append (at level 60, right associativity).

Definition dquote : ascii := ascii_of_nat 34.
Definition squote : ascii := ascii_of_nat 39.

(** White space of [String.prototype.trim] and of the regular expression
    class [\s], among the code units below 256. *)
Definition is_space (c : ascii) : bool :=
  let n := nat_of_ascii c in
  ((9 <=? n) && (n <=? 13)) || (n =? 32) || (n =? 160).

Definition is_digit (c : ascii) : bool :=
  let n := nat_of_ascii c in (48 <=? n) && (n <=? 57).

Definition lower_char (c : ascii) : ascii :=
  let n := nat_of_ascii c in
  if (65 <=? n) && (n <=? 90) then ascii_of_nat (n + 32) else c.

Definition upper_char (c : ascii) : ascii :=
  let n := nat_of_ascii c in
  if (97 <=? n) && (n <=? 122) then ascii_of_nat (n - 32) else c.

Fixpoint toLowerCase (s : string) : string :=
  match s with
  | EmptyString => EmptyString
  | String c s' => String (lower_char c) (toLowerCase s')
  end.

Fixpoint toUpperCase (s : string) : string :=
  match s with
  | EmptyString => EmptyString
  | String c s' => String (upper_char c) (toUpperCase s')
  end.

Fixpoint rev_string (acc s : string) : string :=
  match s with
  | EmptyString => acc
  | String c s' => rev_string (String c acc) s'
  end.

Fixpoint trimStart (s : string) : string :=
  match s with
  | EmptyString => EmptyString
  | String c s' => if is_space c then trimStart s' else s
  end.

Definition trimEnd (s : string) : string :=
  rev_string "" (trimStart (rev_string "" s)).

Definition trim (s : string) : string := trimEnd (trimStart s).

(** [s.startsWith(p)] and [s.substring(p.length)] in one: what follows
    the prefix [p] of [s], [None] when [s] does not start with [p]. *)
Fixpoint strip_prefix (p s : string) : option string :=
  match p, s with
  | EmptyString, _ => Some s
  | String a p', String b s' =>
      if Ascii.eqb a b then strip_prefix p' s' else None
  | String _ _, EmptyString => None
  end.

(** The same under the [i] flag, for a pattern of literal ASCII
    characters: a code unit of the subject matches a pattern letter when
    they agree up to ASCII case. *)
Fixpoint strip_prefix_i (p s : string) : option string :=
  match p, s with
  | EmptyString, _ => Some s
  | String a p', String b s' =>
      if Ascii.eqb (lower_char a) (lower_char b) then strip_prefix_i p' s' else None
  | String _ _, EmptyString => None
  end.

(** [s.includes(sub)]. *)
Fixpoint includes (s sub : string) : bool :=
  match strip_prefix sub s with
  | Some _ => true
  | None => match s with
            | EmptyString => false
            | String _ s' => includes s' sub
            end
  end.

(** [/lit/i.test(s)] for a literal pattern. *)
Fixpoint test_i (lit s : string) : bool :=
  match strip_prefix_i lit s with
  | Some _ => true
  | None => match s with
            | EmptyString => false
            | String _ s' => test_i lit s'
            end
  end.

(** The longest prefix of characters satisfying [p], and the rest. *)
Fixpoint span (p : ascii -> bool) (s : string) : string * string :=
  match s with
  | EmptyString => (EmptyString, EmptyString)
  | String c s' =>
      if p c then let (a, b) := span p s' in (String c a, b)
      else (EmptyString, s)
  end.

Fixpoint last_char (s : string) : option ascii :=
  match s with
  | EmptyString => None
  | String c EmptyString => Some c
  | String _ s' => last_char s'
  end.

Definition nonempty (s : string) : bool :=
  match s with EmptyString => false | _ => true end.

(** [s.replace(re, '')] for the global pattern matching a single or a
    double quote character: every quote character is removed. *)
Fixpoint remove_quotes (s : string) : string :=
  match s with
  | EmptyString => EmptyString
  | String c s' =>
      if Ascii.eqb c squote || Ascii.eqb c dquote then remove_quotes s'
      else String c (remove_quotes s')
  end.

(** [s.replace(re, ' ')] for the global pattern matching a plus sign. *)
Fixpoint replace_plus (s : string) : string :=
  match s with
  | EmptyString => EmptyString
  | String c s' =>
      String (if Ascii.eqb c "+"%char then " "%char else c) (replace_plus s')
  end.

(** [s.split(/\s+/)]: the pieces between maximal runs of white space; a
    run at either end leaves an empty piece there. *)
Fixpoint split_ws_aux (in_run : bool) (cur : string) (s : string) : list string :=
  match s with
  | EmptyString => [rev_string "" cur]
  | String c s' =>
      if is_space c then
        if in_run then split_ws_aux true "" s'
        else rev_string "" cur :: split_ws_aux true "" s'
      else split_ws_aux false (String c cur) s'
  end.

Definition split_ws (s : string) : list string := split_ws_aux false "" s.

(** *** The regular expressions of the analyzer

    Each is matched the way [String.prototype.match] does without the [g]
    flag: at the leftmost position where the whole pattern succeeds; the
    result is the first capture group. *)

(** [\s*([^;]+)] anchored at the start of [s].  The greedy [\s*] takes the
    whole run of white space; when nothing but [;] or the end follows, it
    gives back its last character, which then is the capture. *)
Definition value_capture (s : string) : option string :=
  let (ws, r) := span is_space s in
  let (v, _) := span (fun c => negb (Ascii.eqb c ";"%char)) r in
  if nonempty v then Some v
  else match last_char ws with
       | Some c => Some (String c EmptyString)
       | None => None
       end.

(** [new RegExp(prop + ':\\s*([^;]+)', 'i')] on [s]. *)
Fixpoint match_declaration (prop : string) (s : string) : option string :=
  let here := match strip_prefix_i (prop +++ ":") s with
              | Some rest => value_capture rest
              | None => None
              end in
  match here with
  | Some v => Some v
  | None => match s with
            | EmptyString => None
            | String _ s' => match_declaration prop s'
            end
  end.

(** [/family=([^&:]+)/] on [s]. *)
Fixpoint match_family (s : string) : option string :=
  let here := match strip_prefix "family=" s with
              | Some rest =>
                  let (v, _) := span (fun c => negb (Ascii.eqb c "&"%char || Ascii.eqb c ":"%char)) rest in
                  if nonempty v then Some v else None
              | None => None
              end in
  match here with
  | Some v => Some v
  | None => match s with
            | EmptyString => None
            | String _ s' => match_family s'
            end
  end.

(** [\d+\.\d+(\.\d+)?] anchored at the start of [s]: the text matched. *)
Definition version_here (s : string) : option string :=
  let (d1, r1) := span is_digit s in
  if nonempty d1 then
    match r1 with
    | String "."%char r2 =>
        let (d2, r3) := span is_digit r2 in
        if nonempty d2 then
          match r3 with
          | String "."%char r4 =>
              let (d3, _) := span is_digit r4 in
              if nonempty d3 then Some (d1 +++ "." +++ d2 +++ "." +++ d3)
              else Some (d1 +++ "." +++ d2)
          | _ => Some (d1 +++ "." +++ d2)
          end
        else None
    | _ => None
    end
  else None.

(** [/(\d+\.\d+(\.\d+)?)/] on [s]. *)
Fixpoint match_version (s : string) : option string :=
  match version_here s with
  | Some v => Some v
  | None => match s with
            | EmptyString => None
            | String _ s' => match_version s'
            end
  end.

(** [/v(\d+\.\d+(\.\d+)?)/] on [s]. *)
Fixpoint match_v_version (s : string) : option string :=
  let here := match s with
              | String "v"%char rest => version_here rest
              | _ => None
              end in
  match here with
  | Some v => Some v
  | None => match s with
            | EmptyString => None
            | String _ s' => match_v_version s'
            end
  end.

(** [s.substring(n)]. *)
Fixpoint substring_from (n : nat) (s : string) : string :=
  match n, s with
  | O, _ => s
  | S n', String _ s' => substring_from n' s'
  | S _, EmptyString => EmptyString
  end.

Definition string_in (s : string) (l : list string) : bool :=
  existsb (String.eqb s) l.

(** ** Maps in insertion order *)

Definition JsMap := list (string * nat).

Fixpoint map_get (k : string) (m : JsMap) : option nat :=
  match m with
  | [] => None
  | (k', v) :: m' => if String.eqb k k' then Some v else map_get k m'
  end.

(** [m.set(k, v)]: an existing key keeps its place. *)
Fixpoint map_set (k : string) (v : nat) (m : JsMap) : JsMap :=
  match m with
  | [] => [(k, v)]
  | (k', v') :: m' =>
      if String.eqb k k' then (k', v) :: m' else (k', v') :: map_set k v m'
  end.

(** [m.get(k) || 0]. *)
Definition get_or_0 (k : string) (m : JsMap) : nat :=
  match map_get k m with Some v => v | None => 0 end.

(** [m.set(k, (m.get(k) || 0) + n)]. *)
Definition bump (n : nat) (k : string) (m : JsMap) : JsMap :=
  map_set k (get_or_0 k m + n) m.

Definition keys (m : JsMap) : list string := map fst m.

(** [entries.sort((a, b) => b[1] - a[1])]: descending count; the sort is
    stable, entries of equal count keep their order. *)
Fixpoint insert_desc (x : string * nat) (l : list (string * nat)) : list (string * nat) :=
  match l with
  | [] => [x]
  | y :: l' => if snd y <=? snd x then x :: y :: l' else y :: insert_desc x l'
  end.

Definition sort_desc (l : list (string * nat)) : list (string * nat) :=
  fold_right insert_desc [] l.

(** ** cheerio: the loaded document *)

(** The selectors the analyzer passes to [$(...)]. *)
Inductive Simple : Type :=
| Tag (name : string)              (* [div] *)
| Any                              (* [*] *)
| Class (name : string)            (* [.btn] *)
| HasAttr (name : string)          (* [[style]] *)
| AttrIs (name v : string)         (* [[type=v]], the value quoted *)
| AttrSub (name v : string)        (* [[class*=v]], the value quoted *)
| ContainsText (text : string).    (* [:contains(text)], the text quoted *)

(** Simple selectors written without a space apply to one element. *)
Definition Compound := list Simple.
(** Compounds separated by spaces: a chain of descendants, outermost first. *)
Definition Complex := list Compound.
(** Alternatives separated by commas. *)
Definition Selector := list Complex.

Definition one (c : Compound) : Selector := [[c]].
Definition tags (names : list string) : Selector :=
  map (fun n => [[Tag n]]) names.

(** An element node as the analyzer reads it. *)
Record Elem : Type := {
  el_id : nat;                          (* identity: position in document order *)
  el_name : string;                     (* tag name, lower case as parsed *)
  el_attrs : list (string * string);
  el_children : nat;                    (* [$(el).children().length] *)
  el_text : string                      (* [$(el).text()] *)
}.

Record Cheerio : Type := {
  (* [$(selector)]: the elements selected, in document order *)
  query : Selector -> list Elem;
  (* [$(el).css(prop)]: [None] for undefined *)
  css : Elem -> string -> option string
}.

Fixpoint assoc (k : string) (l : list (string * string)) : option string :=
  match l with
  | [] => None
  | (k', v) :: l' => if String.eqb k k' then Some v else assoc k l'
  end.

(** [$(el).attr(name)]. *)
Definition attr (name : string) (el : Elem) : option string :=
  assoc name (el_attrs el).

(** [$(el).prop('tagName')]. *)
Definition prop_tagName (el : Elem) : string := toUpperCase (el_name el).

(** Selected nodes are elements: [this.nodeType] is 1 and
    [this.nodeValue] is null. *)
Definition nodeType (el : Elem) : nat := 1.
Definition nodeValue (el : Elem) : option string := None.

(** [x || ''] for a string or undefined. *)
Definition or_empty (x : option string) : string :=
  match x with Some s => s | None => "" end.

(** A string or undefined used as a condition. *)
Definition truthy (x : option string) : bool :=
  match x with Some s => nonempty s | None => false end.

(** [$(el).attr('class').split(re)] for the white-space pattern: the
    attribute missing makes [split] a call on undefined. *)
Definition class_names (el : Elem) : Result (list string) :=
  match attr "class" el with
  | Some c => Ok (split_ws c)
  | None => Throw "Cannot read properties of undefined (reading 'split')"
  end.

(** ** chroma-js *)

Class ChromaJs : Type := {
  Color : Type;
  (* [chroma(x)]: [None] when it throws on a string it cannot read *)
  chroma : string -> option Color;
  (* [c.luminance()] *)
  luminance : Color -> float;
  (* [c.chroma()]: [None] when the call throws *)
  color_chroma : Color -> option float;
  (* the distance [chroma.deltaE] computes for two colors it could read *)
  deltaE_of : Color -> Color -> float;
  (* [c.luminance(l)] *)
  with_luminance : Color -> float -> Color;
  (* [c.hex()] *)
  hex : Color -> string
}.

Section Analyzer.

Context {chromajs : ChromaJs}.

(** [chroma.deltaE(a, b)]: both arguments go through [chroma(...)]
    first. *)
Definition deltaE (a b : string) : option float :=
  match chroma a, chroma b with
  | Some x, Some y => Some (deltaE_of x y)
  | _, _ => None
  end.

(** ** Colors *)

Record ColorCategorySet : Type := {
  primary : list string;
  secondary : list string;
  accent : list string;
  neutral : list string;
  all : list string
}.

Definition isValidColor (color : string) : bool :=
  if string_in (toLowerCase color)
       ["transparent"; "inherit"; "initial"; "currentcolor"; "none"]
  then false
  else match chroma color with
       | Some _ => true
       | None => false
       end.

Definition threshold : float := 0.15%float.

(** The test of [uniqueColors.some(...)]; a throwing [deltaE] counts as
    not similar. *)
Definition isSimilar (color existingColor : string) : bool :=
  match deltaE color existingColor with
  | Some delta => PrimFloat.ltb delta (PrimFloat.mul threshold 100%float)
  | None => false
  end.

(** The loop of [processColors] over the sorted entries. *)
Fixpoint dedupe (colorEntries : list (string * nat)) (uniqueColors : list string)
  : list string :=
  match colorEntries with
  | [] => uniqueColors
  | (color, _) :: rest =>
      if existsb (isSimilar color) uniqueColors
      then dedupe rest uniqueColors
      else dedupe rest (uniqueColors ++ [color])
  end.

Definition processColors (colorMap : JsMap) : list string :=
  dedupe (sort_desc colorMap) [].

Definition colorProperties : list string :=
  ["color"; "background-color"; "border-color";
   "background"; "border"; "box-shadow"; "fill"; "stroke"].

Definition colorClasses : list string :=
  ["bg-"; "text-"; "border-"; "btn-"; "alert-"; "badge-";
   "table-"; "navbar-"; "list-group-item-"].

Definition colorNames : list string :=
  ["primary"; "secondary"; "success"; "danger"; "warning";
   "info"; "light"; "dark"; "white"; "black"; "transparent";
   "blue"; "indigo"; "purple"; "pink"; "red"; "orange";
   "yellow"; "green"; "teal"; "cyan"; "gray"; "grey"].

(** [if (isValidColor(c)) colorMap.set(c, (colorMap.get(c) || 0) + 1)]. *)
Definition count_color (color : string) (colorMap : JsMap) : JsMap :=
  if isValidColor color then bump 1 color colorMap else colorMap.

(** Body of the loop over [$('[style]')]. *)
Definition inline_colors (colorMap : JsMap) (el : Elem) : JsMap :=
  fold_left
    (fun m prop =>
       match attr "style" el with
       | None => m
       | Some style =>
           match match_declaration prop style with
           | Some v => count_color (trim v) m
           | None => m
           end
       end)
    colorProperties colorMap.

(** [if (x && x !== 'none' && x !== 'transparent') ...] for [fill] and
    [stroke]. *)
Definition paint_color (x : option string) (colorMap : JsMap) : JsMap :=
  match x with
  | Some v =>
      if nonempty v && negb (String.eqb v "none") && negb (String.eqb v "transparent")
      then count_color v colorMap
      else colorMap
  | None => colorMap
  end.

(** Body of the loop over [$('svg [fill], svg [stroke]')]. *)
Definition svg_colors (colorMap : JsMap) (el : Elem) : JsMap :=
  paint_color (attr "stroke" el) (paint_color (attr "fill" el) colorMap).

(** Body of [classes.forEach] in the loop over [$('[class]')]. *)
Definition class_color (colorMap : JsMap) (className : string) : JsMap :=
  fold_left
    (fun m prefix =>
       match strip_prefix prefix className with
       | Some colorName =>
           if string_in colorName colorNames
           then bump 1 ("var(--" +++ colorName +++ ")") m
           else m
       | None => m
       end)
    colorClasses colorMap.

Definition class_colors (colorMap : JsMap) (el : Elem) : Result JsMap :=
  classes <- class_names el ;;
  Ok (fold_left class_color classes colorMap).

(** The first half of [extractColors]: the frequency map. *)
Definition collectColors (doc : Cheerio) : Result JsMap :=
  let m1 := fold_left inline_colors (query doc (one [HasAttr "style"])) [] in
  let m2 := fold_left svg_colors
              (query doc [[[Tag "svg"]; [HasAttr "fill"]]; [[Tag "svg"]; [HasAttr "stroke"]]])
              m1 in
  forEach class_colors (query doc (one [HasAttr "class"])) m2.

Definition parses (color : string) : bool :=
  match chroma color with Some _ => true | None => false end.

(** [sortedColors]: the keys by descending count that chroma can read. *)
Definition sortedColors (colorMap : JsMap) : list string :=
  filter parses (map fst (sort_desc colorMap)).

(** The filter of the accent colors; the saturated copy it computes first
    is not used.  A throwing call makes the filter answer false. *)
Definition is_accent (primary secondary : list string) (color : string) : bool :=
  match chroma color with
  | Some c =>
      negb (string_in color primary) && negb (string_in color secondary) &&
      match color_chroma c with
      | Some x => PrimFloat.ltb 50%float x
      | None => false
      end
  | None => false
  end.

(** The filter of the neutral colors. *)
Definition is_neutral (color : string) : bool :=
  match chroma color with
  | Some c =>
      match color_chroma c with
      | Some x =>
          PrimFloat.ltb x 30%float &&
          (PrimFloat.ltb 0.7%float (luminance c) || PrimFloat.ltb (luminance c) 0.3%float)
      | None => false
      end
  | None => false
  end.

(** The second half of [extractColors]: from the frequency map to the
    categories.  (The luminance map the source fills from the processed
    colors is never read.) *)
Definition categorizeColors (colorMap : JsMap) : ColorCategorySet :=
  let processedColors := processColors colorMap in
  let sorted := sortedColors colorMap in
  let primary := firstn 3 sorted in
  let secondary := firstn 3 (filter (fun color => negb (string_in color primary)) sorted) in
  let accent := firstn 3 (filter (is_accent primary secondary) sorted) in
  let neutral := firstn 4 (filter is_neutral sorted) in
  {| primary := primary;
     secondary := secondary;
     accent := accent;
     neutral := neutral;
     all := processedColors |}.

Definition extractColors (doc : Cheerio) : Result ColorCategorySet :=
  colorMap <- collectColors doc ;;
  Ok (categorizeColors colorMap).

(** ** Typography *)

(** A ranked token: the value and its occurrence count. *)
Definition RawToken : Type := (string * nat)%type.
Definition value (t : RawToken) : string := fst t.
Definition count (t : RawToken) : nat := snd t.

(** The literal of each case-insensitive pattern, and its normal form. *)
Definition fontFamilyPatterns : list (string * string) :=
  [ ("arial", "Arial, sans-serif");
    ("helvetica", "Helvetica, Arial, sans-serif");
    ("times new roman", "Times New Roman, serif");
    ("times", "Times, serif");
    ("courier", "Courier, monospace");
    ("verdana", "Verdana, sans-serif");
    ("georgia", "Georgia, serif");
    ("palatino", "Palatino, serif");
    ("garamond", "Garamond, serif");
    ("bookman", "Bookman, serif");
    ("avant garde", "Avant Garde, sans-serif");
    ("trebuchet", "Trebuchet MS, sans-serif");
    ("impact", "Impact, sans-serif");
    ("comic sans", "Comic Sans MS, cursive");
    ("roboto", "Roboto, sans-serif");
    ("open sans", "Open Sans, sans-serif");
    ("lato", "Lato, sans-serif");
    ("montserrat", "Montserrat, sans-serif");
    ("raleway", "Raleway, sans-serif");
    ("poppins", "Poppins, sans-serif");
    ("nunito", "Nunito, sans-serif");
    ("playfair", "Playfair Display, serif");
    ("merriweather", "Merriweather, serif");
    ("ubuntu", "Ubuntu, sans-serif");
    ("source sans", "Source Sans Pro, sans-serif");
    ("source serif", "Source Serif Pro, serif");
    ("source code", "Source Code Pro, monospace");
    ("fira", "Fira Sans, sans-serif");
    ("noto", "Noto Sans, sans-serif");
    ("pt sans", "PT Sans, sans-serif");
    ("pt serif", "PT Serif, serif");
    ("muli", "Muli, sans-serif");
    ("titillium", "Titillium Web, sans-serif");
    ("karla", "Karla, sans-serif");
    ("inter", "Inter, sans-serif");
    ("sans-serif", "sans-serif");
    ("serif", "serif");
    ("monospace", "monospace");
    ("cursive", "cursive");
    ("fantasy", "fantasy");
    ("system-ui", "system-ui") ].

(** The [for ... of fontFamilyPatterns] loop: return at the first pattern
    that tests true. *)
Fixpoint first_match (patterns : list (string * string)) (normalized : string)
  : option string :=
  match patterns with
  | [] => None
  | (pattern, norm) :: rest =>
      if test_i pattern normalized then Some norm else first_match rest normalized
  end.

Definition normalizeFontFamily (fontFamily : string) : string :=
  let normalized := trim (remove_quotes fontFamily) in
  match first_match fontFamilyPatterns normalized with
  | Some norm => norm
  | None => normalized
  end.

Definition sortMapByFrequency (m : JsMap) : list RawToken := sort_desc m.

(** The seven frequency maps of [extractTypography]. *)
Record TypographyMaps : Type := {
  m_fontFamilies : JsMap;
  m_fontSizes : JsMap;
  m_fontWeights : JsMap;
  m_lineHeights : JsMap;
  m_letterSpacings : JsMap;
  m_textTransforms : JsMap;
  m_textDecorations : JsMap
}.

Definition no_typography : TypographyMaps :=
  {| m_fontFamilies := []; m_fontSizes := []; m_fontWeights := [];
     m_lineHeights := []; m_letterSpacings := []; m_textTransforms := [];
     m_textDecorations := [] |}.

Definition on_fontFamilies (f : JsMap -> JsMap) (t : TypographyMaps) : TypographyMaps :=
  {| m_fontFamilies := f (m_fontFamilies t); m_fontSizes := m_fontSizes t;
     m_fontWeights := m_fontWeights t; m_lineHeights := m_lineHeights t;
     m_letterSpacings := m_letterSpacings t; m_textTransforms := m_textTransforms t;
     m_textDecorations := m_textDecorations t |}.

Definition on_fontSizes (f : JsMap -> JsMap) (t : TypographyMaps) : TypographyMaps :=
  {| m_fontFamilies := m_fontFamilies t; m_fontSizes := f (m_fontSizes t);
     m_fontWeights := m_fontWeights t; m_lineHeights := m_lineHeights t;
     m_letterSpacings := m_letterSpacings t; m_textTransforms := m_textTransforms t;
     m_textDecorations := m_textDecorations t |}.

Definition on_fontWeights (f : JsMap -> JsMap) (t : TypographyMaps) : TypographyMaps :=
  {| m_fontFamilies := m_fontFamilies t; m_fontSizes := m_fontSizes t;
     m_fontWeights := f (m_fontWeights t); m_lineHeights := m_lineHeights t;
     m_letterSpacings := m_letterSpacings t; m_textTransforms := m_textTransforms t;
     m_textDecorations := m_textDecorations t |}.

Definition on_lineHeights (f : JsMap -> JsMap) (t : TypographyMaps) : TypographyMaps :=
  {| m_fontFamilies := m_fontFamilies t; m_fontSizes := m_fontSizes t;
     m_fontWeights := m_fontWeights t; m_lineHeights := f (m_lineHeights t);
     m_letterSpacings := m_letterSpacings t; m_textTransforms := m_textTransforms t;
     m_textDecorations := m_textDecorations t |}.

Definition on_letterSpacings (f : JsMap -> JsMap) (t : TypographyMaps) : TypographyMaps :=
  {| m_fontFamilies := m_fontFamilies t; m_fontSizes := m_fontSizes t;
     m_fontWeights := m_fontWeights t; m_lineHeights := m_lineHeights t;
     m_letterSpacings := f (m_letterSpacings t); m_textTransforms := m_textTransforms t;
     m_textDecorations := m_textDecorations t |}.

Definition on_textTransforms (f : JsMap -> JsMap) (t : TypographyMaps) : TypographyMaps :=
  {| m_fontFamilies := m_fontFamilies t; m_fontSizes := m_fontSizes t;
     m_fontWeights := m_fontWeights t; m_lineHeights := m_lineHeights t;
     m_letterSpacings := m_letterSpacings t; m_textTransforms := f (m_textTransforms t);
     m_textDecorations := m_textDecorations t |}.

Definition on_textDecorations (f : JsMap -> JsMap) (t : TypographyMaps) : TypographyMaps :=
  {| m_fontFamilies := m_fontFamilies t; m_fontSizes := m_fontSizes t;
     m_fontWeights := m_fontWeights t; m_lineHeights := m_lineHeights t;
     m_letterSpacings := m_letterSpacings t; m_textTransforms := m_textTransforms t;
     m_textDecorations := f (m_textDecorations t) |}.

(** One [style?.match(...)] block: when the declaration is there, its
    value, through [norm], is counted once in the map [upd] selects. *)
Definition inline_declaration (style : option string) (prop : string)
  (norm : string -> string)
  (upd : (JsMap -> JsMap) -> TypographyMaps -> TypographyMaps)
  (t : TypographyMaps) : TypographyMaps :=
  match style with
  | None => t
  | Some s =>
      match match_declaration prop s with
      | Some v => upd (bump 1 (norm v)) t
      | None => t
      end
  end.

(** Body of the loop over [$('[style]')]. *)
Definition inline_typography (t : TypographyMaps) (el : Elem) : TypographyMaps :=
  let style := attr "style" el in
  let t := inline_declaration style "font-family" normalizeFontFamily on_fontFamilies t in
  let t := inline_declaration style "font-size" trim on_fontSizes t in
  let t := inline_declaration style "font-weight" trim on_fontWeights t in
  let t := inline_declaration style "line-height" trim on_lineHeights t in
  let t := inline_declaration style "letter-spacing" trim on_letterSpacings t in
  let t := inline_declaration style "text-transform" trim on_textTransforms t in
  inline_declaration style "text-decoration" trim on_textDecorations t.

(** The class tests are anchored patterns: [fw-] and [fs-] at the start
    of the name (what follows is [className.substring(3)]), and the three
    whole names of the text-transform utilities. *)
Definition weightNames : list string :=
  ["light"; "normal"; "bold"; "bolder"; "semibold";
   "100"; "200"; "300"; "400"; "500"; "600"; "700"; "800"; "900"].

Definition sizeNames : list string :=
  ["1"; "2"; "3"; "4"; "5"; "6"; "sm"; "md"; "lg"; "xl"].

(** Body of [classes.forEach] in the loop over [$('[class]')]. *)
Definition class_typography (t : TypographyMaps) (className : string) : TypographyMaps :=
  let t := match strip_prefix "fw-" className with
           | Some weight =>
               if string_in weight weightNames
               then on_fontWeights (bump 1 weight) t else t
           | None => t
           end in
  let t := match strip_prefix "fs-" className with
           | Some size =>
               if string_in size sizeNames
               then on_fontSizes (bump 1 ("var(--fs-" +++ size +++ ")")) t else t
           | None => t
           end in
  if string_in className ["text-uppercase"; "text-lowercase"; "text-capitalize"]
  then on_textTransforms (bump 1 (substring_from 5 className)) t
  else t.

Definition class_typographies (t : TypographyMaps) (el : Elem) : Result TypographyMaps :=
  classes <- class_names el ;;
  Ok (fold_left class_typography classes t).

Fixpoint drop_zeros (s : string) : string :=
  match s with
  | String c (String _ _ as r) =>
      if Ascii.eqb c "0"%char then drop_zeros r else s
  | _ => s
  end.

(** The text [parseInt(s)] has in a template: the leading decimal digits
    without leading zeros, [NaN] when there are none.  (Signs, leading
    white space, hexadecimal prefixes and numbers beyond 2^53 are not
    modelled: the argument is a tag name without its first letter.) *)
Definition parseInt_text (s : string) : string :=
  let (d, _) := span is_digit s in
  if nonempty d then drop_zeros d else "NaN".

(** Body of the loop over [$('h1, h2, h3, h4, h5, h6')]. *)
Definition heading_typography (doc : Cheerio) (t : TypographyMaps) (el : Elem)
  : TypographyMaps :=
  let tagName := toLowerCase (prop_tagName el) in
  let headingLevel := parseInt_text (substring_from 1 tagName) in
  let t := on_fontWeights (bump 1 ("heading-" +++ headingLevel)) t in
  let fontFamily := css doc el "font-family" in
  let t := if truthy fontFamily
           then on_fontFamilies (bump 1 (normalizeFontFamily (or_empty fontFamily))) t
           else t in
  let fontSize := css doc el "font-size" in
  if truthy fontSize then on_fontSizes (bump 1 (or_empty fontSize)) t else t.

(** Body of the loop over the stylesheet links. *)
Definition link_typography (t : TypographyMaps) (el : Elem) : TypographyMaps :=
  let href := attr "href" el in
  if truthy href && includes (or_empty href) "fonts.googleapis.com" then
    match match_family (or_empty href) with
    | Some family =>
        let fontFamily := replace_plus family in
        let normalizedFontFamily := normalizeFontFamily fontFamily in
        on_fontFamilies (bump 10 normalizedFontFamily) t
    | None => t
    end
  else t.

Definition headingSelector : Selector := tags ["h1"; "h2"; "h3"; "h4"; "h5"; "h6"].
Definition stylesheetLinks : Selector := one [Tag "link"; AttrIs "rel" "stylesheet"].

Definition collectTypography (doc : Cheerio) : Result TypographyMaps :=
  let t := fold_left inline_typography (query doc (one [HasAttr "style"])) no_typography in
  t <- forEach class_typographies (query doc (one [HasAttr "class"])) t ;;
  let t := fold_left (heading_typography doc) (query doc headingSelector) t in
  Ok (fold_left link_typography (query doc stylesheetLinks) t).

(** [extractHeadingStyle]: [None] for null, else the count. *)
Definition extractHeadingStyle (doc : Cheerio) (selector : Selector) : option nat :=
  let elements := query doc selector in
  if List.length elements =? 0 then None else Some (List.length elements).

Record TypographySet : Type := {
  fontFamilies : list RawToken;
  fontSizes : list RawToken;
  fontWeights : list RawToken;
  lineHeights : list RawToken;
  letterSpacings : list RawToken;
  textTransforms : list RawToken;
  textDecorations : list RawToken;
  headings : list (string * option nat)
}.

Definition extractTypography (doc : Cheerio) : Result TypographySet :=
  t <- collectTypography doc ;;
  Ok {| fontFamilies := sortMapByFrequency (m_fontFamilies t);
        fontSizes := sortMapByFrequency (m_fontSizes t);
        fontWeights := sortMapByFrequency (m_fontWeights t);
        lineHeights := sortMapByFrequency (m_lineHeights t);
        letterSpacings := sortMapByFrequency (m_letterSpacings t);
        textTransforms := sortMapByFrequency (m_textTransforms t);
        textDecorations := sortMapByFrequency (m_textDecorations t);
        headings := map (fun h => (h, extractHeadingStyle doc (tags [h])))
                        ["h1"; "h2"; "h3"; "h4"; "h5"; "h6"] |}.

(** ** Components *)

Record ComponentExample : Type := {
  ex_tag : string;
  ex_classes : list string;
  ex_id : string;
  ex_text : string
}.

Record Component : Type := {
  comp_count : nat;
  comp_examples : list ComponentExample
}.

(** [s.split(re).filter(Boolean)] for the white-space pattern. *)
Definition class_list (s : string) : list string :=
  filter nonempty (split_ws s).

Definition componentSelectors : list (string * Selector) :=
  [ ("buttons", [[[Tag "button"]]; [[Class "btn"]]; [[AttrSub "class" "button"]];
                 [[AttrIs "type" "button"]]; [[AttrIs "type" "submit"]]]);
    ("forms", tags ["form"]);
    ("inputs", tags ["input"; "textarea"; "select"]);
    ("navigation", [[[Tag "nav"]]; [[AttrSub "class" "nav"]]; [[AttrSub "class" "menu"]]]);
    ("cards", one [AttrSub "class" "card"]);
    ("modals", [[[AttrSub "class" "modal"]]; [[AttrSub "class" "dialog"]]]);
    ("tables", tags ["table"]);
    ("lists", tags ["ul"; "ol"]);
    ("images", tags ["img"]);
    ("icons", [[[Tag "i"]]; [[AttrSub "class" "icon"]]]);
    ("headers", [[[Tag "header"]]; [[AttrSub "class" "header"]]]);
    ("footers", [[[Tag "footer"]]; [[AttrSub "class" "footer"]]]);
    ("sidebars", [[[Tag "aside"]]; [[AttrSub "class" "sidebar"]];
                  [[AttrSub "class" "side-bar"]]]) ].

Definition component_example (el : Elem) : ComponentExample :=
  let classes := or_empty (attr "class" el) in
  let id := or_empty (attr "id" el) in
  {| ex_tag := toLowerCase (prop_tagName el);
     ex_classes := class_list classes;
     ex_id := id;
     ex_text := String.substring 0 50 (trim (el_text el))
                +++ (if 50 <? String.length (el_text el) then "..." else "") |}.

Definition extractComponentExamples (elements : list Elem) : list ComponentExample :=
  map component_example (firstn 3 elements).

Definition extractComponents (doc : Cheerio) : list (string * Component) :=
  map (fun cs : string * Selector =>
         let elements := query doc (snd cs) in
         (fst cs,
          {| comp_count := List.length elements;
             comp_examples := if 0 <? List.length elements
                              then extractComponentExamples elements else [] |}))
      componentSelectors.

(** ** Layout *)

Record ElementSample : Type := {
  s_tag : string;
  s_classes : list string;
  s_id : option string;
  s_children : nat
}.

Record LayoutPattern : Type := {
  p_selectors : list Selector;
  p_count : nat;
  p_examples : list ElementSample
}.

Record Framework : Type := {
  selectors : list Selector;
  detected : bool;
  version : option string;
  confidence : Z
}.

Definition layoutPatterns : list (string * list Selector) :=
  [ ("containers",
     [ one [AttrSub "class" "container"]; one [AttrSub "class" "wrapper"];
       one [AttrSub "class" "content"]; tags ["main"]; tags ["section"];
       tags ["article"] ]);
    ("grids",
     [ one [AttrSub "class" "grid"]; one [AttrSub "class" "row"];
       one [AttrSub "class" "cols"]; one [AttrSub "class" "columns"];
       one [AttrSub "style" "display: grid"]; one [AttrSub "style" "display:grid"] ]);
    ("flexContainers",
     [ one [AttrSub "class" "flex"]; one [AttrSub "class" "d-flex"];
       one [AttrSub "style" "display: flex"]; one [AttrSub "style" "display:flex"] ]);
    ("responsiveLayouts",
     [ one [AttrSub "class" "col-"]; one [AttrSub "class" "sm-"];
       one [AttrSub "class" "md-"]; one [AttrSub "class" "lg-"];
       one [AttrSub "class" "xl-"]; one [AttrSub "class" "mobile-"];
       one [AttrSub "class" "tablet-"]; one [AttrSub "class" "desktop-"] ]);
    ("positioning",
     [ one [AttrSub "style" "position: absolute"]; one [AttrSub "style" "position:absolute"];
       one [AttrSub "style" "position: relative"]; one [AttrSub "style" "position:relative"];
       one [AttrSub "style" "position: fixed"]; one [AttrSub "style" "position:fixed"];
       one [AttrSub "style" "position: sticky"]; one [AttrSub "style" "position:sticky"] ]);
    ("zIndex", [ one [AttrSub "style" "z-index:"] ]) ].

Definition classes_of (names : list string) : list Selector :=
  map (fun n => one [Class n]) names.

Definition cssFrameworks : list (string * list Selector) :=
  [ ("bootstrap",
     classes_of ["container"; "row"; "col"; "navbar"; "card"; "btn"; "alert"; "badge"]);
    ("tailwind",
     map (fun v => one [AttrSub "class" v])
         ["flex"; "grid"; "text-"; "bg-"; "p-"; "m-"; "w-"; "h-"]);
    ("foundation",
     classes_of ["grid-container"; "grid-x"; "cell"; "button"; "callout"; "top-bar"]);
    ("bulma",
     classes_of ["container"; "columns"; "column"; "navbar"; "button"; "notification"; "box"]);
    ("materialize",
     classes_of ["container"; "row"; "col"; "card"; "btn"; "navbar"; "sidenav"]) ].

(** [elements.add(more)]: the union, each element once, in document
    order. *)
Fixpoint insert_elem (el : Elem) (l : list Elem) : list Elem :=
  match l with
  | [] => [el]
  | x :: l' =>
      if el_id el =? el_id x then l
      else if el_id el <? el_id x then el :: l
      else x :: insert_elem el l'
  end.

Definition add_elems (elements more : list Elem) : list Elem :=
  fold_left (fun acc el => insert_elem el acc) more elements.

(** [uniqueElements.add(el)] on a [Set], in insertion order. *)
Definition set_add (s : list Elem) (el : Elem) : list Elem :=
  if existsb (fun x => el_id x =? el_id el) s then s else s ++ [el].

Definition element_sample (el : Elem) : ElementSample :=
  {| s_tag := let t := toLowerCase (prop_tagName el) in
              if nonempty t then t else "unknown";
     s_classes := class_list (or_empty (attr "class" el));
     s_id := if truthy (attr "id" el) then attr "id" el else None;
     s_children := el_children el |}.

Definition detect_pattern (doc : Cheerio) (selectors : list Selector) : LayoutPattern :=
  let elements := fold_left (fun acc selector => add_elems acc (query doc selector))
                            selectors [] in
  let uniqueElements := fold_left set_add elements [] in
  {| p_selectors := selectors;
     p_count := List.length uniqueElements;
     p_examples := if 0 <? List.length uniqueElements
                   then map element_sample (firstn 3 uniqueElements) else [] |}.

(** A count as a JavaScript number. *)
Definition Number (n : nat) : float := PrimFloat.of_uint63 (Uint63.of_Z (Z.of_nat n)).

(** [Math.round(x)] for a finite [x]: the integer nearest to [x], the one
    toward plus infinity when two are equally near.  (For NaN and the
    infinities JavaScript returns the argument; the analyzer divides by
    the length of a non-empty selector list and never rounds those; they
    are 0 here.) *)
Definition Math_round (x : float) : Z :=
  match Prim2SF x with
  | S754_finite s m e =>
      let n := if s then Z.neg m else Z.pos m in
      if (0 <=? e)%Z then (n * 2 ^ e)%Z
      else ((2 * n + 2 ^ (- e)) / 2 ^ (1 - e))%Z
  | _ => 0%Z
  end.

(** [matchCount] after the loop over the selectors of a framework. *)
Definition matchCount (doc : Cheerio) (selectors : list Selector) : nat :=
  List.length (filter (fun selector => 0 <? List.length (query doc selector)) selectors).

Definition confidence_of (matchCount totalSelectors : nat) : Z :=
  Math_round (PrimFloat.mul (PrimFloat.div (Number matchCount) (Number totalSelectors))
                            100%float).

(** The comment nodes naming the framework with a version: the filter
    keeps a node of type 8 only, and reads [nodeValue] of such a node
    only. *)
Definition versionComment (doc : Cheerio) (frameworkName : string) : list Elem :=
  filter (fun this =>
            (nodeType this =? 8) &&
            match nodeValue this with
            | Some v => includes (toLowerCase v) frameworkName &&
                        match match_v_version v with Some _ => true | None => false end
            | None => false
            end)
         (query doc (one [Any; ContainsText "v"])).

(** The loop over the stylesheet links: the last link naming the
    framework with a version in its address sets the version. *)
Definition link_version (frameworkName : string) (version : option string) (el : Elem)
  : option string :=
  let href := or_empty (attr "href" el) in
  if includes (toLowerCase href) frameworkName then
    match match_version href with
    | Some v => Some v
    | None => version
    end
  else version.

Definition detect_framework (doc : Cheerio) (frameworkName : string)
  (selectors : list Selector) : Framework :=
  let matchCount := matchCount doc selectors in
  let totalSelectors := List.length selectors in
  let confidence := confidence_of matchCount totalSelectors in
  let comments := versionComment doc frameworkName in
  let version :=
    if 0 <? List.length comments then
      match_v_version (String.concat "" (map el_text comments))
    else None in
  let version := fold_left (link_version frameworkName) (query doc stylesheetLinks) version in
  {| selectors := selectors;
     detected := (30 <? confidence)%Z;
     version := version;
     confidence := confidence |}.

Record MediaQueries : Type := {
  mq_detected : bool;
  mq_breakpoints : list string;
  mq_viewportMeta : option string
}.

Record PageStructure : Type := {
  hasHeader : bool;
  hasFooter : bool;
  hasNavigation : bool;
  hasSidebar : bool;
  hasMain : bool;
  sections : nat
}.

Record Layout : Type := {
  patterns : list (string * LayoutPattern);
  frameworks : list (string * Framework);
  responsive : MediaQueries;
  pageStructure : PageStructure
}.

Definition found (doc : Cheerio) (selector : Selector) : bool :=
  0 <? List.length (query doc selector).

Definition analyzeLayout (doc : Cheerio) : Layout :=
  let viewportMeta := query doc (one [Tag "meta"; AttrIs "name" "viewport"]) in
  {| patterns := map (fun p : string * list Selector =>
                        (fst p, detect_pattern doc (snd p))) layoutPatterns;
     frameworks := map (fun f : string * list Selector =>
                          (fst f, detect_framework doc (fst f) (snd f))) cssFrameworks;
     responsive :=
       match viewportMeta with
       | first :: _ =>
           {| mq_detected := true; mq_breakpoints := [];
              mq_viewportMeta := attr "content" first |}
       | [] =>
           {| mq_detected := false; mq_breakpoints := []; mq_viewportMeta := None |}
       end;
     pageStructure :=
       {| hasHeader := found doc (tags ["header"]) || found doc (one [AttrSub "class" "header"]);
          hasFooter := found doc (tags ["footer"]) || found doc (one [AttrSub "class" "footer"]);
          hasNavigation := found doc (tags ["nav"]) || found doc (one [AttrSub "class" "nav"])
                           || found doc (one [AttrSub "class" "menu"]);
          hasSidebar := found doc (tags ["aside"]) || found doc (one [AttrSub "class" "sidebar"])
                        || found doc (one [AttrSub "class" "side-bar"]);
          hasMain := found doc (tags ["main"]);
          sections := List.length (query doc (tags ["section"])) |} |}.

(** ** analyzeWebsite *)

(** A JavaScript value as far as the analyzer and its routes tell values
    apart: a field of a parsed request body, the body of a response.
    Arrays and objects are one opaque case. *)
Inductive Value : Type :=
| JsUndefined
| JsNull
| JsBoolean (b : bool)
| JsNumber (x : float)
| JsString (s : string)
| JsObject.


(** What a call finds outside the program: the answer of the network, the
    parser and the reading of the clock. *)
Record World : Type := {
  (* [axios.get(url, ...)]: [response.data], or the error thrown; no
     response type is asked for, so the data need not be a string *)
  axios_get : Value -> Result Value;
  (* [cheerio.load(html)] on that data: the document, or the error thrown *)
  cheerio_load : Value -> Result Cheerio;
  (* [new Date().toISOString()] *)
  now : string;
  (* the digits of [Date.now()] *)
  date_now : string;
  (* [fs.writeFileSync(path, data)]: done, or the error thrown *)
  writeFileSync : string -> string -> Result unit
}.

Record SiteAnalysis : Type := {
  url : Value;
  colors : ColorCategorySet;
  typography : TypographySet;
  components : list (string * Component);
  layout : Layout;
  timestamp : string
}.

(** [try { ... } catch (error) { throw new Error(...) }]. *)
Definition rethrow {A} (r : Result A) : Result A :=
  match r with
  | Ok a => Ok a
  | Throw message => Throw ("Failed to analyze website: " +++ message)
  end.

Definition analyzeWebsite (w : World) (url : Value) : Result SiteAnalysis :=
  rethrow
    (html <- axios_get w url ;;
     doc <- cheerio_load w html ;;
     colors <- extractColors doc ;;
     typography <- extractTypography doc ;;
     let components := extractComponents doc in
     let layout := analyzeLayout doc in
     Ok {| url := url;
           colors := colors;
           typography := typography;
           components := components;
           layout := layout;
           timestamp := now w |}).

(** ** generateStyleGuide *)

(** [selectMostCommon(items, count)]. *)
Definition selectMostCommon (items : list string) (count : nat) : list string :=
  let frequency := fold_left (fun m item => bump 1 item m) items [] in
  map fst (firstn count (sort_desc frequency)).

(** [frequency.set(value, (frequency.get(value) || 0) + item.count || 1)]:
    the sum, or 1 when the sum is 0. *)
Definition bump_token (m : JsMap) (item : RawToken) : JsMap :=
  let sum := get_or_0 (value item) m + count item in
  map_set (value item) (if sum =? 0 then 1 else sum) m.

(** [selectMostCommonFromObjects(items, 'value', count)]. *)
Definition selectMostCommonFromObjects (items : list RawToken) (count : nat)
  : list RawToken :=
  let frequency := fold_left bump_token items [] in
  firstn count (sort_desc frequency).

Definition defaultFontSizeScale : list (string * string) :=
  [ ("xs", "0.75rem"); ("sm", "0.875rem"); ("base", "1rem"); ("lg", "1.125rem");
    ("xl", "1.25rem"); ("2xl", "1.5rem"); ("3xl", "1.875rem"); ("4xl", "2.25rem");
    ("5xl", "3rem"); ("6xl", "3.75rem") ].

Definition generateFontSizeScale (fontSizes : list RawToken) : list (string * string) :=
  let defaultScale := defaultFontSizeScale in
  if List.length fontSizes <? 5 then defaultScale
  else defaultScale.

Definition defaultLineHeightScale : list (string * string) :=
  [ ("none", "1"); ("tight", "1.25"); ("snug", "1.375"); ("normal", "1.5");
    ("relaxed", "1.625"); ("loose", "2") ].

Definition generateLineHeightScale (lineHeights : list RawToken) : list (string * string) :=
  let defaultScale := defaultLineHeightScale in
  if List.length lineHeights <? 3 then defaultScale
  else defaultScale.

Definition generateSpacingScale : list (string * string) :=
  [ ("0", "0"); ("1", "0.25rem"); ("2", "0.5rem"); ("3", "0.75rem"); ("4", "1rem");
    ("5", "1.25rem"); ("6", "1.5rem"); ("8", "2rem"); ("10", "2.5rem"); ("12", "3rem");
    ("16", "4rem"); ("20", "5rem"); ("24", "6rem"); ("32", "8rem"); ("40", "10rem");
    ("48", "12rem"); ("56", "14rem"); ("64", "16rem") ].

Record ColorPalette : Type := {
  pal_primary : list string;
  pal_secondary : list string;
  pal_accent : list string;
  pal_neutral : list string
}.

(** The filter of the neutral fallback. *)
Definition extreme_luminance (c : string) : bool :=
  match chroma c with
  | Some color =>
      PrimFloat.ltb 0.8%float (luminance color) || PrimFloat.ltb (luminance color) 0.2%float
  | None => false
  end.

(** [pool.length > 0 ? pool : fallback]. *)
Definition pool_or {A} (pool fallback : list A) : list A :=
  if 0 <? List.length pool then pool else fallback.

Definition colorPalette (analyses : list SiteAnalysis) : ColorPalette :=
  let allColors := flat_map (fun analysis => all (colors analysis)) analyses in
  let allPrimaryColors := flat_map (fun analysis => primary (colors analysis)) analyses in
  let allSecondaryColors := flat_map (fun analysis => secondary (colors analysis)) analyses in
  let allAccentColors := flat_map (fun analysis => accent (colors analysis)) analyses in
  let allNeutralColors := flat_map (fun analysis => neutral (colors analysis)) analyses in
  {| pal_primary := selectMostCommon (pool_or allPrimaryColors allColors) 3;
     pal_secondary := selectMostCommon (pool_or allSecondaryColors (skipn 3 allColors)) 3;
     pal_accent := selectMostCommon (pool_or allAccentColors (skipn 6 allColors)) 2;
     pal_neutral :=
       selectMostCommon (pool_or allNeutralColors (filter extreme_luminance allColors)) 4 |}.

(** The shade ramp of one base color: absent when the category is empty,
    the empty object when chroma throws on the base. *)
Definition shades_of (category : list string) : option (list (string * string)) :=
  match category with
  | [] => None
  | base :: _ =>
      match chroma base with
      | Some c =>
          Some [ ("50", hex (with_luminance c 0.95%float));
                 ("100", hex (with_luminance c 0.9%float));
                 ("200", hex (with_luminance c 0.8%float));
                 ("300", hex (with_luminance c 0.7%float));
                 ("400", hex (with_luminance c 0.6%float));
                 ("500", hex c);
                 ("600", hex (with_luminance c 0.4%float));
                 ("700", hex (with_luminance c 0.3%float));
                 ("800", hex (with_luminance c 0.2%float));
                 ("900", hex (with_luminance c 0.1%float)) ]
      | None => Some []
      end
  end.

(** The framework of one analysis with the highest confidence above 0. *)
Definition best_framework (fws : list (string * Framework)) : option (string * Framework) :=
  snd (fold_left
         (fun (st : Z * option (string * Framework)) (nf : string * Framework) =>
            if (fst st <? confidence (snd nf))%Z
            then (confidence (snd nf), Some nf)
            else st)
         fws (0%Z, None)).

Fixpoint somes {A} (l : list (option A)) : list A :=
  match l with
  | [] => []
  | Some a :: l' => a :: somes l'
  | None :: l' => somes l'
  end.

Definition recommended (analyses : list SiteAnalysis) : option string :=
  let layoutFrameworks :=
    somes (map (fun analysis => best_framework (frameworks (layout analysis))) analyses) in
  let frameworkCounts :=
    fold_left (fun m (framework : string * Framework) => bump 1 (fst framework) m)
              layoutFrameworks [] in
  snd (fold_left
         (fun (st : nat * option string) (nc : string * nat) =>
            if fst st <? snd nc then (snd nc, Some (fst nc)) else st)
         frameworkCounts (0, None)).

Record AngularComponentSpec : Type := {
  ng_selector : string;
  ng_componentName : string;
  ng_inputs : list (string * string * string);
  ng_outputs : list (string * string * string)
}.

Record ComponentSpec : Type := {
  spec_count : nat;
  spec_examples : list ComponentExample;
  angularComponent : AngularComponentSpec
}.

(** [s.slice(0, -1)]. *)
Definition drop_last (s : string) : string :=
  String.substring 0 (String.length s - 1) s.

Definition generateAngularComponentSpec (type : string) (examples : list ComponentExample)
  : AngularComponentSpec :=
  let componentName :=
    toUpperCase (String.substring 0 1 type) +++ drop_last (substring_from 1 type) in
  {| ng_selector := "app-" +++ drop_last type;
     ng_componentName := componentName +++ "Component";
     ng_inputs :=
       [ ("variant", "string", "Component variant (primary, secondary, etc.)");
         ("size", "string", "Component size (sm, md, lg, etc.)");
         ("disabled", "boolean", "Whether the component is disabled") ];
     ng_outputs :=
       [ ("click", "EventEmitter<any>", "Emitted when the component is clicked") ] |}.

Fixpoint lookup {A} (k : string) (l : list (string * A)) : option A :=
  match l with
  | [] => None
  | (k', v) :: l' => if String.eqb k k' then Some v else lookup k l'
  end.

Definition componentTypes : list string :=
  ["buttons"; "forms"; "inputs"; "navigation"; "cards"; "modals"; "tables"; "lists"].

Definition generateComponentSpecs (analyses : list SiteAnalysis)
  : list (string * ComponentSpec) :=
  map (fun type =>
         let allExamples :=
           flat_map (fun analysis =>
                       match lookup type (components analysis) with
                       | Some c => comp_examples c
                       | None => []
                       end) analyses in
         (type,
          {| spec_count :=
               fold_left (fun sum analysis =>
                            sum + match lookup type (components analysis) with
                                  | Some c => comp_count c
                                  | None => 0
                                  end) analyses 0;
             spec_examples := firstn 3 allExamples;
             angularComponent := generateAngularComponentSpec type allExamples |}))
      componentTypes.

Record Documentation : Type := {
  markdown : string;
  doc_timestamp : string;
  filename : string;
  filePath : string
}.

Record GuideTypography : Type := {
  g_fontFamilies : list RawToken;
  g_fontSizes : list (string * string);
  g_fontWeights : list RawToken;
  g_lineHeights : list (string * string);
  g_letterSpacings : list RawToken;
  g_textTransforms : list RawToken
}.

(** The style guide: the fields computed from the analyses, the spacing
    scale and the documentation.  The literal tables the source writes
    into every guide (semantic colors, heading and paragraph styles, grid,
    containers, breakpoints, shadows, borders, animations) and the two
    rendered texts ([cssVariables], [htmlPreview]) are left out; making
    them reads the palette, the shades and the font families only, and
    throws nothing. *)
Record StyleGuide : Type := {
  palette : ColorPalette;
  shades_primary : option (list (string * string));
  shades_secondary : option (list (string * string));
  guide_typography : GuideTypography;
  guide_components : list (string * ComponentSpec);
  recommendedFramework : option string;
  spacing : list (string * string);
  documentation : option Documentation
}.

(** [styleGuide.documentation = documentation]. *)
Definition set_documentation (g : StyleGuide) (d : Documentation) : StyleGuide :=
  {| palette := palette g;
     shades_primary := shades_primary g;
     shades_secondary := shades_secondary g;
     guide_typography := guide_typography g;
     guide_components := guide_components g;
     recommendedFramework := recommendedFramework g;
     spacing := spacing g;
     documentation := Some d |}.

(** Reading a name that no scope declares: a ReferenceError. *)
Definition undeclared {A} (name : string) : Result A :=
  Throw (name +++ " is not defined").

(** [generateMarkdownDocs] of [docsGenerator.js].  The function appends
    the sections of the document to one string, statement after statement,
    with no branch that returns early.  On a style guide as
    [generateStyleGuide] builds it, nothing it evaluates before the section
    on asset management throws: every field it reads is there, tested
    first or read through [?.].  In that section the template literal of a
    code sample interpolates [asset.url], and no [asset] is declared in
    the module: the call throws there, whatever the style guide, and the
    text appended so far is lost. *)
Definition generateMarkdownDocs (styleGuide : StyleGuide) : Result string :=
  undeclared "asset".

(** [path.join('/tmp', filename)] for a name without a slash that is not
    the parent directory: the join drops an empty name and the name of the
    current directory. *)
Definition join_tmp (filename : string) : string :=
  if String.eqb filename "" || String.eqb filename "." then "/tmp"
  else "/tmp/" +++ filename.

(** [saveDocsToFile]: the path is the join of [/tmp] and the name, which
    [generateDocs] makes without a slash; the error of the file system is
    thrown again. *)
Definition saveDocsToFile (w : World) (filename markdown : string) : Result string :=
  let filePath := join_tmp filename in
  _ <- writeFileSync w filePath markdown ;;
  Ok filePath.

(** [generateDocs]: the object literal renders the document first, then
    reads the clock and names the file; the file is saved after that. *)
Definition generateDocs (w : World) (styleGuide : StyleGuide) : Result Documentation :=
  markdown <- generateMarkdownDocs styleGuide ;;
  let filename := "style-guide-docs-" +++ date_now w +++ ".md" in
  filePath <- saveDocsToFile w filename markdown ;;
  Ok {| markdown := markdown;
        doc_timestamp := now w;
        filename := filename;
        filePath := filePath |}.

(** The object literal [styleGuide] before the documentation is added. *)
Definition styleGuideOf (analyses : list SiteAnalysis) : StyleGuide :=
  let allFontFamilies := flat_map (fun analysis => fontFamilies (typography analysis)) analyses in
  let allFontSizes := flat_map (fun analysis => fontSizes (typography analysis)) analyses in
  let allFontWeights := flat_map (fun analysis => fontWeights (typography analysis)) analyses in
  let allLineHeights := flat_map (fun analysis => lineHeights (typography analysis)) analyses in
  let allLetterSpacings :=
    flat_map (fun analysis => letterSpacings (typography analysis)) analyses in
  let allTextTransforms :=
    flat_map (fun analysis => textTransforms (typography analysis)) analyses in
  let colorPalette := colorPalette analyses in
  {| palette := colorPalette;
     shades_primary := shades_of (pal_primary colorPalette);
     shades_secondary := shades_of (pal_secondary colorPalette);
     guide_typography :=
       {| g_fontFamilies := selectMostCommonFromObjects allFontFamilies 3;
          g_fontSizes := generateFontSizeScale (selectMostCommonFromObjects allFontSizes 5);
          g_fontWeights := selectMostCommonFromObjects allFontWeights 3;
          g_lineHeights :=
            generateLineHeightScale (selectMostCommonFromObjects allLineHeights 5);
          g_letterSpacings := selectMostCommonFromObjects allLetterSpacings 3;
          g_textTransforms := selectMostCommonFromObjects allTextTransforms 3 |};
     guide_components := generateComponentSpecs analyses;
     recommendedFramework := recommended analyses;
     spacing := generateSpacingScale;
     documentation := None |}.

Definition generateStyleGuide (w : World) (analyses : list SiteAnalysis)
  : Result StyleGuide :=
  let styleGuide := styleGuideOf analyses in
  documentation <- generateDocs w styleGuide ;;
  Ok (set_documentation styleGuide documentation).

(** ** The route [POST /api/analyze/multiple]

    The checks of the handler on the list of addresses before anything is
    analysed: the status and message of the response it returns early,
    [None] when it goes on to analyse.  (The body is a list here; the
    handler also answers 400 to a body without an array.) *)
Definition multiple_precheck (urls : list string) : option (nat * string) :=
  if List.length urls =? 0 then Some (400, "URLs array is required")
  else if 5 <? List.length urls then Some (400, "Maximum 5 URLs allowed")
  else None.

End Analyzer.

(** ** A document tree behind the cheerio interface

    The parsed page as a tree of nodes, and the selection of elements from
    it for the selector forms above. *)

Inductive Node : Type :=
| Element (name : string) (attrs : list (string * string)) (children : list Node)
| Text (data : string)
| Comment (data : string).

Fixpoint text_of (n : Node) : string :=
  match n with
  | Element _ _ kids =>
      (fix texts (ns : list Node) : string :=
         match ns with
         | [] => EmptyString
         | k :: ks => text_of k +++ texts ks
         end) kids
  | Text data => data
  | Comment _ => EmptyString
  end.

Definition is_element (n : Node) : bool :=
  match n with Element _ _ _ => true | _ => false end.

(** An element with its ancestors, nearest first. *)
Record Located : Type := {
  loc_el : Elem;
  loc_ancestors : list Elem
}.

(** The elements below [n] in document order, numbered from [next]. *)
Fixpoint walk (anc : list Elem) (n : Node) (next : nat) : list Located * nat :=
  match n with
  | Element name attrs kids =>
      let me := {| el_id := next; el_name := name; el_attrs := attrs;
                   el_children := List.length (filter is_element kids);
                   el_text := text_of n |} in
      let (below, next') :=
        (fix walk_all (ns : list Node) (next : nat) : list Located * nat :=
           match ns with
           | [] => ([], next)
           | k :: ks =>
               let (l1, n1) := walk (me :: anc) k next in
               let (l2, n2) := walk_all ks n1 in
               (l1 ++ l2, n2)
           end) kids (S next) in
      ({| loc_el := me; loc_ancestors := anc |} :: below, next')
  | _ => ([], next)
  end.

Definition elements_of (root : Node) : list Located := fst (walk [] root 0).

Definition simple_matches (s : Simple) (el : Elem) : bool :=
  match s with
  | Tag name => String.eqb name (el_name el)
  | Any => true
  | Class name => string_in name (split_ws (or_empty (attr "class" el)))
  | HasAttr name => match attr name el with Some _ => true | None => false end
  | AttrIs name v => match attr name el with Some x => String.eqb x v | None => false end
  | AttrSub name v => match attr name el with Some x => includes x v | None => false end
  | ContainsText text => includes (el_text el) text
  end.

Definition compound_matches (c : Compound) (el : Elem) : bool :=
  forallb (fun s => simple_matches s el) c.

(** The compounds above the subject, nearest first, against the
    ancestors. *)
Fixpoint ancestors_match (chain : list Compound) (anc : list Elem) : bool :=
  match chain with
  | [] => true
  | c :: rest =>
      (fix find (anc : list Elem) : bool :=
         match anc with
         | [] => false
         | a :: anc' =>
             (compound_matches c a && ancestors_match rest anc') || find anc'
         end) anc
  end.

Definition complex_matches (x : Complex) (l : Located) : bool :=
  match rev x with
  | [] => false
  | subject :: above =>
      compound_matches subject (loc_el l) && ancestors_match above (loc_ancestors l)
  end.

Definition select (root : Node) (selector : Selector) : list Elem :=
  map loc_el
      (filter (fun l => existsb (fun x => complex_matches x l) selector)
              (elements_of root)).

Fixpoint split_on (sep : ascii) (cur : string) (s : string) : list string :=
  match s with
  | EmptyString => [rev_string "" cur]
  | String c s' =>
      if Ascii.eqb c sep then rev_string "" cur :: split_on sep "" s'
      else split_on sep (String c cur) s'
  end.

(** The declarations of an inline style: name and value around the first
    colon of each piece between semicolons; a piece with no name or no
    value is skipped. *)
Definition declaration (piece : string) : option (string * string) :=
  let (before, rest) := span (fun c => negb (Ascii.eqb c ":"%char)) piece in
  match rest with
  | String _ after =>
      if nonempty before && nonempty after then Some (trim before, trim after) else None
  | EmptyString => None
  end.

(** [$(el).css(prop)] read from the style attribute; of two declarations
    of a property the later one counts. *)
Definition inline_css (el : Elem) (prop : string) : option string :=
  assoc prop (rev (somes (map declaration (split_on ";"%char "" (or_empty (attr "style" el)))))).

Definition tree_dom (root : Node) : Cheerio :=
  {| query := select root; css := inline_css |}.

(** ** A fragment of chroma-js

    The answers of chroma-js on the three spellings of pure red: it reads
    them to the same color, of relative luminance 0.2126 and at distance 0
    from itself.  The fragment reads no other string.  The operations no
    example below reaches have placeholder answers: [c.chroma()] throws,
    [c.luminance(l)] keeps the color. *)
Definition red_only : ChromaJs :=
  {| Color := unit;
     chroma := fun s => if string_in s ["#ff0000"; "#f00"; "red"] then Some tt else None;
     luminance := fun _ => 0.2126%float;
     color_chroma := fun _ => None;
     deltaE_of := fun _ _ => 0%float;
     with_luminance := fun c _ => c;
     hex := fun _ => "#ff0000" |}.

(** Black and white: chroma-js reads the two names, to colors of
    luminance 0 and 1 at distance 100, the top of the scale, from each
    other.  The same placeholders as above. *)
Definition black_white : ChromaJs :=
  {| Color := bool;
     chroma := fun s => if String.eqb s "white" then Some true
                        else if String.eqb s "black" then Some false
                        else None;
     luminance := fun c => if c then 1%float else 0%float;
     color_chroma := fun _ => None;
     deltaE_of := fun a b => if Bool.eqb a b then 0%float else 100%float;
     with_luminance := fun c _ => c;
     hex := fun c => if c then "#ffffff" else "#000000" |}.

(** ** Sample pages and worlds *)

Definition el (name : string) (attrs : list (string * string)) (kids : list Node) : Node :=
  Element name attrs kids.

Definition roboto_href : string :=
  "https://fonts.googleapis.com/css2?family=Roboto&display=swap".

(** A page whose only font signal is a Google Fonts stylesheet link. *)
Definition roboto_page : Node :=
  el "html" []
    [ el "head" []
        [ el "link" [("rel", "stylesheet"); ("href", roboto_href)] [] ];
      el "body" [] [ el "p" [] [Text "Hello"] ] ].

(** A page matching four of the eight selectors of the Bootstrap
    checklist: container, row, col and btn. *)
Definition bootstrap_page : Node :=
  el "html" []
    [ el "body" []
        [ el "div" [("class", "container")]
            [ el "div" [("class", "row")]
                [ el "div" [("class", "col")]
                    [ el "a" [("class", "btn btn-primary"); ("style", "color: red")]
                         [Text "Go"] ] ] ] ] ].

(** Two spellings of one red, the first used twice. *)
Definition two_reds_page : Node :=
  el "body" []
    [ el "p" [("style", "color: #ff0000")] [];
      el "p" [("style", "color: #ff0000")] [];
      el "p" [("style", "color: red")] [] ].

(** A page whose only color is named by a utility class. *)
Definition symbolic_page : Node :=
  el "body" [] [ el "button" [("class", "btn-primary")] [Text "Buy"] ].

(** Five font sizes and three line heights. *)
Definition five_sizes_page : Node :=
  el "body" []
    [ el "p" [("style", "font-size: 12px; line-height: 1.2")] [];
      el "p" [("style", "font-size: 14px; line-height: 1.4")] [];
      el "p" [("style", "font-size: 16px; line-height: 1.6")] [];
      el "p" [("style", "font-size: 20px")] [];
      el "p" [("style", "font-size: 24px")] [] ].

Definition example_url : Value := JsString "https://example.com".

(** The text of the response a sample world serves. *)
Definition sample_html : Value := JsString "<html>".

(** A world that serves one page at [example_url], with a writable
    temporary directory. *)
Definition world_at (page : Node) (clock : string) : World :=
  {| axios_get := fun url =>
       match url with
       | JsString address =>
           if String.eqb address "https://example.com" then Ok sample_html
           else Throw "getaddrinfo ENOTFOUND"
       | _ => Throw "Invalid URL"
       end;
     cheerio_load := fun html =>
       match html with
       | JsString _ => Ok (tree_dom page)
       | _ => Throw "cheerio.load() expects a string"
       end;
     now := clock;
     date_now := "1700000000000";
     writeFileSync := fun _ _ => Ok tt |}.

Definition sample_clock : string := "2024-01-01T00:00:00.000Z".
Definition later_clock : string := "2024-01-01T00:00:01.000Z".


Definition bootstrap_world : World := world_at bootstrap_page sample_clock.
Definition bootstrap_world_later : World := world_at bootstrap_page later_clock.
Definition two_reds_world : World := world_at two_reds_page sample_clock.
Definition symbolic_world : World := world_at symbolic_page sample_clock.
Definition five_sizes_world : World := world_at five_sizes_page sample_clock.

Definition roboto_doc : Cheerio := tree_dom roboto_page.
Definition bootstrap_doc : Cheerio := tree_dom bootstrap_page.

(** The entry of Bootstrap in the layout analysis of [bootstrap_doc]. *)
Definition bootstrap_entry : Framework :=
  detect_framework bootstrap_doc "bootstrap"
    (classes_of ["container"; "row"; "col"; "navbar"; "card"; "btn"; "alert"; "badge"]).

(** A color map with two colors chroma reads well apart and a symbolic
    one; a color map with two spellings of one red and a symbolic color. *)
Definition black_white_map : JsMap := [("white", 3); ("black", 2); ("var(--primary)", 1)].
Definition reds_map : JsMap := [("#ff0000", 2); ("red", 1); ("var(--primary)", 1)].

Definition quoted_times : string :=
  String squote ("Times New Roman" +++ String squote ", Times, serif").

(** An analysis with the given primary colors and nothing else. *)
Definition site_with_primary (p : list string) : SiteAnalysis :=
  {| url := example_url;
     colors := {| primary := p; secondary := []; accent := []; neutral := []; all := p |};
     typography := {| fontFamilies := []; fontSizes := []; fontWeights := [];
                      lineHeights := []; letterSpacings := []; textTransforms := [];
                      textDecorations := []; headings := [] |};
     components := [];
     layout := {| patterns := []; frameworks := [];
                  responsive := {| mq_detected := false; mq_breakpoints := [];
                                   mq_viewportMeta := None |};
                  pageStructure := {| hasHeader := false; hasFooter := false;
                                      hasNavigation := false; hasSidebar := false;
                                      hasMain := false; sections := 0 |} |};
     timestamp := sample_clock |}.

(** ** Sample inputs of the further properties *)

Definition two_reds_doc : Cheerio := tree_dom two_reds_page.
Definition five_sizes_doc : Cheerio := tree_dom five_sizes_page.

(** An element with an inline style. *)
Definition styled (style : string) : Elem :=
  {| el_id := 0; el_name := "div"; el_attrs := [("style", style)];
     el_children := 0; el_text := "" |}.

(** Inline styles that set the background to red: alone, before a color
    declaration and after one. *)
Definition red_background : Elem := styled "background-color: red".
Definition red_background_first : Elem := styled "background-color: red; color: #f00".
Definition red_background_last : Elem := styled "color: #f00; background-color: red".

(** A page with one heading of level 2. *)
Definition heading_page : Node :=
  el "body" [] [ el "h2" [] [Text "Title"]; el "p" [] [Text "Text"] ].

Definition heading_doc : Cheerio := tree_dom heading_page.

(** A page that links two versions of Bootstrap. *)
Definition older_href : string := "https://cdn.example.com/bootstrap/4.6.0/bootstrap.min.css".
Definition newer_href : string := "https://cdn.example.com/bootstrap/5.3.2/bootstrap.min.css".

Definition versioned_page : Node :=
  el "html" []
    [ el "head" []
        [ el "link" [("rel", "stylesheet"); ("href", older_href)] [];
          el "link" [("rel", "stylesheet"); ("href", newer_href)] [] ] ].

Definition versioned_doc : Cheerio := tree_dom versioned_page.

Definition link_elem (id : nat) (href : string) : Elem :=
  {| el_id := id; el_name := "link"; el_attrs := [("rel", "stylesheet"); ("href", href)];
     el_children := 0; el_text := "" |}.

(** The analysis of a document, without colors and typography. *)
Definition site_on (doc : Cheerio) : SiteAnalysis :=
  {| url := example_url;
     colors := {| primary := []; secondary := []; accent := []; neutral := []; all := [] |};
     typography := {| fontFamilies := []; fontSizes := []; fontWeights := [];
                      lineHeights := []; letterSpacings := []; textTransforms := [];
                      textDecorations := []; headings := [] |};
     components := extractComponents doc;
     layout := analyzeLayout doc;
     timestamp := sample_clock |}.

Definition sample_tokens : list RawToken := [("16px", 2); ("14px", 1); ("16px", 3)].



(** ** Predicates and functions of the statements *)

(** The sort leaves the counts in descending order. *)
Fixpoint descending (l : list (string * nat)) : Prop :=
  match l with
  | [] => True
  | x :: l' => Forall (fun y => snd y <= snd x) l' /\ descending l'
  end.

(** No color of the list is similar to one before it. *)
Definition separated {chromajs : ChromaJs} (l : list string) : Prop :=
  ForallOrdPairs (fun e c => isSimilar c e = false) l.

Definition head_char (s : string) : option ascii :=
  match s with
  | String c _ => Some c
  | EmptyString => None
  end.

Fixpoint all_chars (p : ascii -> bool) (s : string) : bool :=
  match s with
  | EmptyString => true
  | String c s' => p c && all_chars p s'
  end.

Definition is_quote (c : ascii) : bool := Ascii.eqb c squote || Ascii.eqb c dquote.

(** The percentage of the specification, on exact rationals:
    [round(matched / total * 100)], halves rounded up. *)
Definition round_percent (matched total : nat) : Z :=
  Qfloor (inject_Z (Z.of_nat matched) / inject_Z (Z.of_nat total) * 100 + (1 # 2))%Q.

(** The frequency map [selectMostCommon] builds. *)
Definition tally (items : list string) : JsMap :=
  fold_left (fun m item => bump 1 item m) items [].

(** The same analysis with another time stamp. *)
Definition with_timestamp (t : string) (a : SiteAnalysis) : SiteAnalysis :=
  {| url := url a; colors := colors a; typography := typography a;
     components := components a; layout := layout a; timestamp := t |}.

Definition map_result {A B} (f : A -> B) (r : Result A) : Result B :=
  match r with
  | Ok a => Ok (f a)
  | Throw m => Throw m
  end.

(** The style guide of the empty batch, before the documentation. *)
Definition empty_guide : StyleGuide :=
  {| palette := {| pal_primary := []; pal_secondary := []; pal_accent := [];
                   pal_neutral := [] |};
     shades_primary := None;
     shades_secondary := None;
     guide_typography :=
       {| g_fontFamilies := []; g_fontSizes := defaultFontSizeScale;
          g_fontWeights := []; g_lineHeights := defaultLineHeightScale;
          g_letterSpacings := []; g_textTransforms := [] |};
     guide_components :=
       map (fun type =>
              (type, {| spec_count := 0; spec_examples := [];
                        angularComponent := generateAngularComponentSpec type [] |}))
           componentTypes;
     recommendedFramework := None;
     spacing := generateSpacingScale;
     documentation := None |}.

(** ** The claims as the specification words them, where the code differs *)

(** C1 as worded: the empty batch makes [generateStyleGuide] throw an
    error of the precondition, one that tells the caller that the batch was
    empty: the empty batch gets it and no batch with an analysis does. *)
Definition fails_fast_on_empty {chromajs : ChromaJs} (w : World) : Prop :=
  exists message : string,
    generateStyleGuide w [] = Throw message /\
    (forall analyses : list SiteAnalysis,
        analyses <> [] -> generateStyleGuide w analyses <> Throw message).

(** C2 as worded: the categories are cut from the deduplicated sequence,
    so whatever is in a category is in [all]. *)
Definition drawn_from_all (cs : ColorCategorySet) : Prop :=
  primary cs = firstn 3 (all cs) /\
  secondary cs = firstn 3 (skipn 3 (all cs)) /\
  (forall c, In c (primary cs) \/ In c (secondary cs) \/
             In c (accent cs) \/ In c (neutral cs) -> In c (all cs)).

(** C5 as worded: the default scale exactly below the minimum sample. *)
Definition default_exactly_below (fontSizes : list RawToken) : Prop :=
  generateFontSizeScale fontSizes = defaultFontSizeScale <-> List.length fontSizes < 5.

(** The palette the specification describes: every category falls back
    to the pool of all colors, past the first 3 for [secondary] and past
    the first 6 for [accent]. *)
Definition palette_as_specified (analyses : list SiteAnalysis) : ColorPalette :=
  let pool := fun category : ColorCategorySet -> list string =>
                flat_map (fun a => category (colors a)) analyses in
  let or_else := fun p fallback : list string =>
                   match p with [] => fallback | _ => p end in
  {| pal_primary := selectMostCommon (or_else (pool primary) (pool all)) 3;
     pal_secondary := selectMostCommon (or_else (pool secondary) (skipn 3 (pool all))) 3;
     pal_accent := selectMostCommon (or_else (pool accent) (skipn 6 (pool all))) 2;
     pal_neutral := selectMostCommon (or_else (pool neutral) (pool all)) 4 |}.

(** ** The routes [POST /api/analyze/single] and
    [GET /api/analyze/download-docs/:filename]

    The handlers of [src/routes/analyze.js] after the authentication
    middleware, with the response they send. *)





(** ** Predicates of the further properties *)

(** A symbolic color reference: [var(--name)] for a known color name. *)
Definition symbolic (k : string) : Prop :=
  exists name, In name colorNames /\ k = "var(--" +++ name +++ ")".

(** A frequency map as the collectors keep it: no key twice, every count
    at least 1. *)
Definition well_counted (m : JsMap) : Prop :=
  NoDup (keys m) /\ Forall (fun e => 1 <= snd e) m.

(** The key under which the heading loop counts an element. *)
Definition heading_key (el : Elem) : string :=
  "heading-" +++ parseInt_text (substring_from 1 (toLowerCase (prop_tagName el))).

(** The sum of the counts of the tokens with value [v]. *)
Fixpoint weight (v : string) (items : list RawToken) : nat :=
  match items with
  | [] => 0
  | item :: rest => (if String.eqb (value item) v then count item else 0) + weight v rest
  end.

(** The votes of a framework: the analyses whose best framework it is. *)
Definition votes (name : string) (analyses : list SiteAnalysis) : nat :=
  count_occ string_dec
    (map fst (somes (map (fun a => best_framework (frameworks (layout a))) analyses)))
    name.

(** The identities of the elements the selectors of a pattern select. *)
Definition selected_ids (doc : Cheerio) (selectors : list Selector) : list nat :=
  flat_map (fun selector => map el_id (query doc selector)) selectors.

(** What the collectors let into the map. *)
Definition admitted {chromajs : ChromaJs} (m : JsMap) : Prop :=
  forall k, In k (keys m) -> isValidColor k = true \/ symbolic k.

(** The invariant of the color frequency map. *)
Definition kept {chromajs : ChromaJs} (m : JsMap) : Prop := well_counted m /\ admitted m.

(** A character of a declared value: neither a semicolon nor a colon. *)
Definition plain_value (c : ascii) : bool :=
  negb (Ascii.eqb c ";"%char) && negb (Ascii.eqb c ":"%char).

(** The color properties whose pattern captures the color [k] in an
    inline style. *)
Definition capturing (style k : string) : list string :=
  filter (fun prop => match match_declaration prop style with
                      | Some v => String.eqb (trim v) k
                      | None => false
                      end)
         colorProperties.

(** What may follow a declared value: nothing, or a semicolon and the
    rest of the style. *)
Definition ends_value (rest : string) : Prop :=
  rest = "" \/ head_char rest = Some ";"%char.

(** Every map of the typography record is well counted. *)
Definition well_counted_maps (t : TypographyMaps) : Prop :=
  well_counted (m_fontFamilies t) /\ well_counted (m_fontSizes t) /\
  well_counted (m_fontWeights t) /\ well_counted (m_lineHeights t) /\
  well_counted (m_letterSpacings t) /\ well_counted (m_textTransforms t) /\
  well_counted (m_textDecorations t).

(** The seven ways to update one map of the record. *)
Definition updates_one_map
  (upd : (JsMap -> JsMap) -> TypographyMaps -> TypographyMaps) : Prop :=
  forall f t, (forall m, well_counted m -> well_counted (f m)) ->
              well_counted_maps t -> well_counted_maps (upd f t).

(** A ranked list: descending counts, every value once, every count at
    least 1. *)
Definition ranked (l : list RawToken) : Prop :=
  descending l /\ NoDup (map fst l) /\ Forall (fun e => 1 <= snd e) l.

(** A link that names the framework with a version in its address. *)
Definition names_version (frameworkName : string) (el : Elem) : option string :=
  if includes (toLowerCase (or_empty (attr "href" el))) frameworkName
  then match_version (or_empty (attr "href" el))
  else None.

(** The component entry of a document for one selector. *)
Definition component_of (doc : Cheerio) (selector : Selector) : Component :=
  {| comp_count := List.length (query doc selector);
     comp_examples := if 0 <? List.length (query doc selector)
                      then extractComponentExamples (query doc selector) else [] |}.

(** * Properties *)

(** ** Maps and the sort *)

Lemma string_in_In (s : string) (l : list string) :
  string_in s l = true <-> In s l.
Proof.
  unfold string_in. rewrite existsb_exists. split.
  - intros [x [Hin Heq]]. apply String.eqb_eq in Heq. now subst.
  - intros Hin. exists s. split; [assumption | apply String.eqb_refl].
Qed.

Lemma string_in_false (s : string) (l : list string) :
  string_in s l = false <-> ~ In s l.
Proof.
  rewrite <- string_in_In. destruct (string_in s l); split; congruence.
Qed.

Lemma map_get_keys (k : string) (m : JsMap) :
  map_get k m = None <-> ~ In k (keys m).
Proof.
  induction m as [|[k' v] m IH]; simpl.
  - tauto.
  - destruct (String.eqb_spec k k') as [->|Hne].
    + split; [discriminate | intros H; exfalso; apply H; now left].
    + rewrite IH. split; intros H; [intros [E|E]; [congruence | tauto] | tauto].
Qed.

Lemma keys_map_set (k : string) (v : nat) (m : JsMap) :
  keys (map_set k v m) = if string_in k (keys m) then keys m else keys m ++ [k].
Proof.
  induction m as [|[k' v'] m IH]; simpl.
  - reflexivity.
  - destruct (String.eqb_spec k k') as [->|Hne]; simpl.
    + reflexivity.
    + rewrite IH. unfold string_in at 2. simpl.
      destruct (String.eqb_spec k k') as [E|_]; [contradiction|].
      simpl. fold (string_in k (keys m)).
      now destruct (string_in k (keys m)).
Qed.

Lemma NoDup_app_last {A} (l : list A) (x : A) :
  NoDup l -> ~ In x l -> NoDup (l ++ [x]).
Proof.
  induction 1 as [|y l Hy Hl IH]; intros Hx; simpl.
  - constructor; [tauto | constructor].
  - constructor.
    + rewrite in_app_iff. simpl. intros [H|[H|[]]]; [tauto|].
      subst. apply Hx. now left.
    + apply IH. intros H. apply Hx. now right.
Qed.

Lemma NoDup_keys_map_set (k : string) (v : nat) (m : JsMap) :
  NoDup (keys m) -> NoDup (keys (map_set k v m)).
Proof.
  intros H. rewrite keys_map_set.
  destruct (string_in k (keys m)) eqn:E; [assumption|].
  apply NoDup_app_last; [assumption | now apply string_in_false].
Qed.

Lemma NoDup_keys_bump (n : nat) (k : string) (m : JsMap) :
  NoDup (keys m) -> NoDup (keys (bump n k m)).
Proof. apply NoDup_keys_map_set. Qed.

Lemma map_get_set_same (k : string) (v : nat) (m : JsMap) :
  map_get k (map_set k v m) = Some v.
Proof.
  induction m as [|[k' v'] m IH]; simpl.
  - now rewrite String.eqb_refl.
  - destruct (String.eqb_spec k k') as [->|Hne]; simpl.
    + now rewrite String.eqb_refl.
    + destruct (String.eqb_spec k k'); [contradiction | assumption].
Qed.

Lemma map_get_set_other (k k' : string) (v : nat) (m : JsMap) :
  k <> k' -> map_get k' (map_set k v m) = map_get k' m.
Proof.
  intros Hne. induction m as [|[k0 v0] m IH]; simpl.
  - destruct (String.eqb_spec k' k); [congruence | reflexivity].
  - destruct (String.eqb_spec k k0) as [->|Hk]; simpl.
    + destruct (String.eqb_spec k' k0); [congruence | reflexivity].
    + destruct (String.eqb_spec k' k0); [reflexivity | assumption].
Qed.

Lemma get_or_0_bump_same (n : nat) (k : string) (m : JsMap) :
  get_or_0 k (bump n k m) = get_or_0 k m + n.
Proof. unfold bump, get_or_0 at 1. now rewrite map_get_set_same. Qed.

Lemma get_or_0_bump_other (n : nat) (k k' : string) (m : JsMap) :
  k <> k' -> get_or_0 k' (bump n k m) = get_or_0 k' m.
Proof. intros H. unfold bump, get_or_0. now rewrite map_get_set_other. Qed.

Lemma insert_desc_perm (x : string * nat) (l : list (string * nat)) :
  Permutation (insert_desc x l) (x :: l).
Proof.
  induction l as [|y l IH]; simpl.
  - reflexivity.
  - destruct (snd y <=? snd x).
    + reflexivity.
    + rewrite IH. apply perm_swap.
Qed.

Lemma sort_desc_perm (l : list (string * nat)) : Permutation (sort_desc l) l.
Proof.
  induction l as [|x l IH]; simpl.
  - reflexivity.
  - rewrite insert_desc_perm. now constructor.
Qed.

Lemma NoDup_keys_sort (m : JsMap) : NoDup (keys m) -> NoDup (keys (sort_desc m)).
Proof.
  intros H. unfold keys.
  eapply Permutation_NoDup; [|exact H].
  apply Permutation_map. symmetry. apply sort_desc_perm.
Qed.

Lemma In_keys_sort (k : string) (m : JsMap) : In k (keys (sort_desc m)) <-> In k (keys m).
Proof.
  unfold keys. split; apply Permutation_in; apply Permutation_map;
    [apply sort_desc_perm | symmetry; apply sort_desc_perm].
Qed.

Lemma insert_desc_descending (x : string * nat) (l : list (string * nat)) :
  descending l -> descending (insert_desc x l).
Proof.
  induction l as [|y l IH]; simpl; intros H.
  - split; [constructor | exact I].
  - destruct H as [Hy Hl].
    destruct (Nat.leb_spec (snd y) (snd x)) as [Hle|Hlt]; simpl.
    + split; [|split; assumption].
      constructor; [assumption|].
      eapply Forall_impl; [|exact Hy]. simpl. intros; lia.
    + split; [|now apply IH].
      eapply Permutation_Forall; [symmetry; apply insert_desc_perm|].
      constructor; [lia | assumption].
Qed.

Lemma sort_desc_descending (l : list (string * nat)) : descending (sort_desc l).
Proof.
  induction l as [|x l IH]; simpl; [exact I | now apply insert_desc_descending].
Qed.

(** ** binary64 comparisons *)

Lemma threshold_times_100 : PrimFloat.mul threshold 100%float = 15%float.
Proof. vm_compute. reflexivity. Qed.

Lemma SFcompare_antisym (x y : spec_float) :
  SFcompare y x = option_map CompOpp (SFcompare x y).
Proof.
  destruct x as [sx|sx| |sx mx ex], y as [sy|sy| |sy my ey]; simpl; try reflexivity;
    try (destruct sx; reflexivity); try (destruct sy; reflexivity);
    try (destruct sx, sy; reflexivity).
  destruct sx, sy; simpl; try reflexivity;
    rewrite (Z.compare_antisym ey ex);
    destruct (Z.compare ey ex) eqn:E; simpl; try reflexivity;
    rewrite !Pos.compare_cont_spec; simpl;
    rewrite (Pos.compare_antisym my mx);
    destruct (Pos.compare my mx); reflexivity.
Qed.

(** A number that is not below [y] is at least [y], unless one of them is
    NaN. *)
Lemma not_ltb_leb (x y : float) :
  PrimFloat.is_nan x = false -> PrimFloat.is_nan y = false ->
  PrimFloat.ltb x y = false -> PrimFloat.leb y x = true.
Proof.
  unfold PrimFloat.is_nan.
  rewrite !FloatAxioms.eqb_spec, FloatAxioms.ltb_spec, FloatAxioms.leb_spec.
  unfold SFeqb, SFltb, SFleb.
  rewrite (SFcompare_antisym (Prim2SF x) (Prim2SF y)).
  intros Hx Hy.
  assert (Hc : exists c, SFcompare (Prim2SF x) (Prim2SF y) = Some c).
  { destruct (Prim2SF x) as [sx|sx| |sx mx ex], (Prim2SF y) as [sy|sy| |sy my ey];
      simpl in *; try discriminate; eexists; reflexivity. }
  destruct Hc as [c Hc]. rewrite Hc. simpl.
  destruct c; simpl; congruence.
Qed.

(** ** The greedy deduplication *)

Section ColorFacts.

Context {chromajs : ChromaJs}.

(** [isSimilar] says that the distance is there and below 15. *)
Lemma isSimilar_iff (color existingColor : string) :
  isSimilar color existingColor = true <->
  exists d, deltaE color existingColor = Some d /\ PrimFloat.ltb d 15%float = true.
Proof.
  unfold isSimilar. rewrite threshold_times_100.
  destruct (deltaE color existingColor) as [d|].
  - split; [intros H; now exists d | intros [d' [E H]]; now inversion E; subst].
  - split; [discriminate | intros [d' [E _]]; discriminate].
Qed.

Lemma dedupe_app (l1 l2 : list (string * nat)) (acc : list string) :
  dedupe (l1 ++ l2) acc = dedupe l2 (dedupe l1 acc).
Proof.
  revert acc. induction l1 as [|[c n] l1 IH]; intros acc; simpl.
  - reflexivity.
  - destruct (existsb (isSimilar c) acc); apply IH.
Qed.

(** The loop only appends, and only colors of the entries it walks. *)
Lemma dedupe_extends (l : list (string * nat)) (acc : list string) :
  exists added, dedupe l acc = acc ++ added /\ incl added (keys l).
Proof.
  revert acc. induction l as [|[c n] l IH]; intros acc; simpl.
  - exists []. split; [now rewrite app_nil_r | intros x []].
  - destruct (existsb (isSimilar c) acc).
    + destruct (IH acc) as [added [E Hincl]].
      exists added. split; [assumption | intros x Hx; right; now apply Hincl].
    + destruct (IH (acc ++ [c])) as [added [E Hincl]].
      exists (c :: added). split.
      * rewrite E, <- app_assoc. reflexivity.
      * intros x [<-|Hx]; [now left | right; now apply Hincl].
Qed.

Lemma separated_snoc (l : list string) (c : string) :
  separated l -> existsb (isSimilar c) l = false -> separated (l ++ [c]).
Proof.
  unfold separated. induction 1 as [|e l He Hl IH]; simpl; intros Hc.
  - constructor; constructor.
  - apply orb_false_iff in Hc. destruct Hc as [Hce Hc].
    constructor.
    + apply Forall_app. split; [assumption | constructor; [assumption | constructor]].
    + now apply IH.
Qed.

Lemma dedupe_separated (l : list (string * nat)) (acc : list string) :
  separated acc -> separated (dedupe l acc).
Proof.
  revert acc. induction l as [|[c n] l IH]; intros acc Hacc; simpl.
  - assumption.
  - destruct (existsb (isSimilar c) acc) eqn:E.
    + now apply IH.
    + apply IH. now apply separated_snoc.
Qed.

Lemma ForallOrdPairs_nth {A} (R : A -> A -> Prop) (l : list A) :
  ForallOrdPairs R l ->
  forall i j a b, i < j -> nth_error l i = Some a -> nth_error l j = Some b -> R a b.
Proof.
  induction 1 as [|x l Hx Hl IH]; intros i j a b Hij Hi Hj.
  - destruct i; discriminate.
  - destruct j as [|j]; [lia|]. simpl in Hj.
    destruct i as [|i]; simpl in Hi.
    + inversion Hi; subst. rewrite Forall_forall in Hx.
      apply Hx. eapply nth_error_In; eassumption.
    + apply (IH i j); [lia | assumption | assumption].
Qed.

Lemma processColors_separated (colorMap : JsMap) : separated (processColors colorMap).
Proof. apply dedupe_separated. constructor. Qed.

(** A candidate is in the result exactly when it was not similar to any
    color accepted before it. *)
Lemma accepted_iff (colorMap : JsMap) (before after : list (string * nat))
  (c : string) (n : nat) :
  NoDup (keys colorMap) ->
  sort_desc colorMap = before ++ (c, n) :: after ->
  In c (processColors colorMap) <-> existsb (isSimilar c) (dedupe before []) = false.
Proof.
  intros Hnd Hsplit.
  assert (Hs : NoDup (keys (before ++ (c, n) :: after))).
  { rewrite <- Hsplit. now apply NoDup_keys_sort. }
  unfold keys in Hs. rewrite map_app in Hs. simpl in Hs.
  pose proof (NoDup_remove_2 _ _ _ Hs) as Hnotin.
  rewrite in_app_iff in Hnotin.
  unfold processColors. rewrite Hsplit, dedupe_app. simpl.
  destruct (dedupe_extends before []) as [a1 [E1 I1]]. simpl in E1.
  assert (Hc1 : ~ In c (dedupe before [])).
  { rewrite E1. intros H. apply Hnotin. left. now apply I1. }
  destruct (existsb (isSimilar c) (dedupe before [])) eqn:E.
  - destruct (dedupe_extends after (dedupe before [])) as [a2 [E2 I2]].
    rewrite E2, in_app_iff. split; [|discriminate].
    intros [H|H]; [contradiction | exfalso; apply Hnotin; right; now apply I2].
  - destruct (dedupe_extends after (dedupe before [] ++ [c])) as [a2 [E2 I2]].
    rewrite E2, !in_app_iff. split; [reflexivity|]. intros _. left. right. now left.
Qed.

(** C3. Dedup invariant: of two colors of the [all] sequence, the later
    one is not closer than 15 to the earlier one: whenever chroma gives
    their distance, it is not below 15, and at least 15 when it is a
    number; for a symmetric distance this holds of every pair of distinct
    positions.  During the greedy pass a candidate is dropped exactly when
    its distance to some already-accepted color is below 15. *)
Theorem dedup_invariant (colorMap : JsMap) :
  (forall i j e c d,
      i < j ->
      nth_error (all (categorizeColors colorMap)) i = Some e ->
      nth_error (all (categorizeColors colorMap)) j = Some c ->
      deltaE c e = Some d ->
      PrimFloat.ltb d 15%float = false /\
      (PrimFloat.is_nan d = false -> PrimFloat.leb 15%float d = true)) /\
  ((forall x y, deltaE_of x y = deltaE_of y x) ->
   forall i j a b d,
     i <> j ->
     nth_error (all (categorizeColors colorMap)) i = Some a ->
     nth_error (all (categorizeColors colorMap)) j = Some b ->
     deltaE a b = Some d ->
     PrimFloat.ltb d 15%float = false) /\
  (NoDup (keys colorMap) ->
   forall before c n after,
     sort_desc colorMap = before ++ (c, n) :: after ->
     (~ In c (all (categorizeColors colorMap)) <->
      exists e d, In e (dedupe before []) /\ deltaE c e = Some d /\
                  PrimFloat.ltb d 15%float = true)).
Proof.
  simpl.
  assert (Hordered : forall i j e c d,
             i < j ->
             nth_error (processColors colorMap) i = Some e ->
             nth_error (processColors colorMap) j = Some c ->
             deltaE c e = Some d -> PrimFloat.ltb d 15%float = false).
  { intros i j e c d Hij Hi Hj Hd.
    pose proof (ForallOrdPairs_nth _ _ (processColors_separated colorMap)
                  i j e c Hij Hi Hj) as Hsim.
    simpl in Hsim.
    destruct (PrimFloat.ltb d 15%float) eqn:E; [|reflexivity].
    assert (isSimilar c e = true) by (apply isSimilar_iff; now exists d).
    congruence. }
  split; [|split].
  - intros i j e c d Hij Hi Hj Hd.
    assert (Hlt : PrimFloat.ltb d 15%float = false) by (eapply Hordered; eassumption).
    split; [assumption|].
    intros Hnan. apply not_ltb_leb; [assumption | reflexivity | assumption].
  - intros Hsym i j a b d Hij Hi Hj Hd.
    destruct (Nat.lt_ge_cases i j) as [Hlt|Hge].
    + apply (Hordered i j a b d Hlt Hi Hj).
      unfold deltaE in *. destruct (chroma a), (chroma b); try discriminate.
      now rewrite Hsym.
    + apply (Hordered j i b a d); [lia | assumption | assumption | assumption].
  - intros Hnd before c n after Hsplit.
    rewrite (accepted_iff colorMap before after c n Hnd Hsplit).
    rewrite not_false_iff_true, existsb_exists.
    split.
    + intros [e [He Hs]]. apply isSimilar_iff in Hs. destruct Hs as [d [Hd Hlt]].
      now exists e, d.
    + intros [e [d [He [Hd Hlt]]]]. exists e. split; [assumption|].
      apply isSimilar_iff. now exists d.
Qed.

End ColorFacts.

(** ** The categories *)

Lemma sort_desc_stable (n : nat) (l : list (string * nat)) :
  filter (fun x => snd x =? n) (sort_desc l) = filter (fun x => snd x =? n) l.
Proof.
  assert (Hins : forall x s,
             filter (fun y => snd y =? n) (insert_desc x s)
             = filter (fun y => snd y =? n) (x :: s)).
  { intros x s. induction s as [|y s IH]; [reflexivity|].
    simpl insert_desc.
    destruct (Nat.leb_spec (snd y) (snd x)) as [Hle|Hlt]; [reflexivity|].
    change (filter (fun y0 => snd y0 =? n) (y :: insert_desc x s))
      with (if snd y =? n then y :: filter (fun y0 => snd y0 =? n) (insert_desc x s)
            else filter (fun y0 => snd y0 =? n) (insert_desc x s)).
    rewrite IH. simpl.
    destruct (Nat.eqb_spec (snd y) n) as [Ey|Ey];
      destruct (Nat.eqb_spec (snd x) n) as [Ex|Ex]; try reflexivity; lia. }
  induction l as [|x l IH]; [reflexivity|].
  simpl sort_desc. rewrite Hins. simpl. now rewrite IH.
Qed.

Lemma filter_not_in_firstn (n : nat) (l : list string) :
  NoDup l ->
  filter (fun c => negb (string_in c (firstn n l))) l = skipn n l.
Proof.
  revert n. induction l as [|x l IH]; intros n Hnd.
  - now destruct n.
  - destruct n as [|n].
    + simpl. f_equal. rewrite <- (IH 0) at 2 by (now inversion Hnd).
      now destruct l.
    + inversion Hnd as [|? ? Hx Hl]; subst.
      simpl firstn. simpl skipn. rewrite <- (IH n Hl).
      simpl. unfold string_in at 1. simpl. rewrite String.eqb_refl. simpl.
      apply filter_ext_in. intros c Hc.
      unfold string_in. simpl.
      destruct (String.eqb_spec c x) as [->|_]; [contradiction | reflexivity].
Qed.

Section CategoryFacts.

Context {chromajs : ChromaJs}.

Lemma In_sortedColors (colorMap : JsMap) (c : string) :
  In c (sortedColors colorMap) <-> In c (keys colorMap) /\ chroma c <> None.
Proof.
  unfold sortedColors. rewrite filter_In. fold (keys (sort_desc colorMap)).
  rewrite In_keys_sort. unfold parses.
  destruct (chroma c); split; intros [H1 H2]; split; congruence.
Qed.

Lemma NoDup_sortedColors (colorMap : JsMap) :
  NoDup (keys colorMap) -> NoDup (sortedColors colorMap).
Proof.
  intros H. unfold sortedColors. apply NoDup_filter.
  now apply NoDup_keys_sort.
Qed.

Lemma In_firstn {A} (n : nat) (l : list A) (x : A) : In x (firstn n l) -> In x l.
Proof.
  revert l. induction n as [|n IH]; intros [|y l]; simpl; try tauto.
  intros [H|H]; [now left | right; now apply IH].
Qed.

Lemma categories_in_sorted (colorMap : JsMap) (c : string) :
  let cs := categorizeColors colorMap in
  In c (primary cs) \/ In c (secondary cs) \/ In c (accent cs) \/ In c (neutral cs) ->
  In c (sortedColors colorMap).
Proof.
  unfold categorizeColors; cbn [primary secondary accent neutral all].
  intros [H|[H|[H|H]]]; apply In_firstn in H.
  - exact H.
  - apply filter_In in H. exact (proj1 H).
  - apply filter_In in H. exact (proj1 H).
  - apply filter_In in H. exact (proj1 H).
Qed.

(** C2, as the code has it.  The categories are drawn from the keys of
    the color map that chroma can read, in descending order of count
    (colors of equal count in the order of the map) and without the
    deduplication: [primary] is the first 3 of that sequence,
    [secondary] the next 3; every color placed in [primary], [secondary],
    [accent] or [neutral] is a key of the map that chroma can read; [all]
    is the deduplicated sequence of all keys. *)
Theorem categories_from_sorted (colorMap : JsMap) :
  NoDup (keys colorMap) ->
  let cs := categorizeColors colorMap in
  let sorted := sortedColors colorMap in
  sorted = filter parses (keys (sort_desc colorMap)) /\
  Permutation (sort_desc colorMap) colorMap /\
  descending (sort_desc colorMap) /\
  (forall n, filter (fun e => snd e =? n) (sort_desc colorMap)
             = filter (fun e => snd e =? n) colorMap) /\
  primary cs = firstn 3 sorted /\
  secondary cs = firstn 3 (skipn 3 sorted) /\
  (forall c, In c (primary cs) \/ In c (secondary cs) \/
             In c (accent cs) \/ In c (neutral cs) ->
             In c (keys colorMap) /\ chroma c <> None) /\
  all cs = processColors colorMap.
Proof.
  intros Hnd cs sorted.
  split; [reflexivity|].
  split; [apply sort_desc_perm|].
  split; [apply sort_desc_descending|].
  split; [intros n; apply sort_desc_stable|].
  split; [reflexivity|].
  split.
  - unfold cs, categorizeColors; cbn [primary secondary accent neutral all]. fold sorted.
    rewrite filter_not_in_firstn; [reflexivity | now apply NoDup_sortedColors].
  - split; [|reflexivity].
    intros c Hc. apply In_sortedColors. now apply categories_in_sorted.
Qed.

Lemma categorize_disjoint (colorMap : JsMap) :
  let cs := categorizeColors colorMap in
  (forall c, In c (primary cs) -> ~ In c (secondary cs)) /\
  (forall c, In c (primary cs) -> ~ In c (accent cs)) /\
  (forall c, In c (secondary cs) -> ~ In c (accent cs)).
Proof.
  unfold categorizeColors; cbn [primary secondary accent neutral all].
  repeat split; intros c H1 H2;
    apply In_firstn in H2; apply filter_In in H2; destruct H2 as [_ H2].
  - apply negb_true_iff, string_in_false in H2. contradiction.
  - unfold is_accent in H2. destruct (chroma c); [|discriminate].
    apply andb_true_iff in H2. destruct H2 as [H2 _].
    apply andb_true_iff in H2. destruct H2 as [H2 _].
    apply negb_true_iff, string_in_false in H2. contradiction.
  - unfold is_accent in H2. destruct (chroma c); [|discriminate].
    apply andb_true_iff in H2. destruct H2 as [H2 _].
    apply andb_true_iff in H2. destruct H2 as [_ H2].
    apply negb_true_iff, string_in_false in H2. contradiction.
Qed.

Lemma analyzeWebsite_colors (w : World) (u : Value) (a : SiteAnalysis) :
  analyzeWebsite w u = Ok a ->
  exists colorMap, colors a = categorizeColors colorMap.
Proof.
  unfold analyzeWebsite, rethrow, extractColors, bind.
  destruct (axios_get w u) as [html|]; [|discriminate].
  destruct (cheerio_load w html) as [doc|]; [|discriminate].
  destruct (collectColors doc) as [colorMap|]; [|discriminate].
  destruct (extractTypography doc); [|discriminate].
  intros H. inversion H. now exists colorMap.
Qed.

(** C10. Category disjointness: in the colors of a site analysis, no
    color string is in two of [primary], [secondary] and [accent]. *)
Theorem category_disjointness (w : World) (u : Value) (a : SiteAnalysis) :
  analyzeWebsite w u = Ok a ->
  (forall c, In c (primary (colors a)) -> ~ In c (secondary (colors a))) /\
  (forall c, In c (primary (colors a)) -> ~ In c (accent (colors a))) /\
  (forall c, In c (secondary (colors a)) -> ~ In c (accent (colors a))).
Proof.
  intros H. destruct (analyzeWebsite_colors w u a H) as [colorMap ->].
  apply categorize_disjoint.
Qed.

End CategoryFacts.

(** ** Font-family normalization *)

Lemma append_empty_r (s : string) : s +++ "" = s.
Proof. induction s; simpl; congruence. Qed.

Lemma append_assoc (a b c : string) : (a +++ b) +++ c = a +++ (b +++ c).
Proof. induction a; simpl; congruence. Qed.

Lemma rev_string_acc (acc s : string) : rev_string acc s = rev_string "" s +++ acc.
Proof.
  revert acc. induction s as [|c s IH]; intros acc; simpl.
  - reflexivity.
  - rewrite (IH (String c acc)), (IH (String c "")), append_assoc. reflexivity.
Qed.

Lemma rev_string_append (a b : string) :
  rev_string "" (a +++ b) = rev_string "" b +++ rev_string "" a.
Proof.
  induction a as [|c a IH]; simpl.
  - now rewrite append_empty_r.
  - rewrite (rev_string_acc (String c "")), IH, append_assoc.
    now rewrite <- (rev_string_acc (String c "") a).
Qed.

Lemma rev_string_involutive (s : string) : rev_string "" (rev_string "" s) = s.
Proof.
  induction s as [|c s IH]; simpl.
  - reflexivity.
  - rewrite (rev_string_acc (String c "")), rev_string_append, IH. reflexivity.
Qed.

Lemma all_chars_rev (p : ascii -> bool) (s : string) :
  all_chars p (rev_string "" s) = all_chars p s.
Proof.
  assert (Happ : forall a b, all_chars p (a +++ b) = all_chars p a && all_chars p b).
  { intros a b. induction a as [|c a IH]; simpl; [reflexivity|].
    now rewrite IH, andb_assoc. }
  induction s as [|c s IH]; simpl.
  - reflexivity.
  - rewrite (rev_string_acc (String c "")), Happ, IH. simpl.
    rewrite andb_true_r. apply andb_comm.
Qed.

Lemma last_char_rev (s : string) : last_char (rev_string "" s) = head_char s.
Proof.
  assert (Hlast : forall a c, last_char (a +++ String c "") = Some c).
  { intros a c. induction a as [|x a IH]; simpl; [reflexivity|].
    rewrite IH. destruct (a +++ String c ""); [discriminate IH | reflexivity]. }
  destruct s as [|c s]; simpl; [reflexivity|].
  rewrite (rev_string_acc (String c "")). apply Hlast.
Qed.

Lemma head_char_rev (s : string) : head_char (rev_string "" s) = last_char s.
Proof.
  rewrite <- (rev_string_involutive s) at 2. now rewrite last_char_rev.
Qed.

(** [trimStart] removes a run of white space in front, and all of it. *)
Lemma trimStart_spec (s : string) :
  exists l, s = l +++ trimStart s /\ all_chars is_space l = true /\
            (forall c, head_char (trimStart s) = Some c -> is_space c = false).
Proof.
  induction s as [|c s [l [E [Hl Hh]]]]; simpl.
  - exists "". repeat split. discriminate.
  - destruct (is_space c) eqn:Ec.
    + exists (String c l). simpl. rewrite <- E, Ec, Hl. repeat split. exact Hh.
    + exists "". repeat split. simpl. intros c' H. now inversion H; subst.
Qed.

Lemma trimEnd_spec (s : string) :
  exists r, s = trimEnd s +++ r /\ all_chars is_space r = true /\
            (forall c, last_char (trimEnd s) = Some c -> is_space c = false).
Proof.
  unfold trimEnd.
  destruct (trimStart_spec (rev_string "" s)) as [l [E [Hl Hh]]].
  exists (rev_string "" l). repeat split.
  - rewrite <- rev_string_append, <- E. symmetry. apply rev_string_involutive.
  - now rewrite all_chars_rev.
  - intros c. rewrite last_char_rev. apply Hh.
Qed.

Lemma head_char_append (a b : string) (c : ascii) :
  head_char a = Some c -> head_char (a +++ b) = Some c.
Proof. destruct a; simpl; [discriminate | trivial]. Qed.

(** [trim] removes the white space around the string, and all of it. *)
Lemma trim_spec (s : string) :
  exists l r, s = l +++ trim s +++ r /\
              all_chars is_space l = true /\ all_chars is_space r = true /\
              (forall c, head_char (trim s) = Some c -> is_space c = false) /\
              (forall c, last_char (trim s) = Some c -> is_space c = false).
Proof.
  unfold trim.
  destruct (trimStart_spec s) as [l [El [Hl Hh]]].
  destruct (trimEnd_spec (trimStart s)) as [r [Er [Hr Ht]]].
  exists l, r. repeat split; try assumption.
  - now rewrite <- Er.
  - intros c Hc. apply Hh. rewrite Er. now apply head_char_append.
Qed.

(** [remove_quotes] leaves no quote character and nothing else out. *)
Lemma remove_quotes_spec (s : string) :
  all_chars (fun c => negb (is_quote c)) (remove_quotes s) = true /\
  (all_chars (fun c => negb (is_quote c)) s = true -> remove_quotes s = s) /\
  (forall a b, remove_quotes (a +++ b) = remove_quotes a +++ remove_quotes b).
Proof.
  split; [|split].
  - induction s as [|c s IH]; simpl; [reflexivity|].
    fold (is_quote c). destruct (is_quote c) eqn:E; simpl; [assumption|].
    now rewrite E, IH.
  - induction s as [|c s IH]; simpl; [reflexivity|].
    fold (is_quote c). destruct (is_quote c); simpl; [discriminate|].
    intros H. now rewrite IH.
  - intros a b. induction a as [|c a IH]; simpl; [reflexivity|].
    destruct (Ascii.eqb c squote || Ascii.eqb c dquote); simpl; now rewrite IH.
Qed.

(** A literal pattern under the [i] flag tests true exactly when the
    subject contains the literal up to ASCII case. *)
Lemma test_i_includes (lit s : string) :
  test_i lit s = includes (toLowerCase s) (toLowerCase lit).
Proof.
  assert (Hp : forall p t,
             match strip_prefix_i p t with Some _ => true | None => false end
             = match strip_prefix (toLowerCase p) (toLowerCase t) with
               | Some _ => true | None => false end).
  { induction p as [|a p IH]; intros [|b t]; simpl; try reflexivity.
    destruct (Ascii.eqb (lower_char a) (lower_char b)); [apply IH | reflexivity]. }
  induction s as [|c s IH].
  - simpl. specialize (Hp lit ""). simpl in Hp.
    destruct (strip_prefix_i lit ""), (strip_prefix (toLowerCase lit) "");
      congruence.
  - simpl test_i. simpl toLowerCase. simpl includes.
    specialize (Hp lit (String c s)). simpl toLowerCase in Hp.
    destruct (strip_prefix_i lit (String c s)),
             (strip_prefix (toLowerCase lit) (String (lower_char c) (toLowerCase s)));
      congruence.
Qed.

Lemma first_match_earliest (patterns : list (string * string)) (s : string)
  (i : nat) (pattern norm : string) :
  nth_error patterns i = Some (pattern, norm) ->
  test_i pattern s = true ->
  (forall j p n, j < i -> nth_error patterns j = Some (p, n) -> test_i p s = false) ->
  first_match patterns s = Some norm.
Proof.
  revert i. induction patterns as [|[p0 n0] patterns IH]; intros i Hi Ht Hbefore.
  - destruct i; discriminate.
  - destruct i as [|i]; simpl in *.
    + inversion Hi; subst. now rewrite Ht.
    + rewrite (Hbefore 0 p0 n0) by (simpl; (lia || reflexivity)).
      apply (IH i); [assumption | assumption|].
      intros j p n Hj Hn. apply (Hbefore (S j) p n); [lia | exact Hn].
Qed.

Lemma first_match_none (patterns : list (string * string)) (s : string) :
  (forall p n, In (p, n) patterns -> test_i p s = false) ->
  first_match patterns s = None.
Proof.
  induction patterns as [|[p0 n0] patterns IH]; intros H; simpl.
  - reflexivity.
  - rewrite (H p0 n0) by now left.
    apply IH. intros p n Hin. apply (H p n). now right.
Qed.

(** C8. Font-family normalization removes the quote characters and the
    white space around the string; the patterns are then tried in the order
    of the list and the first one that matches gives the result, whatever
    later patterns match too; a string that matches none comes back as it
    is after that cleaning. *)
Theorem first_matching_rule_wins (fontFamily : string) :
  let cleaned := trim (remove_quotes fontFamily) in
  (forall i pattern norm,
      nth_error fontFamilyPatterns i = Some (pattern, norm) ->
      test_i pattern cleaned = true ->
      (forall j p n, j < i -> nth_error fontFamilyPatterns j = Some (p, n) ->
                     test_i p cleaned = false) ->
      normalizeFontFamily fontFamily = norm) /\
  ((forall p n, In (p, n) fontFamilyPatterns -> test_i p cleaned = false) ->
   normalizeFontFamily fontFamily = cleaned) /\
  (forall p, test_i p cleaned = includes (toLowerCase cleaned) (toLowerCase p)) /\
  all_chars (fun c => negb (is_quote c)) cleaned = true /\
  (exists l r, remove_quotes fontFamily = l +++ cleaned +++ r /\
               all_chars is_space l = true /\ all_chars is_space r = true /\
               (forall c, head_char cleaned = Some c -> is_space c = false) /\
               (forall c, last_char cleaned = Some c -> is_space c = false)).
Proof.
  intros cleaned. repeat split.
  - intros i pattern norm Hi Ht Hbefore. unfold normalizeFontFamily. fold cleaned.
    now rewrite (first_match_earliest _ _ i pattern norm Hi Ht Hbefore).
  - intros Hnone. unfold normalizeFontFamily. fold cleaned.
    now rewrite (first_match_none _ _ Hnone).
  - intros p. apply test_i_includes.
  - unfold cleaned.
    destruct (trim_spec (remove_quotes fontFamily)) as [l [r [E _]]].
    destruct (remove_quotes_spec fontFamily) as [Hq _].
    rewrite E in Hq.
    assert (Happ : forall a b, all_chars (fun c => negb (is_quote c)) (a +++ b) = true ->
                               all_chars (fun c => negb (is_quote c)) a = true /\
                               all_chars (fun c => negb (is_quote c)) b = true).
    { intros a b. induction a as [|c a IH]; simpl; [tauto|].
      rewrite !andb_true_iff. tauto. }
    apply Happ in Hq. destruct Hq as [_ Hq]. apply Happ in Hq. tauto.
  - apply trim_spec.
Qed.

(** ** The weight of a linked web font *)

Lemma inline_declaration_families (style : option string) (prop : string)
  (norm : string -> string)
  (upd : (JsMap -> JsMap) -> TypographyMaps -> TypographyMaps) (t : TypographyMaps) :
  (forall f t', m_fontFamilies (upd f t') = m_fontFamilies t') ->
  m_fontFamilies (inline_declaration style prop norm upd t) = m_fontFamilies t.
Proof.
  intros Hupd. unfold inline_declaration.
  destruct style as [s|]; [|reflexivity].
  destruct (match_declaration prop s); [apply Hupd | reflexivity].
Qed.

(** What the inline-style loop does to the font families for one
    element. *)
Lemma inline_typography_families (t : TypographyMaps) (el : Elem) :
  m_fontFamilies (inline_typography t el)
  = m_fontFamilies
      (inline_declaration (attr "style" el) "font-family" normalizeFontFamily
                          on_fontFamilies t).
Proof.
  unfold inline_typography.
  repeat (rewrite inline_declaration_families; [|reflexivity]).
  reflexivity.
Qed.

Lemma class_typography_families (t : TypographyMaps) (className : string) :
  m_fontFamilies (class_typography t className) = m_fontFamilies t.
Proof.
  unfold class_typography.
  destruct (strip_prefix "fw-" className) as [weight|];
    [destruct (string_in weight weightNames)|];
    (destruct (strip_prefix "fs-" className) as [size|];
     [destruct (string_in size sizeNames)|]);
    destruct (string_in className _); reflexivity.
Qed.

Lemma class_loop_families (els : list Elem) (t : TypographyMaps) :
  (forall el, In el els -> attr "class" el <> None) ->
  exists t', forEach class_typographies els t = Ok t' /\
             m_fontFamilies t' = m_fontFamilies t.
Proof.
  revert t. induction els as [|el els IH]; intros t Hcls; simpl.
  - now exists t.
  - unfold class_typographies at 1, class_names.
    destruct (attr "class" el) as [c|] eqn:Ec;
      [|exfalso; apply (Hcls el); [now left | assumption]].
    simpl.
    destruct (IH (fold_left class_typography (split_ws c) t)) as [t' [E Hf]].
    { intros x Hx. apply Hcls. now right. }
    exists t'. split; [exact E|]. rewrite Hf. clear.
    generalize (split_ws c). intros names. revert t.
    induction names as [|n names IHn]; intros t; simpl; [reflexivity|].
    now rewrite IHn, class_typography_families.
Qed.

Lemma heading_loop_families (doc : Cheerio) (els : list Elem) (t : TypographyMaps) :
  (forall el, In el els -> truthy (css doc el "font-family") = false) ->
  m_fontFamilies (fold_left (heading_typography doc) els t) = m_fontFamilies t.
Proof.
  revert t. induction els as [|el els IH]; intros t H; simpl; [reflexivity|].
  rewrite IH by (intros x Hx; apply H; now right).
  unfold heading_typography. rewrite (H el) by now left.
  destruct (truthy (css doc el "font-size")); reflexivity.
Qed.

Lemma inline_loop_families (els : list Elem) (t : TypographyMaps) :
  (forall el style, In el els -> attr "style" el = Some style ->
                    match_declaration "font-family" style = None) ->
  m_fontFamilies (fold_left inline_typography els t) = m_fontFamilies t.
Proof.
  revert t. induction els as [|el els IH]; intros t H; simpl; [reflexivity|].
  rewrite IH by (intros x s Hx; apply H; now right).
  rewrite inline_typography_families. unfold inline_declaration.
  destruct (attr "style" el) as [s|] eqn:Es; [|reflexivity].
  now rewrite (H el s (or_introl eq_refl) Es).
Qed.

(** C9. A stylesheet link to the web-font service counts its family 10
    times where an inline declaration counts its family once; and a
    document whose only font signal is such a link for Roboto has
    [Roboto, sans-serif] alone in [fontFamilies], with count 10. *)
Theorem linked_font_weight :
  (forall t el href family,
      attr "href" el = Some href ->
      includes href "fonts.googleapis.com" = true ->
      match_family href = Some family ->
      let k := normalizeFontFamily (replace_plus family) in
      get_or_0 k (m_fontFamilies (link_typography t el))
      = get_or_0 k (m_fontFamilies t) + 10) /\
  (forall t el style v,
      attr "style" el = Some style ->
      match_declaration "font-family" style = Some v ->
      let k := normalizeFontFamily v in
      get_or_0 k (m_fontFamilies (inline_typography t el))
      = get_or_0 k (m_fontFamilies t) + 1) /\
  (forall doc link href,
      (forall el style, In el (query doc (one [HasAttr "style"])) ->
                        attr "style" el = Some style ->
                        match_declaration "font-family" style = None) ->
      (forall el, In el (query doc headingSelector) ->
                  truthy (css doc el "font-family") = false) ->
      (forall el, In el (query doc (one [HasAttr "class"])) -> attr "class" el <> None) ->
      query doc stylesheetLinks = [link] ->
      attr "href" link = Some href ->
      includes href "fonts.googleapis.com" = true ->
      match_family href = Some "Roboto" ->
      exists t, extractTypography doc = Ok t /\
                fontFamilies t = [("Roboto, sans-serif", 10)]).
Proof.
  assert (Htruthy : forall href, includes href "fonts.googleapis.com" = true ->
                                 truthy (Some href) = true).
  { intros [|c href]; [discriminate | reflexivity]. }
  split; [|split].
  - intros t el href family Hhref Hinc Hfam k.
    unfold link_typography. rewrite Hhref, (Htruthy href Hinc). simpl or_empty.
    rewrite Hinc, Hfam. simpl. apply get_or_0_bump_same.
  - intros t el style v Hstyle Hdecl k.
    rewrite inline_typography_families. unfold inline_declaration.
    rewrite Hstyle, Hdecl. simpl. apply get_or_0_bump_same.
  - intros doc link href Hinline Hhead Hclass Hlinks Hhref Hinc Hfam.
    unfold extractTypography, collectTypography.
    destruct (class_loop_families (query doc (one [HasAttr "class"]))
                (fold_left inline_typography (query doc (one [HasAttr "style"]))
                           no_typography) Hclass) as [t1 [E1 F1]].
    rewrite E1. simpl bind.
    eexists. split; [reflexivity|]. cbn [fontFamilies].
    rewrite Hlinks. simpl fold_left.
    unfold link_typography. rewrite Hhref, (Htruthy href Hinc). simpl or_empty.
    rewrite Hinc, Hfam. cbn [andb m_fontFamilies on_fontFamilies].
    rewrite heading_loop_families by exact Hhead.
    rewrite F1, inline_loop_families by exact Hinline.
    vm_compute. reflexivity.
Qed.

(** ** Framework confidence *)

Lemma confidence_of_exact (total matched : nat) :
  In total [6; 7; 8] -> matched <= total ->
  confidence_of matched total = round_percent matched total /\
  (0 <= confidence_of matched total <= 100)%Z.
Proof.
  intros Ht Hm.
  assert (Hb : ((confidence_of matched total =? round_percent matched total)
                && (0 <=? confidence_of matched total)
                && (confidence_of matched total <=? 100))%Z = true).
  { destruct Ht as [<-|[<-|[<-|[]]]];
      do 9 (destruct matched as [|matched];
            [first [exfalso; lia | vm_compute; reflexivity]|]); lia. }
  apply andb_true_iff in Hb. destruct Hb as [Hb H100].
  apply andb_true_iff in Hb. destruct Hb as [Heq H0].
  apply Z.eqb_eq in Heq. apply Z.leb_le in H0, H100. tauto.
Qed.

Lemma matchCount_le (doc : Cheerio) (sels : list Selector) :
  matchCount doc sels <= List.length sels.
Proof. unfold matchCount. apply filter_length_le. Qed.

(** C6. For every framework of the checklist the confidence is
    [round(matched / total * 100)], between 0 and 100, and the framework is
    detected exactly when the confidence is above 30; a document matching 4
    of the 8 Bootstrap selectors has confidence 50 and Bootstrap detected. *)
Theorem framework_confidence (doc : Cheerio) (name : string) (fw : Framework) :
  In (name, fw) (frameworks (analyzeLayout doc)) ->
  let matched := matchCount doc (selectors fw) in
  let total := List.length (selectors fw) in
  lookup name cssFrameworks = Some (selectors fw) /\
  confidence fw = round_percent matched total /\
  (0 <= confidence fw <= 100)%Z /\
  (detected fw = true <-> (30 < confidence fw)%Z) /\
  (name = "bootstrap" ->
   total = 8 /\ (matched = 4 -> confidence fw = 50%Z /\ detected fw = true)).
Proof.
  intros Hin matched total.
  cbn [frameworks analyzeLayout] in Hin. apply in_map_iff in Hin.
  destruct Hin as [[n sels] [E Hin]]. cbn [fst snd] in E.
  inversion E; subst name fw; clear E.
  cbn [selectors detect_framework] in matched, total.
  assert (Hsz : In (List.length sels) [6; 7; 8] /\ lookup n cssFrameworks = Some sels /\
                (n = "bootstrap" -> List.length sels = 8)).
  { simpl in Hin.
    destruct Hin as [H|[H|[H|[H|[H|[]]]]]]; inversion H; subst n sels;
      (split; [simpl; tauto | split; [reflexivity | intros; (reflexivity || discriminate)]]). }
  destruct Hsz as [Hsz [Hlook Hboot]].
  destruct (confidence_of_exact _ _ Hsz (matchCount_le doc sels)) as [Hexact Hrange].
  cbn [confidence detected selectors detect_framework].
  split; [exact Hlook|].
  split; [exact Hexact|].
  split; [exact Hrange|].
  split; [apply Z.ltb_lt|].
  intros Hn. split; [now apply Hboot|].
  intros H4. unfold matched in H4. rewrite H4, (Hboot Hn).
  split; reflexivity.
Qed.

(** ** The frequency recount of the aggregation *)

Lemma tally_from_count (items : list string) (m : JsMap) (k : string) :
  get_or_0 k (fold_left (fun m item => bump 1 item m) items m)
  = get_or_0 k m + count_occ string_dec items k.
Proof.
  revert m. induction items as [|x items IH]; intros m; simpl.
  - lia.
  - rewrite IH. destruct (string_dec x k) as [->|Hne].
    + rewrite get_or_0_bump_same. lia.
    + rewrite get_or_0_bump_other by assumption. lia.
Qed.

Lemma tally_count (items : list string) (k : string) :
  get_or_0 k (tally items) = count_occ string_dec items k.
Proof. unfold tally. now rewrite tally_from_count. Qed.

Lemma tally_from_keys (items : list string) (m : JsMap) :
  NoDup (keys m) ->
  NoDup (keys (fold_left (fun m item => bump 1 item m) items m)) /\
  (forall k, In k (keys (fold_left (fun m item => bump 1 item m) items m))
             <-> In k (keys m) \/ In k items).
Proof.
  revert m. induction items as [|x items IH]; intros m Hnd; simpl.
  - split; [assumption | intros k; tauto].
  - destruct (IH (bump 1 x m) (NoDup_keys_bump 1 x m Hnd)) as [H1 H2].
    split; [assumption|].
    intros k. rewrite H2. unfold bump. rewrite keys_map_set.
    destruct (string_in x (keys m)) eqn:E.
    + apply string_in_In in E. split; [tauto|].
      intros [H|[<-|H]]; tauto.
    + rewrite in_app_iff. simpl. tauto.
Qed.

Lemma tally_keys (items : list string) :
  NoDup (keys (tally items)) /\ (forall k, In k (keys (tally items)) <-> In k items).
Proof.
  destruct (tally_from_keys items [] (NoDup_nil _)) as [H1 H2].
  split; [exact H1|]. intros k. rewrite (H2 k). simpl. tauto.
Qed.

Lemma entry_value (m : JsMap) (k : string) (v : nat) :
  NoDup (keys m) -> In (k, v) m -> get_or_0 k m = v.
Proof.
  unfold get_or_0. induction m as [|[k' v'] m IH]; simpl; intros Hnd Hin; [contradiction|].
  inversion Hnd as [|? ? Hk Hm]; subst.
  destruct Hin as [E|Hin].
  - inversion E; subst. now rewrite String.eqb_refl.
  - destruct (String.eqb_spec k k') as [->|Hne].
    + exfalso. apply Hk. change k' with (fst (k', v)). now apply in_map.
    + now apply IH.
Qed.

Lemma descending_app (a b : list (string * nat)) :
  descending (a ++ b) ->
  descending a /\ forall x y, In x a -> In y b -> snd y <= snd x.
Proof.
  induction a as [|z a IH]; simpl.
  - intros _. split; [exact I | intros x y []].
  - intros [Hz Hd]. destruct (IH Hd) as [Ha Hab].
    apply Forall_app in Hz. destruct Hz as [Hza Hzb].
    split; [split; assumption|].
    intros x y [<-|Hx] Hy.
    + rewrite Forall_forall in Hzb. now apply Hzb.
    + now apply Hab.
Qed.

Lemma descending_nth (l : list (string * nat)) (i j : nat) (x y : string * nat) :
  descending l -> i < j -> nth_error l i = Some x -> nth_error l j = Some y ->
  snd y <= snd x.
Proof.
  revert i j. induction l as [|z l IH]; intros i j Hd Hij Hi Hj.
  - destruct i; discriminate.
  - destruct Hd as [Hz Hd]. destruct j as [|j]; [lia|].
    destruct i as [|i]; simpl in *.
    + inversion Hi; subst. rewrite Forall_forall in Hz.
      apply Hz. eapply nth_error_In; eassumption.
    + apply (IH i j); [assumption | lia | assumption | assumption].
Qed.

(** What [selectMostCommon] returns: at most [count] distinct items of the
    pool, ranked by how often each occurs in the whole pool, and no item
    left out occurs more often than one that was taken. *)
Lemma selectMostCommon_spec (items : list string) (count : nat) :
  let r := selectMostCommon items count in
  NoDup r /\
  List.length r <= count /\
  (forall x, In x r -> In x items) /\
  (forall i j x y, i < j -> nth_error r i = Some x -> nth_error r j = Some y ->
                   count_occ string_dec items y <= count_occ string_dec items x) /\
  (forall x y, In x r -> In y items -> ~ In y r ->
               count_occ string_dec items y <= count_occ string_dec items x).
Proof.
  intros r. unfold r, selectMostCommon. fold (tally items).
  destruct (tally_keys items) as [Hnd Hkeys].
  set (S := sort_desc (tally items)).
  assert (HndS : NoDup (keys S)) by (now apply NoDup_keys_sort).
  assert (Hd : descending S) by apply sort_desc_descending.
  assert (Hval : forall e, In e S -> snd e = count_occ string_dec items (fst e)).
  { intros [k v] He. simpl. rewrite <- tally_count. symmetry.
    apply entry_value; [assumption|].
    eapply Permutation_in; [apply sort_desc_perm | exact He]. }
  assert (Hsplit : S = firstn count S ++ skipn count S)
    by (symmetry; apply firstn_skipn).
  split; [|split; [|split; [|split]]].
  - unfold keys in HndS. rewrite Hsplit, map_app in HndS.
    now apply NoDup_app_remove_r in HndS.
  - rewrite length_map, length_firstn. lia.
  - intros x Hx. apply Hkeys. apply in_map_iff in Hx.
    destruct Hx as [e [<- He]]. apply In_firstn in He.
    apply In_keys_sort. unfold keys. now apply in_map.
  - intros i j x y Hij Hi Hj.
    rewrite nth_error_map in Hi, Hj.
    destruct (nth_error (firstn count S) i) as [ei|] eqn:Ei; [|discriminate].
    destruct (nth_error (firstn count S) j) as [ej|] eqn:Ej; [|discriminate].
    simpl in Hi, Hj. inversion Hi; inversion Hj; subst.
    rewrite <- !Hval by (eapply In_firstn, nth_error_In; eassumption).
    rewrite Hsplit in Hd. apply descending_app in Hd. destruct Hd as [Hd _].
    eapply descending_nth; eassumption.
  - intros x y Hx Hy Hny.
    apply in_map_iff in Hx. destruct Hx as [ex [<- Hex]].
    assert (HyS : In y (keys S)) by (apply In_keys_sort; now apply Hkeys).
    unfold keys in HyS. rewrite Hsplit, map_app, in_app_iff in HyS.
    destruct HyS as [HyS|HyS]; [contradiction|].
    apply in_map_iff in HyS. destruct HyS as [ey [<- Hey]].
    rewrite <- (Hval ex) by (now apply In_firstn in Hex).
    rewrite <- (Hval ey) by (rewrite Hsplit; apply in_or_app; now right).
    rewrite Hsplit in Hd. apply descending_app in Hd. destruct Hd as [_ Hd].
    now apply Hd.
Qed.

Lemma pool_or_spec {A} (pool fallback : list A) :
  pool_or pool fallback = match pool with [] => fallback | _ => pool end.
Proof. now destruct pool. Qed.

(** Scenario E on the pools themselves. *)
Lemma recount_example (A B C : string) :
  A <> B -> A <> C -> B <> C ->
  selectMostCommon ([A; A; B] ++ [A; C]) 3 = [A; B; C].
Proof.
  intros HAB HAC HBC.
  assert (EBA : String.eqb B A = false) by (apply String.eqb_neq; congruence).
  assert (ECA : String.eqb C A = false) by (apply String.eqb_neq; congruence).
  assert (ECB : String.eqb C B = false) by (apply String.eqb_neq; congruence).
  unfold selectMostCommon, bump, get_or_0. simpl.
  repeat (progress (rewrite ?String.eqb_refl, ?EBA, ?ECA, ?ECB; simpl)).
  reflexivity.
Qed.

(** ** Synthesis *)

Section SynthesisFacts.

Context {chromajs : ChromaJs}.

(** [generateStyleGuide] adds the documentation to the guide it built, or
    throws what the documentation generator throws. *)
Lemma generateStyleGuide_steps (w : World) (analyses : list SiteAnalysis) :
  generateStyleGuide w analyses
  = map_result (set_documentation (styleGuideOf analyses))
               (generateDocs w (styleGuideOf analyses)).
Proof.
  unfold generateStyleGuide, bind, map_result.
  now destruct (generateDocs w (styleGuideOf analyses)).
Qed.

(** The renderer stops every call of the documentation generator, before
    a file is named or written. *)
Lemma generateDocs_throws (w : World) (styleGuide : StyleGuide) :
  generateDocs w styleGuide = Throw "asset is not defined".
Proof. reflexivity. Qed.

Lemma generateStyleGuide_throws (w : World) (analyses : list SiteAnalysis) :
  generateStyleGuide w analyses = Throw "asset is not defined".
Proof. now rewrite generateStyleGuide_steps, generateDocs_throws. Qed.

(** C7, as the code has it.  The palette takes the most frequent colors
    of each flattened pool by a recount over that pool: 3 primary, 3
    secondary, 2 accent, 4 neutral.  An empty pool is replaced by the
    flattened pool of all colors for primary, by that pool past its first 3
    entries for secondary and past its first 6 for accent, and for neutral
    by the colors of that pool chroma can read with luminance above 0.8 or
    below 0.2.  Merging the primary pools [A,A,B] and [A,C] recounts A to
    3 and puts A first. *)
Theorem palette_recount (analyses : list SiteAnalysis) :
  let pool := fun category : ColorCategorySet -> list string =>
                flat_map (fun a => category (colors a)) analyses in
  let or_else := fun p fallback : list string =>
                   match p with [] => fallback | _ => p end in
  let p := colorPalette analyses in
  pal_primary p = selectMostCommon (or_else (pool primary) (pool all)) 3 /\
  pal_secondary p = selectMostCommon (or_else (pool secondary) (skipn 3 (pool all))) 3 /\
  pal_accent p = selectMostCommon (or_else (pool accent) (skipn 6 (pool all))) 2 /\
  pal_neutral p
  = selectMostCommon (or_else (pool neutral) (filter extreme_luminance (pool all))) 4 /\
  palette (styleGuideOf analyses) = p /\
  (forall items count,
      let r := selectMostCommon items count in
      NoDup r /\ List.length r <= count /\
      (forall x, In x r -> In x items) /\
      (forall i j x y, i < j -> nth_error r i = Some x -> nth_error r j = Some y ->
                       count_occ string_dec items y <= count_occ string_dec items x) /\
      (forall x y, In x r -> In y items -> ~ In y r ->
                   count_occ string_dec items y <= count_occ string_dec items x)) /\
  (forall a1 a2 A B C,
      A <> B -> A <> C -> B <> C ->
      analyses = [a1; a2] ->
      primary (colors a1) = [A; A; B] -> primary (colors a2) = [A; C] ->
      count_occ string_dec (pool primary) A = 3 /\
      count_occ string_dec (pool primary) B = 1 /\
      count_occ string_dec (pool primary) C = 1 /\
      pal_primary p = [A; B; C]).
Proof.
  intros pool or_else p.
  unfold p, colorPalette; cbn [pal_primary pal_secondary pal_accent pal_neutral].
  rewrite !pool_or_spec.
  split; [reflexivity|]. split; [reflexivity|].
  split; [reflexivity|]. split; [reflexivity|].
  split; [|split].
  - cbn [palette styleGuideOf].
    unfold colorPalette. rewrite !pool_or_spec. reflexivity.
  - intros items count. apply selectMostCommon_spec.
  - intros a1 a2 A B C HAB HAC HBC -> H1 H2.
    assert (Hpool : pool primary = [A; A; B] ++ [A; C]).
    { unfold pool. simpl. now rewrite H1, H2, app_nil_r. }
    fold (pool primary). rewrite Hpool.
    split; [|split; [|split]].
    + simpl. destruct (string_dec A A); [|congruence].
      destruct (string_dec B A); [congruence|].
      destruct (string_dec C A); [congruence | reflexivity].
    + simpl. destruct (string_dec A B); [congruence|].
      destruct (string_dec B B); [|congruence].
      destruct (string_dec C B); [congruence | reflexivity].
    + simpl. destruct (string_dec A C); [congruence|].
      destruct (string_dec B C); [congruence|].
      destruct (string_dec C C); [reflexivity | congruence].
    + simpl app. now apply recount_example.
Qed.

(** C5, as the code has it.  [generateFontSizeScale] gives the fixed
    default scale whatever sizes were observed, below the minimum sample of
    5 and from it on alike, and [generateLineHeightScale] the fixed default
    scale on both sides of 3: no scale is inferred from the observed data.
    These two default scales are what the style guide object built from a
    batch carries, for every batch. *)
Theorem scales_are_default :
  (forall fontSizes, generateFontSizeScale fontSizes = defaultFontSizeScale) /\
  (forall lineHeights, generateLineHeightScale lineHeights = defaultLineHeightScale) /\
  (forall analyses,
      g_fontSizes (guide_typography (styleGuideOf analyses)) = defaultFontSizeScale /\
      g_lineHeights (guide_typography (styleGuideOf analyses)) = defaultLineHeightScale).
Proof.
  assert (H1 : forall fontSizes, generateFontSizeScale fontSizes = defaultFontSizeScale).
  { intros l. unfold generateFontSizeScale. now destruct (List.length l <? 5). }
  assert (H2 : forall lineHeights,
             generateLineHeightScale lineHeights = defaultLineHeightScale).
  { intros l. unfold generateLineHeightScale. now destruct (List.length l <? 3). }
  split; [exact H1|]. split; [exact H2|].
  intros analyses.
  cbn [guide_typography styleGuideOf g_fontSizes g_lineHeights].
  split; [apply H1 | apply H2].
Qed.

Lemma styleGuideOf_nil : styleGuideOf [] = empty_guide.
Proof. reflexivity. Qed.

(** C1, as the code has it.  [generateStyleGuide] checks nothing about
    its input: the empty batch is synthesized like any other.  The style
    guide object built from it has an empty palette, no shade ramps, the
    default scales, zero component counts and no recommended framework, and
    it is handed to the documentation generator; an error on the empty
    batch is the error of that generator on this guide, not one of a check
    of the batch.  The empty batch is turned away before, by the route
    handler, with status 400. *)
Theorem empty_batch (w : World) :
  multiple_precheck [] = Some (400, "URLs array is required") /\
  (forall urls, multiple_precheck urls = None -> 1 <= List.length urls <= 5) /\
  styleGuideOf [] = empty_guide /\
  generateStyleGuide w []
  = map_result (set_documentation empty_guide) (generateDocs w empty_guide) /\
  (forall message,
      generateStyleGuide w [] = Throw message ->
      generateDocs w empty_guide = Throw message) /\
  (forall analyses,
      generateStyleGuide w analyses
      = map_result (set_documentation (styleGuideOf analyses))
                   (generateDocs w (styleGuideOf analyses))).
Proof.
  split; [reflexivity|].
  split.
  { intros urls. unfold multiple_precheck.
    destruct (Nat.eqb_spec (List.length urls) 0); [discriminate|].
    destruct (Nat.ltb_spec 5 (List.length urls)); [discriminate|]. intros _. lia. }
  split; [exact styleGuideOf_nil|].
  rewrite generateStyleGuide_steps, styleGuideOf_nil.
  split; [reflexivity|]. split; [|exact (generateStyleGuide_steps w)].
  intros message. unfold map_result.
  destruct (generateDocs w empty_guide) as [d|m]; [discriminate|].
  intros H. now inversion H.
Qed.

(** C4, as the code has it.  Two analyses of an unchanged document agree
    in every field except [timestamp], which is the reading of the clock at
    each call; a failing analysis fails the same way both times. *)
Theorem analyze_twice (w1 w2 : World) (u : Value) :
  axios_get w1 u = axios_get w2 u ->
  (forall html, axios_get w1 u = Ok html -> cheerio_load w1 html = cheerio_load w2 html) ->
  analyzeWebsite w1 u = map_result (with_timestamp (now w1)) (analyzeWebsite w2 u) /\
  (forall a, analyzeWebsite w1 u = Ok a -> timestamp a = now w1).
Proof.
  intros Hget Hload. unfold analyzeWebsite, rethrow, bind, map_result.
  rewrite <- Hget.
  destruct (axios_get w1 u) as [html|m] eqn:E.
  - rewrite <- (Hload html eq_refl).
    destruct (cheerio_load w1 html) as [doc|]; [|split; [reflexivity | discriminate]].
    destruct (extractColors doc); [|split; [reflexivity | discriminate]].
    destruct (extractTypography doc); [|split; [reflexivity | discriminate]].
    split; [reflexivity|]. intros sa H. now inversion H.
  - split; [reflexivity | discriminate].
Qed.

End SynthesisFacts.

(** ** The statements at sample inputs *)

Lemma fails_fast_on_empty_counterexample :
  ~ fails_fast_on_empty (chromajs := red_only) symbolic_world.
Proof.
  intros [message [Hempty Hother]].
  apply (Hother [site_with_primary ["#ff0000"]]); [discriminate|].
  rewrite generateStyleGuide_throws in Hempty |- *. exact Hempty.
Qed.

Lemma empty_batch_witness :
  generateStyleGuide (chromajs := red_only) symbolic_world [] = Throw "asset is not defined" /\
  generateDocs symbolic_world empty_guide = Throw "asset is not defined".
Proof.
  split; [reflexivity|].
  apply (proj1 (proj2 (proj2 (proj2 (proj2
           (empty_batch (chromajs := red_only) symbolic_world)))))).
  reflexivity.
Defined.

Lemma drawn_from_all_counterexample :
  exists cs, extractColors (chromajs := red_only) (tree_dom two_reds_page) = Ok cs /\
             primary cs = ["#ff0000"; "red"] /\ all cs = ["#ff0000"] /\
             ~ drawn_from_all cs.
Proof.
  eexists. split; [vm_compute; reflexivity|].
  split; [reflexivity|]. split; [reflexivity|].
  intros [H _]. discriminate H.
Qed.

Lemma NoDup_reds_map : NoDup (keys reds_map).
Proof. repeat constructor; simpl; intuition discriminate. Qed.

Lemma NoDup_black_white_map : NoDup (keys black_white_map).
Proof. repeat constructor; simpl; intuition discriminate. Qed.

Lemma categories_from_sorted_witness :
  NoDup (keys reds_map) /\
  primary (categorizeColors (chromajs := red_only) reds_map) = ["#ff0000"; "red"] /\
  secondary (categorizeColors (chromajs := red_only) reds_map) = [] /\
  all (categorizeColors (chromajs := red_only) reds_map) = ["#ff0000"; "var(--primary)"].
Proof.
  split; [exact NoDup_reds_map|].
  destruct (categories_from_sorted (chromajs := red_only) reds_map NoDup_reds_map)
    as [_ [_ [_ [_ [Hp [Hs [_ Ha]]]]]]].
  rewrite Hp, Hs, Ha. repeat split; reflexivity.
Defined.

Lemma dedup_invariant_witness :
  (0 < 1 /\
   nth_error (all (categorizeColors (chromajs := black_white) black_white_map)) 0
   = Some "white" /\
   nth_error (all (categorizeColors (chromajs := black_white) black_white_map)) 1
   = Some "black" /\
   deltaE (chromajs := black_white) "black" "white" = Some 100%float) /\
  (PrimFloat.ltb 100 15 = false /\
   (PrimFloat.is_nan 100 = false -> PrimFloat.leb 15 100 = true)) /\
  (NoDup (keys black_white_map) /\
   sort_desc black_white_map = [("white", 3)] ++ ("black", 2) :: [("var(--primary)", 1)]) /\
  (~ In "black" (all (categorizeColors (chromajs := black_white) black_white_map)) <->
   exists e d, In e (dedupe (chromajs := black_white) [("white", 3)] []) /\
               deltaE (chromajs := black_white) "black" e = Some d /\
               PrimFloat.ltb d 15%float = true).
Proof.
  destruct (dedup_invariant (chromajs := black_white) black_white_map)
    as [Hpair [_ Hstep]].
  split; [repeat split; (lia || reflexivity)|].
  split.
  - apply (Hpair 0 1 "white" "black" 100%float); (lia || reflexivity).
  - split; [split; [exact NoDup_black_white_map | reflexivity]|].
    apply (Hstep NoDup_black_white_map [("white", 3)] "black" 2 [("var(--primary)", 1)]).
    reflexivity.
Defined.

Lemma analyze_twice_counterexample :
  analyzeWebsite (chromajs := red_only) bootstrap_world example_url
  <> analyzeWebsite (chromajs := red_only) bootstrap_world_later example_url.
Proof.
  intros H.
  apply (f_equal (map_result timestamp)) in H.
  vm_compute in H. discriminate H.
Qed.

Lemma analyze_twice_witness :
  axios_get bootstrap_world example_url = axios_get bootstrap_world_later example_url /\
  analyzeWebsite (chromajs := red_only) bootstrap_world example_url
  = map_result (with_timestamp sample_clock)
               (analyzeWebsite (chromajs := red_only) bootstrap_world_later example_url).
Proof.
  split; [reflexivity|].
  apply (analyze_twice (chromajs := red_only) bootstrap_world bootstrap_world_later
           example_url).
  - reflexivity.
  - intros html _. reflexivity.
Defined.

(** The analysis of the page with five font sizes. *)
Lemma five_sizes_analysis :
  exists a, analyzeWebsite (chromajs := red_only) five_sizes_world example_url = Ok a /\
            map fst (fontSizes (typography a)) = ["12px"; "14px"; "16px"; "20px"; "24px"] /\
            map fst (lineHeights (typography a)) = ["1.2"; "1.4"; "1.6"].
Proof. eexists. split; [vm_compute; reflexivity|]. split; reflexivity. Qed.

Lemma default_exactly_below_counterexample :
  exists sizes,
    List.length sizes = 5 /\
    (exists a, analyzeWebsite (chromajs := red_only) five_sizes_world example_url = Ok a /\
               selectMostCommonFromObjects (fontSizes (typography a)) 5 = sizes) /\
    ~ default_exactly_below sizes.
Proof.
  exists [("12px", 1); ("14px", 1); ("16px", 1); ("20px", 1); ("24px", 1)].
  split; [reflexivity|]. split.
  - eexists. split; [vm_compute; reflexivity | vm_compute; reflexivity].
  - intros [H _]. specialize (H eq_refl). simpl in H. lia.
Qed.

Lemma scales_are_default_witness :
  match analyzeWebsite (chromajs := red_only) five_sizes_world example_url with
  | Ok a =>
      List.length (fontSizes (typography a)) = 5 /\
      List.length (lineHeights (typography a)) = 3 /\
      generateFontSizeScale (selectMostCommonFromObjects (fontSizes (typography a)) 5)
      = defaultFontSizeScale /\
      g_fontSizes (guide_typography (styleGuideOf (chromajs := red_only) [a]))
      = defaultFontSizeScale /\
      g_lineHeights (guide_typography (styleGuideOf (chromajs := red_only) [a]))
      = defaultLineHeightScale
  | Throw _ => False
  end.
Proof.
  destruct (analyzeWebsite (chromajs := red_only) five_sizes_world example_url)
    as [a|m] eqn:Ea; [|vm_compute in Ea; discriminate Ea].
  assert (Hl : List.length (fontSizes (typography a)) = 5 /\
               List.length (lineHeights (typography a)) = 3).
  { vm_compute in Ea. inversion Ea. split; reflexivity. }
  split; [exact (proj1 Hl)|]. split; [exact (proj2 Hl)|].
  split; [apply (proj1 (scales_are_default (chromajs := red_only)))|].
  exact (proj2 (proj2 (scales_are_default (chromajs := red_only))) [a]).
Defined.

Lemma framework_confidence_witness :
  In ("bootstrap", bootstrap_entry) (frameworks (analyzeLayout bootstrap_doc)) /\
  matchCount bootstrap_doc (selectors bootstrap_entry) = 4 /\
  confidence bootstrap_entry = 50%Z /\ detected bootstrap_entry = true.
Proof.
  assert (Hin : In ("bootstrap", bootstrap_entry) (frameworks (analyzeLayout bootstrap_doc)))
    by (left; reflexivity).
  split; [exact Hin|].
  assert (H4 : matchCount bootstrap_doc (selectors bootstrap_entry) = 4)
    by (vm_compute; reflexivity).
  split; [exact H4|].
  destruct (framework_confidence bootstrap_doc "bootstrap" bootstrap_entry Hin)
    as [_ [_ [_ [_ Hb]]]].
  destruct (Hb eq_refl) as [_ H]. exact (H H4).
Defined.

Lemma palette_as_specified_counterexample :
  exists a,
    analyzeWebsite (chromajs := red_only) symbolic_world example_url = Ok a /\
    all (colors a) = ["var(--primary)"] /\ neutral (colors a) = [] /\
    pal_neutral (colorPalette (chromajs := red_only) [a]) = [] /\
    pal_neutral (palette_as_specified [a]) = ["var(--primary)"] /\
    colorPalette (chromajs := red_only) [a] <> palette_as_specified [a].
Proof.
  eexists. split; [vm_compute; reflexivity|].
  split; [reflexivity|]. split; [reflexivity|].
  split; [reflexivity|]. split; [reflexivity|].
  intros H. apply (f_equal pal_neutral) in H. vm_compute in H. discriminate H.
Qed.

Lemma palette_recount_witness :
  (primary (colors (site_with_primary ["#1a73e8"; "#1a73e8"; "#34a853"]))
   = ["#1a73e8"; "#1a73e8"; "#34a853"] /\
   primary (colors (site_with_primary ["#1a73e8"; "#ea4335"])) = ["#1a73e8"; "#ea4335"]) /\
  pal_primary (colorPalette (chromajs := red_only)
                 [site_with_primary ["#1a73e8"; "#1a73e8"; "#34a853"];
                  site_with_primary ["#1a73e8"; "#ea4335"]])
  = ["#1a73e8"; "#34a853"; "#ea4335"].
Proof.
  split; [split; reflexivity|].
  destruct (palette_recount (chromajs := red_only)
              [site_with_primary ["#1a73e8"; "#1a73e8"; "#34a853"];
               site_with_primary ["#1a73e8"; "#ea4335"]])
    as [_ [_ [_ [_ [_ [_ H]]]]]].
  refine (proj2 (proj2 (proj2
            (H (site_with_primary ["#1a73e8"; "#1a73e8"; "#34a853"])
               (site_with_primary ["#1a73e8"; "#ea4335"])
               "#1a73e8" "#34a853" "#ea4335" _ _ _ eq_refl eq_refl eq_refl))));
    discriminate.
Defined.

Lemma first_matching_rule_wins_witness :
  (nth_error fontFamilyPatterns 2 = Some ("times new roman", "Times New Roman, serif") /\
   test_i "times new roman" (trim (remove_quotes quoted_times)) = true /\
   test_i "times" (trim (remove_quotes quoted_times)) = true /\
   test_i "serif" (trim (remove_quotes quoted_times)) = true) /\
  normalizeFontFamily quoted_times = "Times New Roman, serif".
Proof.
  split; [repeat split; reflexivity|].
  apply (proj1 (first_matching_rule_wins quoted_times) 2 "times new roman").
  - reflexivity.
  - reflexivity.
  - intros j p n Hj Hn.
    destruct j as [|[|j]]; [| |lia]; inversion Hn; subst; reflexivity.
Defined.

Lemma unknown_family_passes_through :
  normalizeFontFamily "  Foo Grotesk " = "Foo Grotesk".
Proof.
  unfold normalizeFontFamily. rewrite first_match_none; [reflexivity|].
  intros p n Hin. simpl in Hin.
  repeat (destruct Hin as [Hin|Hin]; [inversion Hin; subst; reflexivity|]).
  contradiction.
Qed.

Lemma linked_font_weight_witness :
  (exists link, query roboto_doc stylesheetLinks = [link] /\
                attr "href" link = Some roboto_href) /\
  exists t, extractTypography roboto_doc = Ok t /\
            fontFamilies t = [("Roboto, sans-serif", 10)].
Proof.
  split; [eexists; split; reflexivity|].
  refine (proj2 (proj2 linked_font_weight) roboto_doc _ roboto_href _ _ _ _ _ _ _).
  - intros x style Hin. vm_compute in Hin. contradiction.
  - intros x Hin. vm_compute in Hin. contradiction.
  - intros x Hin. vm_compute in Hin. contradiction.
  - vm_compute. reflexivity.
  - reflexivity.
  - reflexivity.
  - reflexivity.
Defined.

Lemma category_disjointness_witness :
  match analyzeWebsite (chromajs := red_only) two_reds_world example_url with
  | Ok a =>
      primary (colors a) = ["#ff0000"; "red"] /\
      (forall c, In c (primary (colors a)) -> ~ In c (secondary (colors a))) /\
      (forall c, In c (primary (colors a)) -> ~ In c (accent (colors a))) /\
      (forall c, In c (secondary (colors a)) -> ~ In c (accent (colors a)))
  | Throw _ => False
  end.
Proof.
  destruct (analyzeWebsite (chromajs := red_only) two_reds_world example_url)
    as [a|m] eqn:Ea; [|vm_compute in Ea; discriminate Ea].
  split.
  - vm_compute in Ea. inversion Ea. reflexivity.
  - exact (category_disjointness (chromajs := red_only) two_reds_world example_url a Ea).
Defined.

(** * Further properties *)

(** ** The frequency map of the colors *)

Lemma In_map_set (k : string) (v : nat) (m : JsMap) (e : string * nat) :
  In e (map_set k v m) -> In e m \/ e = (k, v).
Proof.
  induction m as [|[k' v'] m IH]; simpl.
  - intros [H|[]]. now right.
  - destruct (String.eqb_spec k k') as [->|Hne]; simpl.
    + intros [H|H]; [now right | left; now right].
    + intros [H|H]; [left; now left|].
      destruct (IH H) as [H'|H']; [left; now right | now right].
Qed.

Lemma well_counted_bump (n : nat) (k : string) (m : JsMap) :
  1 <= n -> well_counted m -> well_counted (bump n k m).
Proof.
  intros Hn [Hnd Hc]. split; [now apply NoDup_keys_bump|].
  apply Forall_forall. intros e He. unfold bump in He.
  apply In_map_set in He. destruct He as [He| ->].
  - rewrite Forall_forall in Hc. now apply Hc.
  - simpl. lia.
Qed.

Lemma well_counted_nil : well_counted [].
Proof. split; constructor. Qed.

Section ColorMapFacts.

Context {chromajs : ChromaJs}.

Lemma admitted_bump (n : nat) (k : string) (m : JsMap) :
  isValidColor k = true \/ symbolic k -> admitted m -> admitted (bump n k m).
Proof.
  intros Hk Hm k' Hin. unfold bump in Hin. rewrite keys_map_set in Hin.
  destruct (string_in k (keys m)); [now apply Hm|].
  apply in_app_iff in Hin. destruct Hin as [Hin|[<-|[]]]; [now apply Hm | assumption].
Qed.

Lemma kept_count_color (color : string) (m : JsMap) :
  kept m -> kept (count_color color m).
Proof.
  intros [Hw Ha]. unfold count_color.
  destruct (isValidColor color) eqn:E; [|now split].
  split; [apply well_counted_bump; [lia | assumption]|].
  apply admitted_bump; [now left | assumption].
Qed.

Lemma kept_fold {A} (f : JsMap -> A -> JsMap) (l : list A) (m : JsMap) :
  (forall m a, kept m -> kept (f m a)) -> kept m -> kept (fold_left f l m).
Proof.
  intros Hf. revert m. induction l as [|a l IH]; intros m Hm; simpl; [assumption|].
  apply IH. now apply Hf.
Qed.

Lemma kept_inline_colors (m : JsMap) (el : Elem) : kept m -> kept (inline_colors m el).
Proof.
  intros Hm. unfold inline_colors. apply kept_fold; [|assumption].
  intros m' prop Hm'. destruct (attr "style" el) as [style|]; [|assumption].
  destruct (match_declaration prop style); [now apply kept_count_color | assumption].
Qed.

Lemma kept_paint_color (x : option string) (m : JsMap) : kept m -> kept (paint_color x m).
Proof.
  intros Hm. unfold paint_color. destruct x as [v|]; [|assumption].
  destruct (nonempty v && negb (v =? "none")%string && negb (v =? "transparent")%string);
    [now apply kept_count_color | assumption].
Qed.

Lemma kept_svg_colors (m : JsMap) (el : Elem) : kept m -> kept (svg_colors m el).
Proof. intros Hm. unfold svg_colors. now do 2 apply kept_paint_color. Qed.

Lemma kept_class_color (m : JsMap) (className : string) :
  kept m -> kept (class_color m className).
Proof.
  intros Hm. unfold class_color. apply kept_fold; [|assumption].
  intros m' prefix [Hw Ha].
  destruct (strip_prefix prefix className) as [colorName|]; [|now split].
  destruct (string_in colorName colorNames) eqn:E; [|now split].
  split; [apply well_counted_bump; [lia | assumption]|].
  apply admitted_bump; [|assumption].
  right. exists colorName. split; [now apply string_in_In | reflexivity].
Qed.

Lemma kept_forEach_class (els : list Elem) (m m' : JsMap) :
  kept m -> forEach class_colors els m = Ok m' -> kept m'.
Proof.
  revert m. induction els as [|el els IH]; intros m Hm; simpl.
  - intros H. now inversion H; subst.
  - unfold class_colors at 1, bind. destruct (class_names el) as [classes|]; [|discriminate].
    apply IH. apply kept_fold; [|assumption]. apply kept_class_color.
Qed.

Lemma collectColors_kept (doc : Cheerio) (m : JsMap) :
  collectColors doc = Ok m -> kept m.
Proof.
  unfold collectColors. apply kept_forEach_class.
  apply kept_fold; [apply kept_svg_colors|].
  apply kept_fold; [apply kept_inline_colors|].
  split; [apply well_counted_nil | intros k []].
Qed.

Lemma symbolic_not_keyword (k : string) :
  symbolic k ->
  string_in (toLowerCase k) ["transparent"; "inherit"; "initial"; "currentcolor"; "none"]
  = false.
Proof.
  intros [name [Hin ->]]. simpl in Hin.
  repeat (destruct Hin as [<-|Hin]; [reflexivity|]). contradiction.
Qed.

(** X1. The color frequency map of a document holds every key once, with a
    count of at least 1; a key is either a string that passed
    [isValidColor] (chroma reads it, and it is none of the keywords
    transparent, inherit, initial, currentcolor, none in any letter case) or
    the symbolic reference [var(--name)] of a known color name. *)
Theorem collected_colors_are_valid (doc : Cheerio) (colorMap : JsMap) :
  collectColors doc = Ok colorMap ->
  NoDup (keys colorMap) /\
  (forall k n, In (k, n) colorMap ->
     1 <= n /\
     ((isValidColor k = true /\ chroma k <> None) \/ symbolic k) /\
     string_in (toLowerCase k)
       ["transparent"; "inherit"; "initial"; "currentcolor"; "none"] = false).
Proof.
  intros H. destruct (collectColors_kept doc colorMap H) as [[Hnd Hc] Ha].
  split; [assumption|].
  intros k n Hin. split; [|split].
  - rewrite Forall_forall in Hc. exact (Hc (k, n) Hin).
  - destruct (Ha k) as [Hv|Hs].
    + change k with (fst (k, n)). now apply in_map.
    + left. split; [assumption|]. unfold isValidColor in Hv.
      destruct (string_in _ _); [discriminate|]. now destruct (chroma k).
    + now right.
  - destruct (Ha k) as [Hv|Hs].
    + change k with (fst (k, n)). now apply in_map.
    + unfold isValidColor in Hv. now destruct (string_in _ _).
    + now apply symbolic_not_keyword.
Qed.

End ColorMapFacts.

(** ** What the deduplication keeps *)

Section DedupFacts.

Context {chromajs : ChromaJs}.

Lemma dedupe_covers (l : list (string * nat)) (acc : list string) (c : string) :
  In c acc \/ In c (keys l) ->
  In c (dedupe l acc) \/
  exists e, In e (dedupe l acc) /\ isSimilar c e = true.
Proof.
  revert acc. induction l as [|[x n] l IH]; intros acc; simpl.
  - intros [H|[]]. now left.
  - intros Hc. destruct (existsb (isSimilar x) acc) eqn:E.
    + destruct Hc as [Hc|[<-|Hc]].
      * apply IH. now left.
      * right. apply existsb_exists in E. destruct E as [e [He Hs]].
        exists e. split; [|assumption].
        destruct (dedupe_extends l acc) as [added [-> _]].
        apply in_or_app. now left.
      * apply IH. now right.
    + apply IH. destruct Hc as [Hc|[<-|Hc]].
      * left. apply in_or_app. now left.
      * left. apply in_or_app. right. now left.
      * now right.
Qed.

Lemma dedupe_NoDup (l : list (string * nat)) (acc : list string) :
  NoDup (acc ++ keys l) -> NoDup (dedupe l acc).
Proof.
  revert acc. induction l as [|[x n] l IH]; intros acc; simpl.
  - now rewrite app_nil_r.
  - intros H. destruct (existsb (isSimilar x) acc).
    + apply IH. now apply NoDup_remove_1 in H.
    + apply IH. now rewrite <- app_assoc.
Qed.

Lemma dedupe_head (l : list (string * nat)) (x : string) (acc : list string) :
  nth_error (dedupe l (x :: acc)) 0 = Some x.
Proof.
  destruct (dedupe_extends l (x :: acc)) as [added [-> _]]. reflexivity.
Qed.

(** X2. The deduplicated sequence [all] is made of keys of the color map,
    each once; every key of the map is in it or is closer than 15 to a color
    in it; and the most frequent color (the first of equal counts) is always
    its first entry. *)
Theorem dedup_keeps_a_representative (colorMap : JsMap) :
  (forall c, In c (processColors colorMap) -> In c (keys colorMap)) /\
  (NoDup (keys colorMap) -> NoDup (processColors colorMap)) /\
  (forall c, In c (keys colorMap) ->
     In c (processColors colorMap) \/
     exists e d, In e (processColors colorMap) /\ deltaE c e = Some d /\
                 PrimFloat.ltb d 15%float = true) /\
  (forall c n rest, sort_desc colorMap = (c, n) :: rest ->
     nth_error (processColors colorMap) 0 = Some c /\
     forall k v, In (k, v) colorMap -> v <= n).
Proof.
  unfold processColors. split; [|split; [|split]].
  - intros c Hc. destruct (dedupe_extends (sort_desc colorMap) []) as [added [E Hincl]].
    rewrite E in Hc. simpl in Hc. apply In_keys_sort. now apply Hincl.
  - intros Hnd. apply dedupe_NoDup. simpl. now apply NoDup_keys_sort.
  - intros c Hc.
    destruct (dedupe_covers (sort_desc colorMap) [] c) as [H|[e [He Hs]]].
    + right. now apply In_keys_sort.
    + now left.
    + right. apply isSimilar_iff in Hs. destruct Hs as [d [Hd Hlt]]. now exists e, d.
  - intros c n rest Hs. rewrite Hs. simpl. split; [apply dedupe_head|].
    intros k v Hin.
    assert (Hin' : In (k, v) (sort_desc colorMap)).
    { eapply Permutation_in; [symmetry; apply sort_desc_perm | exact Hin]. }
    pose proof (sort_desc_descending colorMap) as Hd. rewrite Hs in Hd, Hin'.
    destruct Hd as [Hall _]. destruct Hin' as [E|Hin'].
    + inversion E. lia.
    + rewrite Forall_forall in Hall. exact (Hall (k, v) Hin').
Qed.

End DedupFacts.

(** ** One declaration, two properties *)

Lemma span_all (p : ascii -> bool) (s : string) :
  all_chars p s = true -> span p s = (s, "").
Proof.
  induction s as [|c s IH]; simpl; [reflexivity|].
  intros H. apply andb_true_iff in H. destruct H as [Hc Hs].
  now rewrite Hc, IH.
Qed.

Lemma all_chars_impl (p q : ascii -> bool) (s : string) :
  (forall c, p c = true -> q c = true) -> all_chars p s = true -> all_chars q s = true.
Proof.
  intros Hpq. induction s as [|c s IH]; simpl; [reflexivity|].
  rewrite !andb_true_iff. intros [Hc Hs]. split; [now apply Hpq | now apply IH].
Qed.

(** A pattern that ends in a colon matches nowhere in a text without
    colon. *)
Lemma lower_colon (b : ascii) :
  Ascii.eqb b ":"%char = false -> Ascii.eqb (lower_char ":") (lower_char b) = false.
Proof. destruct b as [[] [] [] [] [] [] [] []]; vm_compute; congruence. Qed.

Lemma strip_prefix_i_no_colon (prop s : string) :
  all_chars plain_value s = true -> strip_prefix_i (prop +++ ":") s = None.
Proof.
  revert s. induction prop as [|a prop IH]; intros [|b s]; try reflexivity.
  - cbn [append strip_prefix_i all_chars]. intros H.
    apply andb_true_iff in H. destruct H as [Hb _].
    unfold plain_value in Hb. apply andb_true_iff in Hb. destruct Hb as [_ Hb].
    apply negb_true_iff in Hb. now rewrite (lower_colon b Hb).
  - cbn [append strip_prefix_i all_chars]. intros H.
    apply andb_true_iff in H. destruct H as [_ Hs].
    destruct (Ascii.eqb (lower_char a) (lower_char b)); [now apply IH | reflexivity].
Qed.

Lemma match_declaration_no_colon (prop s : string) :
  all_chars plain_value s = true -> match_declaration prop s = None.
Proof.
  induction s as [|c s IH]; intros H.
  - simpl. now rewrite (strip_prefix_i_no_colon prop "" H).
  - simpl match_declaration. rewrite (strip_prefix_i_no_colon prop _ H).
    simpl in H. apply andb_true_iff in H. now apply IH.
Qed.

(** The capture of a value that starts right after one space. *)
Lemma value_capture_spaced (v : string) (c : ascii) :
  head_char v = Some c -> is_space c = false ->
  all_chars plain_value v = true ->
  value_capture (String " " v) = Some v.
Proof.
  intros Hh Hc Hv. destruct v as [|c' v]; [discriminate|].
  simpl in Hh. inversion Hh; subst c'.
  unfold value_capture. simpl span at 1.
  change (is_space " ") with true. cbv iota. simpl span at 1. rewrite Hc.
  rewrite (span_all (fun x => negb (Ascii.eqb x ";"%char)) (String c v)).
  - reflexivity.
  - eapply all_chars_impl; [|exact Hv]. intros x Hx. unfold plain_value in Hx.
    now apply andb_true_iff in Hx.
Qed.

Lemma span_stop (p : ascii -> bool) (v rest : string) :
  all_chars p v = true ->
  rest = "" \/ (exists c, head_char rest = Some c /\ p c = false) ->
  span p (v +++ rest) = (v, rest).
Proof.
  intros Hv Hrest. induction v as [|a v IH].
  - cbn [append]. destruct Hrest as [->|[c [Hc Hp]]]; [reflexivity|].
    destruct rest as [|c' rest]; [discriminate|].
    simpl in Hc. inversion Hc; subst c'. simpl. now rewrite Hp.
  - cbn [all_chars] in Hv. apply andb_true_iff in Hv. destruct Hv as [Ha Hv].
    cbn [append span]. now rewrite Ha, (IH Hv).
Qed.

(** The capture of a value that starts right after one space and runs to
    the end of the style or to a semicolon. *)
Lemma value_capture_until (v rest : string) (c : ascii) :
  head_char v = Some c -> is_space c = false ->
  all_chars plain_value v = true -> ends_value rest ->
  value_capture (String " " (v +++ rest)) = Some v.
Proof.
  intros Hh Hc Hv Hrest. destruct v as [|c' v]; [discriminate|].
  simpl in Hh. inversion Hh; subst c'.
  unfold value_capture. cbn [append]. simpl span at 1.
  change (is_space " ") with true. cbv iota. simpl span at 1. rewrite Hc.
  change (String c (v +++ rest)) with (String c v +++ rest).
  rewrite (span_stop (fun x => negb (Ascii.eqb x ";"%char)) (String c v) rest).
  - reflexivity.
  - eapply all_chars_impl; [|exact Hv]. intros x Hx. unfold plain_value in Hx.
    now apply andb_true_iff in Hx.
  - destruct Hrest as [->|Hsemi]; [now left | right].
    exists ";"%char. split; [exact Hsemi | reflexivity].
Qed.

Lemma match_declaration_step (prop : string) (a : ascii) (s : string) :
  strip_prefix_i (prop +++ ":") (String a s) = None ->
  match_declaration prop (String a s) = match_declaration prop s.
Proof. intros H. simpl match_declaration. now rewrite H. Qed.

Lemma match_declaration_here (prop s rest v : string) :
  strip_prefix_i (prop +++ ":") s = Some rest -> value_capture rest = Some v ->
  match_declaration prop s = Some v.
Proof.
  intros H1 H2. destruct s; simpl match_declaration; now rewrite H1, H2.
Qed.

Ltac skip_declaration :=
  repeat (rewrite match_declaration_step by reflexivity).

Section DeclarationFacts.

Variables (v : string) (c : ascii).
Hypothesis (Hh : head_char v = Some c) (Hc : is_space c = false).
Hypothesis (Hv : all_chars plain_value v = true).

Ltac settle_declaration :=
  simpl append; skip_declaration;
  first [ eapply match_declaration_here;
          [reflexivity | now apply (value_capture_spaced v c)]
        | now apply match_declaration_no_colon ].

Lemma background_color_matches (prop : string) :
  In prop colorProperties ->
  match_declaration prop ("background-color: " +++ v)
  = if string_in prop ["color"; "background-color"] then Some v else None.
Proof.
  intros Hin. simpl in Hin.
  destruct Hin as [<-|[<-|[<-|[<-|[<-|[<-|[<-|[<-|[]]]]]]]]];
    cbn [string_in existsb String.eqb Ascii.eqb Bool.eqb orb]; settle_declaration.
Qed.

Lemma border_color_matches (prop : string) :
  In prop colorProperties ->
  match_declaration prop ("border-color: " +++ v)
  = if string_in prop ["color"; "border-color"] then Some v else None.
Proof.
  intros Hin. simpl in Hin.
  destruct Hin as [<-|[<-|[<-|[<-|[<-|[<-|[<-|[<-|[]]]]]]]]];
    cbn [string_in existsb String.eqb Ascii.eqb Bool.eqb orb]; settle_declaration.
Qed.

Lemma color_matches (prop : string) :
  In prop colorProperties ->
  match_declaration prop ("color: " +++ v)
  = if string_in prop ["color"] then Some v else None.
Proof.
  intros Hin. simpl in Hin.
  destruct Hin as [<-|[<-|[<-|[<-|[<-|[<-|[<-|[<-|[]]]]]]]]];
    cbn [string_in existsb String.eqb Ascii.eqb Bool.eqb orb]; settle_declaration.
Qed.

(** A declaration at the start of the style, whatever follows it. *)
Lemma background_color_first (rest prop : string) :
  ends_value rest -> In prop ["color"; "background-color"] ->
  match_declaration prop ("background-color: " +++ v +++ rest) = Some v.
Proof.
  intros Hrest [<-|[<-|[]]]; simpl append; skip_declaration;
    (eapply match_declaration_here;
     [reflexivity | now apply (value_capture_until v rest c)]).
Qed.

Lemma border_color_first (rest prop : string) :
  ends_value rest -> In prop ["color"; "border-color"] ->
  match_declaration prop ("border-color: " +++ v +++ rest) = Some v.
Proof.
  intros Hrest [<-|[<-|[]]]; simpl append; skip_declaration;
    (eapply match_declaration_here;
     [reflexivity | now apply (value_capture_until v rest c)]).
Qed.

End DeclarationFacts.

Lemma length_filter_cons {A} (f : A -> bool) (x : A) (l : list A) :
  List.length (filter f (x :: l)) = (if f x then 1 else 0) + List.length (filter f l).
Proof. cbn [filter]. now destruct (f x). Qed.

Section DoubleCount.

Context {chromajs : ChromaJs}.

(** The count of a color grows by one for each property that captures
    it. *)
Lemma inline_colors_count (m : JsMap) (el : Elem) (style k : string) :
  attr "style" el = Some style -> isValidColor k = true ->
  get_or_0 k (inline_colors m el) = get_or_0 k m + List.length (capturing style k).
Proof.
  intros Hs Hvalid. unfold inline_colors, capturing. rewrite Hs.
  generalize colorProperties. intros l. revert m.
  induction l as [|prop l IH]; intros m; cbn [fold_left filter List.length]; [lia|].
  rewrite IH. destruct (match_declaration prop style) as [x|].
  - destruct (String.eqb_spec (trim x) k) as [->|Hne]; cbn [List.length].
    + unfold count_color. rewrite Hvalid, get_or_0_bump_same. lia.
    + unfold count_color. destruct (isValidColor (trim x)); [|reflexivity].
      now rewrite get_or_0_bump_other.
  - reflexivity.
Qed.

(** X3. For a valid color, an inline style adds to its count the number
    of color properties whose pattern captures it, and the pattern of the
    [color] property also matches inside [background-color] and
    [border-color].  So a style that begins with a [background-color] or
    [border-color] declaration of the color counts it at least twice, and
    exactly twice when that declaration is the whole style, where a style
    that is one [color] declaration counts it once. *)
Theorem compound_property_counts_twice (m : JsMap) (el : Elem) (style v : string)
  (c : ascii) :
  attr "style" el = Some style ->
  head_char v = Some c -> is_space c = false ->
  all_chars plain_value v = true ->
  isValidColor (trim v) = true ->
  get_or_0 (trim v) (inline_colors m el)
  = get_or_0 (trim v) m + List.length (capturing style (trim v)) /\
  (forall rest, ends_value rest ->
     style = "background-color: " +++ v +++ rest \/ style = "border-color: " +++ v +++ rest ->
     get_or_0 (trim v) m + 2 <= get_or_0 (trim v) (inline_colors m el)) /\
  (style = "background-color: " +++ v \/ style = "border-color: " +++ v ->
   get_or_0 (trim v) (inline_colors m el) = get_or_0 (trim v) m + 2) /\
  (style = "color: " +++ v ->
   get_or_0 (trim v) (inline_colors m el) = get_or_0 (trim v) m + 1).
Proof.
  intros Hs Hh Hc Hv Hvalid.
  rewrite (inline_colors_count m el style (trim v) Hs Hvalid).
  split; [reflexivity|]. split; [|split].
  - intros rest Hrest Hstyle. apply Nat.add_le_mono_l.
    unfold capturing, colorProperties. rewrite !length_filter_cons.
    destruct Hstyle as [-> | ->].
    + rewrite (background_color_first v c Hh Hc Hv rest "color" Hrest) by (simpl; tauto).
      rewrite (background_color_first v c Hh Hc Hv rest "background-color" Hrest)
        by (simpl; tauto).
      rewrite String.eqb_refl. lia.
    + rewrite (border_color_first v c Hh Hc Hv rest "color" Hrest) by (simpl; tauto).
      rewrite (border_color_first v c Hh Hc Hv rest "border-color" Hrest)
        by (simpl; tauto).
      rewrite String.eqb_refl. lia.
  - intros Hstyle. f_equal. unfold capturing.
    assert (Hhit : forall hit : string -> bool,
               (forall prop, In prop colorProperties ->
                  match_declaration prop style = if hit prop then Some v else None) ->
               List.length
                 (filter (fun prop => match match_declaration prop style with
                                      | Some x => String.eqb (trim x) (trim v)
                                      | None => false
                                      end) colorProperties)
               = List.length (filter hit colorProperties)).
    { intros hit Hm. f_equal. apply filter_ext_in. intros prop Hin.
      rewrite (Hm prop Hin). destruct (hit prop); [apply String.eqb_refl | reflexivity]. }
    destruct Hstyle as [-> | ->].
    + rewrite (Hhit _ (background_color_matches v c Hh Hc Hv)). reflexivity.
    + rewrite (Hhit _ (border_color_matches v c Hh Hc Hv)). reflexivity.
  - intros ->. f_equal. unfold capturing.
    replace (List.length _) with
      (List.length (filter (fun prop => string_in prop ["color"]) colorProperties));
      [reflexivity|].
    f_equal. apply filter_ext_in. intros prop Hin.
    rewrite (color_matches v c Hh Hc Hv prop Hin).
    destruct (string_in prop ["color"]); [now rewrite String.eqb_refl | reflexivity].
Qed.

End DoubleCount.

(** ** The ranked typography tokens *)

Ltac one_map :=
  intros f t Hf [H1 [H2 [H3 [H4 [H5 [H6 H7]]]]]];
  split; [|split; [|split; [|split; [|split; [|split]]]]]; simpl;
  first [assumption | now apply Hf].

Lemma on_fontFamilies_ok : updates_one_map on_fontFamilies.
Proof. one_map. Qed.
Lemma on_fontSizes_ok : updates_one_map on_fontSizes.
Proof. one_map. Qed.
Lemma on_fontWeights_ok : updates_one_map on_fontWeights.
Proof. one_map. Qed.
Lemma on_lineHeights_ok : updates_one_map on_lineHeights.
Proof. one_map. Qed.
Lemma on_letterSpacings_ok : updates_one_map on_letterSpacings.
Proof. one_map. Qed.
Lemma on_textTransforms_ok : updates_one_map on_textTransforms.
Proof. one_map. Qed.
Lemma on_textDecorations_ok : updates_one_map on_textDecorations.
Proof. one_map. Qed.

Lemma bump_ok (n : nat) (k : string) :
  1 <= n -> forall m, well_counted m -> well_counted (bump n k m).
Proof. intros Hn m. now apply well_counted_bump. Qed.

Lemma inline_declaration_ok (style : option string) (prop : string)
  (norm : string -> string) upd (t : TypographyMaps) :
  updates_one_map upd -> well_counted_maps t ->
  well_counted_maps (inline_declaration style prop norm upd t).
Proof.
  intros Hupd Ht. unfold inline_declaration.
  destruct style as [s|]; [|assumption].
  destruct (match_declaration prop s); [|assumption].
  apply Hupd; [apply bump_ok; lia | assumption].
Qed.

Lemma inline_typography_ok (t : TypographyMaps) (el : Elem) :
  well_counted_maps t -> well_counted_maps (inline_typography t el).
Proof.
  intros Ht. unfold inline_typography.
  repeat (apply inline_declaration_ok;
          [first [ apply on_fontFamilies_ok | apply on_fontSizes_ok
                 | apply on_fontWeights_ok | apply on_lineHeights_ok
                 | apply on_letterSpacings_ok | apply on_textTransforms_ok
                 | apply on_textDecorations_ok ]|]).
  assumption.
Qed.

Lemma class_typography_ok (t : TypographyMaps) (className : string) :
  well_counted_maps t -> well_counted_maps (class_typography t className).
Proof.
  intros Ht. unfold class_typography.
  assert (H1 : well_counted_maps
                 match strip_prefix "fw-" className with
                 | Some weight =>
                     if string_in weight weightNames
                     then on_fontWeights (bump 1 weight) t else t
                 | None => t
                 end).
  { destruct (strip_prefix "fw-" className) as [weight|]; [|assumption].
    destruct (string_in weight weightNames); [|assumption].
    apply on_fontWeights_ok; [apply bump_ok; lia | assumption]. }
  revert H1. generalize (match strip_prefix "fw-" className with
                         | Some weight =>
                             if string_in weight weightNames
                             then on_fontWeights (bump 1 weight) t else t
                         | None => t
                         end).
  intros t1 H1.
  assert (H2 : well_counted_maps
                 match strip_prefix "fs-" className with
                 | Some size =>
                     if string_in size sizeNames
                     then on_fontSizes (bump 1 ("var(--fs-" +++ size +++ ")")) t1 else t1
                 | None => t1
                 end).
  { destruct (strip_prefix "fs-" className) as [size|]; [|assumption].
    destruct (string_in size sizeNames); [|assumption].
    apply on_fontSizes_ok; [apply bump_ok; lia | assumption]. }
  revert H2. generalize (match strip_prefix "fs-" className with
                         | Some size =>
                             if string_in size sizeNames
                             then on_fontSizes (bump 1 ("var(--fs-" +++ size +++ ")")) t1
                             else t1
                         | None => t1
                         end).
  intros t2 H2.
  destruct (string_in className _); [|assumption].
  apply on_textTransforms_ok; [apply bump_ok; lia | assumption].
Qed.

Lemma fold_ok {A} (f : TypographyMaps -> A -> TypographyMaps) (l : list A)
  (t : TypographyMaps) :
  (forall t a, well_counted_maps t -> well_counted_maps (f t a)) ->
  well_counted_maps t -> well_counted_maps (fold_left f l t).
Proof.
  intros Hf. revert t. induction l as [|a l IH]; intros t Ht; simpl; [assumption|].
  apply IH. now apply Hf.
Qed.

Lemma class_loop_ok (els : list Elem) (t t' : TypographyMaps) :
  well_counted_maps t -> forEach class_typographies els t = Ok t' ->
  well_counted_maps t'.
Proof.
  revert t. induction els as [|el els IH]; intros t Ht; simpl.
  - intros H. now inversion H; subst.
  - unfold class_typographies at 1, bind.
    destruct (class_names el) as [classes|]; [|discriminate].
    apply IH. apply fold_ok; [apply class_typography_ok | assumption].
Qed.

Lemma heading_typography_ok (doc : Cheerio) (t : TypographyMaps) (el : Elem) :
  well_counted_maps t -> well_counted_maps (heading_typography doc t el).
Proof.
  intros Ht. unfold heading_typography.
  assert (H1 : well_counted_maps
                 (on_fontWeights
                    (bump 1 ("heading-" +++
                             parseInt_text (substring_from 1 (toLowerCase (prop_tagName el)))))
                    t))
    by (apply on_fontWeights_ok; [apply bump_ok; lia | assumption]).
  destruct (truthy (css doc el "font-family")).
  - destruct (truthy (css doc el "font-size")).
    + apply on_fontSizes_ok; [apply bump_ok; lia|].
      apply on_fontFamilies_ok; [apply bump_ok; lia | assumption].
    + apply on_fontFamilies_ok; [apply bump_ok; lia | assumption].
  - destruct (truthy (css doc el "font-size")); [|assumption].
    apply on_fontSizes_ok; [apply bump_ok; lia | assumption].
Qed.

Lemma link_typography_ok (t : TypographyMaps) (el : Elem) :
  well_counted_maps t -> well_counted_maps (link_typography t el).
Proof.
  intros Ht. unfold link_typography.
  destruct (truthy (attr "href" el) && includes (or_empty (attr "href" el)) _);
    [|assumption].
  destruct (match_family _); [|assumption].
  apply on_fontFamilies_ok; [apply bump_ok; lia | assumption].
Qed.

Lemma collectTypography_ok (doc : Cheerio) (t : TypographyMaps) :
  collectTypography doc = Ok t -> well_counted_maps t.
Proof.
  unfold collectTypography, bind.
  destruct (forEach class_typographies _ _) as [t1|] eqn:E; [|discriminate].
  intros H. inversion H; subst. clear H.
  apply fold_ok; [apply link_typography_ok|].
  apply fold_ok; [apply heading_typography_ok|].
  eapply class_loop_ok; [|exact E].
  apply fold_ok; [apply inline_typography_ok|].
  split; [|split; [|split; [|split; [|split; [|split]]]]]; apply well_counted_nil.
Qed.

Lemma sortMapByFrequency_ranked (m : JsMap) :
  well_counted m ->
  ranked (sortMapByFrequency m) /\ Permutation (sortMapByFrequency m) m.
Proof.
  intros [Hnd Hc]. unfold sortMapByFrequency. split; [|apply sort_desc_perm].
  split; [apply sort_desc_descending|].
  split; [now apply NoDup_keys_sort|].
  eapply Permutation_Forall; [symmetry; apply sort_desc_perm | exact Hc].
Qed.

(** X4. Every token list of a typography set is ranked: counts descend,
    no value occurs twice and every count is at least 1. *)
Theorem typography_is_ranked (doc : Cheerio) (t : TypographySet) :
  extractTypography doc = Ok t ->
  ranked (fontFamilies t) /\ ranked (fontSizes t) /\ ranked (fontWeights t) /\
  ranked (lineHeights t) /\ ranked (letterSpacings t) /\ ranked (textTransforms t) /\
  ranked (textDecorations t).
Proof.
  unfold extractTypography, bind.
  destruct (collectTypography doc) as [maps|] eqn:E; [|discriminate].
  intros H. inversion H; subst. clear H. simpl.
  destruct (collectTypography_ok doc maps E) as [H1 [H2 [H3 [H4 [H5 [H6 H7]]]]]].
  split; [|split; [|split; [|split; [|split; [|split]]]]];
    now apply sortMapByFrequency_ranked.
Qed.

(** ** Headings among the font weights *)

Lemma key_stays (n : nat) (k k' : string) (m : JsMap) :
  In k (keys m) -> In k (keys (bump n k' m)).
Proof.
  intros H. unfold bump. rewrite keys_map_set.
  destruct (string_in k' (keys m)); [assumption | apply in_or_app; now left].
Qed.

Lemma key_enters (n : nat) (k : string) (m : JsMap) : In k (keys (bump n k m)).
Proof.
  unfold bump. rewrite keys_map_set.
  destruct (string_in k (keys m)) eqn:E; [now apply string_in_In|].
  apply in_or_app. right. now left.
Qed.

Lemma heading_typography_weights (doc : Cheerio) (t : TypographyMaps) (el : Elem) :
  m_fontWeights (heading_typography doc t el) = bump 1 (heading_key el) (m_fontWeights t).
Proof.
  unfold heading_typography.
  destruct (truthy (css doc el "font-family")), (truthy (css doc el "font-size"));
    reflexivity.
Qed.

Lemma heading_loop_weights (doc : Cheerio) (els : list Elem) (t : TypographyMaps)
  (k : string) :
  In k (keys (m_fontWeights t)) \/ In k (map heading_key els) ->
  In k (keys (m_fontWeights (fold_left (heading_typography doc) els t))).
Proof.
  revert t. induction els as [|el els IH]; intros t; simpl.
  - intros [H|[]]. assumption.
  - intros H. apply IH. rewrite heading_typography_weights.
    destruct H as [H|[<-|H]].
    + left. now apply key_stays.
    + left. apply key_enters.
    + now right.
Qed.

Lemma link_loop_weights (els : list Elem) (t : TypographyMaps) :
  m_fontWeights (fold_left link_typography els t) = m_fontWeights t.
Proof.
  revert t. induction els as [|el els IH]; intros t; simpl; [reflexivity|].
  rewrite IH. unfold link_typography.
  destruct (truthy (attr "href" el) && includes (or_empty (attr "href" el)) _);
    [|reflexivity].
  now destruct (match_family _).
Qed.

(** X5. Every heading element of the document is counted among the font
    weights, under the key [heading-N] of its level: the ranked
    [fontWeights] of the analysis holds that key with a count of at least 1. *)
Theorem headings_rank_as_font_weights (doc : Cheerio) (t : TypographySet) (el : Elem) :
  extractTypography doc = Ok t ->
  In el (query doc headingSelector) ->
  (exists n, 1 <= n /\ In (heading_key el, n) (fontWeights t)) /\
  (forall level, In level ["1"; "2"; "3"; "4"; "5"; "6"] ->
                 el_name el = "h" +++ level -> heading_key el = "heading-" +++ level).
Proof.
  intros H Hel. split.
  - assert (Hpos : Forall (fun e => 1 <= snd e) (fontWeights t)).
    { revert H. unfold extractTypography, bind.
      destruct (collectTypography doc) as [maps|] eqn:E; [|discriminate].
      intros H. inversion H; subst. cbn [fontWeights].
      destruct (collectTypography_ok doc maps E) as [_ [_ [H3 _]]].
      exact (proj2 (proj2 (proj1 (sortMapByFrequency_ranked _ H3)))). }
    revert H Hpos. unfold extractTypography, collectTypography, bind.
    destruct (forEach class_typographies _ _) as [t1|]; [|discriminate].
    intros H. inversion H; subst. clear H. cbn [fontWeights]. intros Hpos.
    assert (Hk : In (heading_key el)
                    (keys (sortMapByFrequency
                             (m_fontWeights
                                (fold_left link_typography (query doc stylesheetLinks)
                                   (fold_left (heading_typography doc)
                                      (query doc headingSelector) t1)))))).
    { apply In_keys_sort. rewrite link_loop_weights.
      apply heading_loop_weights. right. now apply in_map. }
    apply in_map_iff in Hk. destruct Hk as [[k n] [Ek Hin]]. simpl in Ek. subst k.
    exists n. split; [|assumption].
    rewrite Forall_forall in Hpos. exact (Hpos _ Hin).
  - intros level Hl Hn. unfold heading_key, prop_tagName. rewrite Hn.
    simpl in Hl. repeat (destruct Hl as [<-|Hl]; [reflexivity|]). contradiction.
Qed.

(** ** The table of font-family rules *)

Lemma lower_char_idem (c : ascii) : lower_char (lower_char c) = lower_char c.
Proof. destruct c as [[] [] [] [] [] [] [] []]; reflexivity. Qed.

Lemma is_space_lower (c : ascii) : is_space (lower_char c) = is_space c.
Proof. destruct c as [[] [] [] [] [] [] [] []]; reflexivity. Qed.

Lemma is_quote_lower (c : ascii) : is_quote (lower_char c) = is_quote c.
Proof. destruct c as [[] [] [] [] [] [] [] []]; reflexivity. Qed.

Lemma strip_prefix_i_lower (p s : string) :
  match strip_prefix_i p (toLowerCase s) with Some _ => true | None => false end
  = match strip_prefix_i p s with Some _ => true | None => false end.
Proof.
  revert s. induction p as [|a p IH]; intros [|b s]; simpl; try reflexivity.
  rewrite lower_char_idem.
  destruct (Ascii.eqb (lower_char a) (lower_char b)); [apply IH | reflexivity].
Qed.

Lemma test_i_lower (p s : string) : test_i p (toLowerCase s) = test_i p s.
Proof.
  induction s as [|c s IH].
  - reflexivity.
  - pose proof (strip_prefix_i_lower p (String c s)) as H.
    simpl toLowerCase in *. simpl test_i.
    destruct (strip_prefix_i p (String (lower_char c) (toLowerCase s))),
             (strip_prefix_i p (String c s)); try discriminate H; try reflexivity.
    exact IH.
Qed.

Lemma rev_string_lower (acc s : string) :
  rev_string (toLowerCase acc) (toLowerCase s) = toLowerCase (rev_string acc s).
Proof.
  revert acc. induction s as [|c s IH]; intros acc; simpl; [reflexivity|].
  now rewrite <- IH.
Qed.

Lemma trimStart_lower (s : string) : trimStart (toLowerCase s) = toLowerCase (trimStart s).
Proof.
  induction s as [|c s IH]; simpl; [reflexivity|].
  rewrite is_space_lower. destruct (is_space c); [exact IH | reflexivity].
Qed.

Lemma trim_lower (s : string) : trim (toLowerCase s) = toLowerCase (trim s).
Proof.
  assert (Hrev : forall x, rev_string "" (toLowerCase x) = toLowerCase (rev_string "" x))
    by (intros x; apply (rev_string_lower "" x)).
  unfold trim, trimEnd.
  now rewrite trimStart_lower, Hrev, trimStart_lower, Hrev.
Qed.

Lemma remove_quotes_lower (s : string) :
  remove_quotes (toLowerCase s) = toLowerCase (remove_quotes s).
Proof.
  induction s as [|c s IH]; simpl; [reflexivity|].
  fold (is_quote (lower_char c)). fold (is_quote c). rewrite is_quote_lower.
  destruct (is_quote c); simpl; now rewrite IH.
Qed.

Lemma first_match_lower (patterns : list (string * string)) (s : string) :
  first_match patterns (toLowerCase s) = first_match patterns s.
Proof.
  induction patterns as [|[p n] patterns IH]; simpl; [reflexivity|].
  rewrite test_i_lower. now rewrite IH.
Qed.

(** X6. The rules do not depend on the letter case of the family: when a
    rule matches, the family in lower case has the same normal form; when
    none matches, both come back cleaned, equal up to case.  No rule is
    shadowed by an earlier one: the text of each pattern is normalized by
    its own rule.  Normalizing is not idempotent: the normal form of the
    Helvetica rule is taken by the Arial rule. *)
Theorem font_rules_ignore_case (fontFamily : string) :
  first_match fontFamilyPatterns (trim (remove_quotes (toLowerCase fontFamily)))
  = first_match fontFamilyPatterns (trim (remove_quotes fontFamily)) /\
  (first_match fontFamilyPatterns (trim (remove_quotes fontFamily)) <> None ->
   normalizeFontFamily (toLowerCase fontFamily) = normalizeFontFamily fontFamily) /\
  (first_match fontFamilyPatterns (trim (remove_quotes fontFamily)) = None ->
   normalizeFontFamily (toLowerCase fontFamily)
   = toLowerCase (normalizeFontFamily fontFamily)) /\
  (forall pattern norm, In (pattern, norm) fontFamilyPatterns ->
                        normalizeFontFamily pattern = norm) /\
  normalizeFontFamily (normalizeFontFamily "Helvetica") <> normalizeFontFamily "Helvetica".
Proof.
  assert (H : first_match fontFamilyPatterns (trim (remove_quotes (toLowerCase fontFamily)))
              = first_match fontFamilyPatterns (trim (remove_quotes fontFamily))).
  { now rewrite remove_quotes_lower, trim_lower, first_match_lower. }
  split; [exact H|]. split; [|split; [|split]].
  - intros Hm. unfold normalizeFontFamily. rewrite H.
    destruct (first_match fontFamilyPatterns (trim (remove_quotes fontFamily)));
      [reflexivity | contradiction].
  - intros Hn. unfold normalizeFontFamily. rewrite H, Hn.
    now rewrite remove_quotes_lower, trim_lower.
  - intros pattern norm Hin. simpl in Hin.
    repeat (destruct Hin as [Hin|Hin]; [inversion Hin; subst; vm_compute; reflexivity|]).
    contradiction.
  - vm_compute. discriminate.
Qed.

(** ** Component examples *)

Lemma length_append (a b : string) :
  String.length (a +++ b) = String.length a + String.length b.
Proof. induction a as [|c a IH]; simpl; [reflexivity | now rewrite IH]. Qed.

Lemma length_substring_le (n m : nat) (s : string) :
  String.length (String.substring n m s) <= m.
Proof.
  revert n m. induction s as [|c s IH]; intros n m.
  - destruct n, m; simpl; lia.
  - destruct n as [|n].
    + destruct m as [|m]; simpl; [lia|]. specialize (IH 0 m). lia.
    + simpl. apply IH.
Qed.

Lemma all_chars_rev_string (p : ascii -> bool) (acc s : string) :
  all_chars p acc = true -> all_chars p s = true -> all_chars p (rev_string acc s) = true.
Proof.
  revert acc. induction s as [|c s IH]; intros acc Ha Hs; simpl; [assumption|].
  simpl in Hs. apply andb_true_iff in Hs. destruct Hs as [Hc Hs].
  apply IH; [simpl; now rewrite Hc | assumption].
Qed.

(** The pieces of a split hold no white space. *)
Lemma split_ws_aux_pieces (in_run : bool) (cur s : string) (piece : string) :
  all_chars (fun c => negb (is_space c)) cur = true ->
  In piece (split_ws_aux in_run cur s) ->
  all_chars (fun c => negb (is_space c)) piece = true.
Proof.
  revert in_run cur. induction s as [|c s IH]; intros in_run cur Hcur; simpl.
  - intros [<-|[]]. rewrite all_chars_rev. assumption.
  - destruct (is_space c) eqn:Ec.
    + destruct in_run.
      * apply IH. reflexivity.
      * intros [<-|H]; [rewrite all_chars_rev; assumption | revert H; now apply IH].
    + apply IH. simpl. now rewrite Ec.
Qed.

Lemma class_list_names (s name : string) :
  In name (class_list s) ->
  name <> "" /\ all_chars (fun c => negb (is_space c)) name = true.
Proof.
  unfold class_list, split_ws. intros H. apply filter_In in H. destruct H as [Hin Hne].
  split; [intros ->; discriminate|].
  now apply (split_ws_aux_pieces false "" s).
Qed.

(** X7. For every component type the analysis reports the number of
    elements its selector selects and examples of the first 3 of them (none
    exactly when nothing is selected); the text of an example has at most
    53 characters, and its class names are non-empty and free of white
    space. *)
Theorem component_examples_bounded (doc : Cheerio) (name : string) (c : Component) :
  In (name, c) (extractComponents doc) ->
  exists selector,
    In (name, selector) componentSelectors /\
    comp_count c = List.length (query doc selector) /\
    comp_examples c = map component_example (firstn 3 (query doc selector)) /\
    List.length (comp_examples c) = Nat.min 3 (comp_count c) /\
    (forall ex, In ex (comp_examples c) ->
       String.length (ex_text ex) <= 53 /\
       forall cl, In cl (ex_classes ex) ->
                  cl <> "" /\ all_chars (fun x => negb (is_space x)) cl = true).
Proof.
  unfold extractComponents. intros H. apply in_map_iff in H.
  destruct H as [[n sel] [E Hin]]. simpl in E. inversion E; subst name c. clear E.
  exists sel. split; [assumption|]. cbn [comp_count comp_examples].
  assert (Hex : (if 0 <? List.length (query doc sel)
                 then extractComponentExamples (query doc sel) else [])
                = map component_example (firstn 3 (query doc sel))).
  { unfold extractComponentExamples. now destruct (query doc sel). }
  rewrite Hex. split; [reflexivity|]. split; [reflexivity|]. split.
  - now rewrite length_map, length_firstn.
  - intros ex Hin'. apply in_map_iff in Hin'. destruct Hin' as [el [<- _]].
    unfold component_example. cbn [ex_text ex_classes]. split.
    + rewrite length_append.
      pose proof (length_substring_le 0 50 (trim (el_text el))).
      destruct (50 <? String.length (el_text el)); simpl; lia.
    + intros cl. apply class_list_names.
Qed.

(** ** Layout patterns *)

Lemma insert_elem_ids (el : Elem) (l : list Elem) (x : nat) :
  In x (map el_id (insert_elem el l)) <-> x = el_id el \/ In x (map el_id l).
Proof.
  induction l as [|y l IH]; simpl.
  - split; [intros [H|[]]; now left | intros [H|[]]; now left].
  - destruct (Nat.eqb_spec (el_id el) (el_id y)) as [E|E]; simpl.
    + rewrite E. intuition congruence.
    + destruct (el_id el <? el_id y); simpl; [intuition congruence|].
      rewrite IH. intuition congruence.
Qed.

Lemma add_elems_ids (elements more : list Elem) (x : nat) :
  In x (map el_id (add_elems elements more))
  <-> In x (map el_id elements) \/ In x (map el_id more).
Proof.
  unfold add_elems. revert elements. induction more as [|el more IH]; intros elements; simpl.
  - tauto.
  - rewrite IH, insert_elem_ids. intuition congruence.
Qed.

Lemma union_ids (doc : Cheerio) (selectors : list Selector) (acc : list Elem) (x : nat) :
  In x (map el_id (fold_left (fun acc selector => add_elems acc (query doc selector))
                             selectors acc))
  <-> In x (map el_id acc) \/ In x (selected_ids doc selectors).
Proof.
  revert acc. induction selectors as [|sel selectors IH]; intros acc; simpl.
  - tauto.
  - rewrite IH, add_elems_ids, in_app_iff. tauto.
Qed.

Lemma set_add_ids (s : list Elem) (el : Elem) :
  NoDup (map el_id s) ->
  NoDup (map el_id (set_add s el)) /\
  forall x, In x (map el_id (set_add s el)) <-> x = el_id el \/ In x (map el_id s).
Proof.
  intros Hnd. unfold set_add.
  destruct (existsb (fun x => el_id x =? el_id el) s) eqn:E.
  - split; [assumption|]. intros x. split; [tauto|].
    intros [->|H]; [|assumption].
    apply existsb_exists in E. destruct E as [y [Hy Ey]].
    apply Nat.eqb_eq in Ey. rewrite <- Ey. now apply in_map.
  - rewrite map_app. simpl. split.
    + apply NoDup_app_last; [assumption|].
      intros H. apply in_map_iff in H. destruct H as [y [Ey Hy]].
      assert (existsb (fun x => el_id x =? el_id el) s = true).
      { apply existsb_exists. exists y. split; [assumption | now apply Nat.eqb_eq]. }
      congruence.
    + intros x. rewrite in_app_iff. simpl. intuition congruence.
Qed.

Lemma unique_ids (elements s : list Elem) :
  NoDup (map el_id s) ->
  NoDup (map el_id (fold_left set_add elements s)) /\
  forall x, In x (map el_id (fold_left set_add elements s))
            <-> In x (map el_id s) \/ In x (map el_id elements).
Proof.
  revert s. induction elements as [|el elements IH]; intros s Hnd; simpl.
  - split; [assumption | intros x; tauto].
  - destruct (set_add_ids s el Hnd) as [Hnd' Hin'].
    destruct (IH (set_add s el) Hnd') as [H1 H2].
    split; [assumption|]. intros x. rewrite H2, Hin'. intuition congruence.
Qed.

(** X8. A layout pattern counts elements, not matches: its count is the
    number of distinct elements selected by any of its selectors, however
    many of the selectors an element matches, and it shows the first 3 of
    them at most. *)
Theorem pattern_counts_each_element_once (doc : Cheerio) (name : string)
  (p : LayoutPattern) :
  In (name, p) (patterns (analyzeLayout doc)) ->
  In (name, p_selectors p) layoutPatterns /\
  p_count p = List.length (nodup Nat.eq_dec (selected_ids doc (p_selectors p))) /\
  p_count p <= List.length (selected_ids doc (p_selectors p)) /\
  List.length (p_examples p) = Nat.min 3 (p_count p).
Proof.
  cbn [patterns analyzeLayout]. intros H. apply in_map_iff in H.
  destruct H as [[n sels] [E Hin]]. simpl in E. inversion E; subst name p. clear E.
  cbn [p_selectors p_count p_examples detect_pattern].
  split; [assumption|].
  set (elements := fold_left (fun acc selector => add_elems acc (query doc selector)) sels []).
  destruct (unique_ids elements [] (NoDup_nil _)) as [Hnd Hids].
  assert (Hperm : Permutation (map el_id (fold_left set_add elements []))
                              (nodup Nat.eq_dec (selected_ids doc sels))).
  { apply NoDup_Permutation; [assumption | apply NoDup_nodup|].
    intros x. rewrite Hids, nodup_In. unfold elements. rewrite union_ids. simpl. tauto. }
  assert (Hlen : List.length (fold_left set_add elements [])
                 = List.length (nodup Nat.eq_dec (selected_ids doc sels))).
  { rewrite <- (length_map el_id). now apply Permutation_length. }
  split; [exact Hlen|]. split.
  - rewrite Hlen. apply NoDup_incl_length; [apply NoDup_nodup|].
    intros x Hx. now apply nodup_In in Hx.
  - destruct (fold_left set_add elements []) as [|e l] eqn:El; [reflexivity|].
    cbn [Nat.ltb Nat.leb List.length]. now rewrite length_map, length_firstn.
Qed.

(** ** Framework detection in matched selectors *)

Lemma confidence_by_count (total matched matched' : nat) :
  In total [6; 7; 8] -> matched <= matched' -> matched' <= total ->
  (confidence_of matched total <= confidence_of matched' total)%Z /\
  ((30 <? confidence_of matched total)%Z = ((if total =? 6 then 2 else 3) <=? matched)) /\
  (confidence_of matched total = 0%Z <-> matched = 0) /\
  (confidence_of matched total = 100%Z <-> matched = total).
Proof.
  intros Ht Hm Hm'.
  assert (Hb : ((confidence_of matched total <=? confidence_of matched' total)%Z
                && Bool.eqb (30 <? confidence_of matched total)%Z
                            ((if total =? 6 then 2 else 3) <=? matched)
                && Bool.eqb (confidence_of matched total =? 0)%Z (matched =? 0)
                && Bool.eqb (confidence_of matched total =? 100)%Z (matched =? total))
               = true).
  { destruct Ht as [<-|[<-|[<-|[]]]];
      do 9 (destruct matched as [|matched];
            [do 9 (destruct matched' as [|matched'];
                   [first [exfalso; lia | vm_compute; reflexivity]|]); exfalso; lia|]);
      exfalso; lia. }
  apply andb_true_iff in Hb. destruct Hb as [Hb H4].
  apply andb_true_iff in Hb. destruct Hb as [Hb H3].
  apply andb_true_iff in Hb. destruct Hb as [H1 H2].
  apply Z.leb_le in H1. apply eqb_prop in H2, H3, H4.
  split; [assumption|]. split; [assumption|]. split.
  - rewrite <- Z.eqb_eq, H3. apply Nat.eqb_eq.
  - rewrite <- Z.eqb_eq, H4. apply Nat.eqb_eq.
Qed.

Lemma framework_entry (doc : Cheerio) (name : string) (fw : Framework) :
  In (name, fw) (frameworks (analyzeLayout doc)) ->
  exists sels, In (name, sels) cssFrameworks /\ fw = detect_framework doc name sels /\
               In (List.length sels) [6; 7; 8].
Proof.
  cbn [frameworks analyzeLayout]. intros H. apply in_map_iff in H.
  destruct H as [[n sels] [E Hin]]. simpl in E. inversion E; subst. clear E.
  exists sels. split; [assumption|]. split; [reflexivity|].
  simpl in Hin.
  destruct Hin as [H|[H|[H|[H|[H|[]]]]]]; inversion H; subst; simpl; tauto.
Qed.

(** X9. A framework is detected exactly when at least 3 selectors of its
    checklist match (2 for Foundation, whose checklist has 6 selectors);
    the confidence is 0 exactly when none matches, 100 exactly when all
    match, and never decreases when more selectors match. *)
Theorem detection_needs_three_matches (doc : Cheerio) (name : string) (fw : Framework) :
  In (name, fw) (frameworks (analyzeLayout doc)) ->
  let matched := matchCount doc (selectors fw) in
  let total := List.length (selectors fw) in
  (detected fw = true <-> (if total =? 6 then 2 else 3) <= matched) /\
  (total = 6 <-> name = "foundation") /\
  (confidence fw = 0%Z <-> matched = 0) /\
  (confidence fw = 100%Z <-> matched = total) /\
  (forall fewer, fewer <= matched ->
                 (confidence_of fewer total <= confidence fw)%Z).
Proof.
  intros Hin. destruct (framework_entry doc name fw Hin) as [sels [Hsel [-> Ht]]].
  cbv zeta. cbn [selectors detected confidence detect_framework].
  set (matched := matchCount doc sels). set (total := List.length sels).
  pose proof (matchCount_le doc sels) as Hle. fold matched total in Hle.
  destruct (confidence_by_count total matched matched Ht (Nat.le_refl _) Hle)
    as [_ [Hd [H0 H100]]].
  split; [|split; [|split; [|split]]].
  - rewrite Hd. apply Nat.leb_le.
  - unfold total. simpl in Hsel.
    destruct Hsel as [H|[H|[H|[H|[H|[]]]]]]; inversion H; subst; simpl;
      split; intros E; (reflexivity || discriminate).
  - exact H0.
  - exact H100.
  - intros fewer Hf.
    exact (proj1 (confidence_by_count total fewer matched Ht Hf Hle)).
Qed.

(** ** The version of a framework *)

Lemma versionComment_nil (doc : Cheerio) (frameworkName : string) :
  versionComment doc frameworkName = [].
Proof.
  unfold versionComment. induction (query doc (one [Any; ContainsText "v"])) as [|x l IH];
    [reflexivity | exact IH].
Qed.

Lemma link_version_spec (frameworkName : string) (version : option string) (el : Elem) :
  link_version frameworkName version el
  = match names_version frameworkName el with Some v => Some v | None => version end.
Proof.
  unfold link_version, names_version.
  destruct (includes _ frameworkName); [|reflexivity].
  now destruct (match_version _).
Qed.

Lemma link_loop_none (frameworkName : string) (links : list Elem) (version : option string) :
  (forall el, In el links -> names_version frameworkName el = None) ->
  fold_left (link_version frameworkName) links version = version.
Proof.
  revert version. induction links as [|el links IH]; intros version H; simpl; [reflexivity|].
  rewrite link_version_spec, (H el) by now left.
  apply IH. intros x Hx. apply H. now right.
Qed.

(** X10. The version of a framework comes from the stylesheet links
    alone: it is the version in the address of the last link that names the
    framework with a version, and there is none when no link does. *)
Theorem version_of_last_link (doc : Cheerio) (frameworkName : string)
  (sels : list Selector) :
  ((forall el, In el (query doc stylesheetLinks) ->
               names_version frameworkName el = None) ->
   version (detect_framework doc frameworkName sels) = None) /\
  (forall before el after v,
      query doc stylesheetLinks = before ++ el :: after ->
      names_version frameworkName el = Some v ->
      (forall x, In x after -> names_version frameworkName x = None) ->
      version (detect_framework doc frameworkName sels) = Some v).
Proof.
  cbn [version detect_framework]. rewrite versionComment_nil. simpl.
  split.
  - intros H. now apply link_loop_none.
  - intros before el after v Hq Hel Hafter.
    rewrite Hq, fold_left_app. simpl.
    rewrite link_version_spec, Hel. now apply link_loop_none.
Qed.

(** ** The best framework of an analysis and the vote *)

Lemma best_from (fws : list (string * Framework)) (b : Z) (o : option (string * Framework)) :
  forall r,
  r = fold_left
        (fun (st : Z * option (string * Framework)) (nf : string * Framework) =>
           if (fst st <? confidence (snd nf))%Z
           then (confidence (snd nf), Some nf) else st) fws (b, o) ->
  (r = (b, o) /\ forall x, In x fws -> (confidence (snd x) <= b)%Z) \/
  (exists l1 nf l2,
      fws = l1 ++ nf :: l2 /\ r = (confidence (snd nf), Some nf) /\
      (b < confidence (snd nf))%Z /\
      (forall x, In x l1 -> (confidence (snd x) < confidence (snd nf))%Z) /\
      (forall x, In x l2 -> (confidence (snd x) <= confidence (snd nf))%Z)).
Proof.
  revert b o. induction fws as [|y fws IH]; intros b o r Hr.
  - left. split; [exact Hr | intros x []].
  - cbn [fold_left fst snd] in Hr.
    destruct (Z.ltb_spec b (confidence (snd y))) as [Hlt|Hge].
    + destruct (IH _ _ r Hr) as [[Hr' Hall]|[l1 [nf [l2 [E [Hr' [Hb [H1 H2]]]]]]]].
      * right. exists [], y, fws.
        split; [reflexivity|]. split; [assumption|]. split; [assumption|].
        split; [intros x []|]. assumption.
      * right. exists (y :: l1), nf, l2. rewrite E.
        split; [reflexivity|]. split; [assumption|]. split; [lia|].
        split; [|assumption]. intros x [<-|Hx]; [assumption | now apply H1].
    + destruct (IH _ _ r Hr) as [[Hr' Hall]|[l1 [nf [l2 [E [Hr' [Hb [H1 H2]]]]]]]].
      * left. split; [assumption|].
        intros x [<-|Hx]; [assumption | now apply Hall].
      * right. exists (y :: l1), nf, l2. rewrite E.
        split; [reflexivity|]. split; [assumption|]. split; [assumption|].
        split; [|assumption]. intros x [<-|Hx]; [lia | now apply H1].
Qed.

(** X11. Of the frameworks of one analysis the best one is the first of
    those with the highest confidence, and there is one exactly when some
    confidence is above 0. *)
Theorem best_framework_is_first_maximum (fws : list (string * Framework)) :
  (best_framework fws = None <-> forall x, In x fws -> (confidence (snd x) <= 0)%Z) /\
  (forall nf, best_framework fws = Some nf ->
     exists l1 l2,
       fws = l1 ++ nf :: l2 /\ (0 < confidence (snd nf))%Z /\
       (forall x, In x l1 -> (confidence (snd x) < confidence (snd nf))%Z) /\
       (forall x, In x l2 -> (confidence (snd x) <= confidence (snd nf))%Z)).
Proof.
  unfold best_framework.
  destruct (best_from fws 0%Z None _ eq_refl) as [[Hr Hall]|[l1 [nf [l2 [E [Hr [Hb [H1 H2]]]]]]]];
    rewrite Hr; cbn [snd].
  - split; [tauto | discriminate].
  - split.
    + split; [discriminate|]. intros Hall. exfalso.
      assert (confidence (snd nf) <= 0)%Z by (apply Hall; rewrite E; apply in_elt). lia.
    + intros nf' Hnf. inversion Hnf; subst nf'. exists l1, l2. tauto.
Qed.

Lemma matchCount_cons (doc : Cheerio) (s : Selector) (sels : list Selector) :
  matchCount doc (s :: sels)
  = (if 0 <? List.length (query doc s) then 1 else 0) + matchCount doc sels.
Proof.
  unfold matchCount. cbn [filter].
  destruct (0 <? List.length (query doc s)); reflexivity.
Qed.

(** Bootstrap against Materialize, whose checklist is Bootstrap's without
    alert and badge, with sidenav. *)
Lemma shared_checklist (doc : Cheerio) :
  query doc (one [Class "alert"]) = [] -> query doc (one [Class "badge"]) = [] ->
  let fb := detect_framework doc "bootstrap"
              (classes_of ["container"; "row"; "col"; "navbar"; "card"; "btn"; "alert"; "badge"]) in
  let fm := detect_framework doc "materialize"
              (classes_of ["container"; "row"; "col"; "card"; "btn"; "navbar"; "sidenav"]) in
  (confidence fb <= 75)%Z /\
  ((0 < confidence fb)%Z -> (confidence fb < confidence fm)%Z).
Proof.
  intros Ha Hb. cbv zeta. cbn [confidence detect_framework].
  unfold classes_of. cbn [map List.length].
  rewrite !matchCount_cons. change (matchCount doc []) with 0.
  rewrite Ha, Hb.
  generalize (0 <? List.length (query doc (one [Class "container"]))).
  generalize (0 <? List.length (query doc (one [Class "row"]))).
  generalize (0 <? List.length (query doc (one [Class "col"]))).
  generalize (0 <? List.length (query doc (one [Class "navbar"]))).
  generalize (0 <? List.length (query doc (one [Class "card"]))).
  generalize (0 <? List.length (query doc (one [Class "btn"]))).
  generalize (0 <? List.length (query doc (one [Class "sidenav"]))).
  intros [] [] [] [] [] [] []; vm_compute; split; intros; congruence.
Qed.

(** X12. A page on which neither [.alert] nor [.badge] selects an element
    never has Bootstrap as its best framework: Materialize, whose checklist
    shares the other six selectors, has a higher confidence whenever
    Bootstrap's is above 0, and Bootstrap's is at most 75. *)
Theorem bootstrap_needs_alert_or_badge (doc : Cheerio) :
  query doc (one [Class "alert"]) = [] -> query doc (one [Class "badge"]) = [] ->
  (forall fb, In ("bootstrap", fb) (frameworks (analyzeLayout doc)) ->
              (confidence fb <= 75)%Z) /\
  (forall nf, best_framework (frameworks (analyzeLayout doc)) = Some nf ->
              fst nf <> "bootstrap").
Proof.
  intros Ha Hb. destruct (shared_checklist doc Ha Hb) as [H75 Hlt]. cbv zeta in H75, Hlt.
  split.
  - intros fb Hin. cbn [frameworks analyzeLayout] in Hin. unfold cssFrameworks in Hin.
    cbn [map fst snd] in Hin.
    destruct Hin as [H|[H|[H|[H|[H|[]]]]]]; inversion H; subst. exact H75.
  - intros nf Hbest Hname.
    unfold best_framework in Hbest.
    destruct (best_from (frameworks (analyzeLayout doc)) 0%Z None _ eq_refl)
      as [[Hr _]|[l1 [nf' [l2 [E [Hr [Hpos [_ Hafter]]]]]]]];
      rewrite Hr in Hbest; cbn [snd] in Hbest; [discriminate|].
    inversion Hbest; subst nf'. clear Hbest Hr.
    cbn [frameworks analyzeLayout] in E. unfold cssFrameworks in E. cbn [map fst snd] in E.
    destruct l1 as [|x1 l1].
    + cbn [app] in E. inversion E as [[Hnf Hl2]]. subst nf.
      cbn [snd] in Hpos, Hafter.
      specialize (Hlt Hpos).
      assert (Hm : (confidence (detect_framework doc "materialize"
                      (classes_of ["container"; "row"; "col"; "card"; "btn"; "navbar"; "sidenav"]))
                    <= confidence (detect_framework doc "bootstrap"
                      (classes_of ["container"; "row"; "col"; "navbar"; "card"; "btn"; "alert"; "badge"])))%Z).
      { apply (Hafter ("materialize", _)). rewrite <- Hl2. simpl. tauto. }
      lia.
    + exfalso.
      do 4 (destruct l1 as [|? l1];
            [cbn [app] in E; inversion E; subst; discriminate Hname|]).
      cbn [app] in E. inversion E. destruct l1; discriminate.
Qed.

(** ** The recommended framework *)

Lemma most_from (m : JsMap) (b : nat) (o : option string) :
  forall r,
  r = fold_left
        (fun (st : nat * option string) (nc : string * nat) =>
           if fst st <? snd nc then (snd nc, Some (fst nc)) else st) m (b, o) ->
  (r = (b, o) /\ forall x, In x m -> snd x <= b) \/
  (exists l1 nc l2,
      m = l1 ++ nc :: l2 /\ r = (snd nc, Some (fst nc)) /\ b < snd nc /\
      (forall x, In x l1 -> snd x < snd nc) /\
      (forall x, In x l2 -> snd x <= snd nc)).
Proof.
  revert b o. induction m as [|y m IH]; intros b o r Hr.
  - left. split; [exact Hr | intros x []].
  - cbn [fold_left fst snd] in Hr.
    destruct (Nat.ltb_spec b (snd y)) as [Hlt|Hge].
    + destruct (IH _ _ r Hr) as [[Hr' Hall]|[l1 [nc [l2 [E [Hr' [Hb [H1 H2]]]]]]]].
      * right. exists [], y, m.
        split; [reflexivity|]. split; [assumption|]. split; [assumption|].
        split; [intros x []|]. assumption.
      * right. exists (y :: l1), nc, l2. rewrite E.
        split; [reflexivity|]. split; [assumption|]. split; [lia|].
        split; [|assumption]. intros x [<-|Hx]; [assumption | now apply H1].
    + destruct (IH _ _ r Hr) as [[Hr' Hall]|[l1 [nc [l2 [E [Hr' [Hb [H1 H2]]]]]]]].
      * left. split; [assumption|].
        intros x [<-|Hx]; [assumption | now apply Hall].
      * right. exists (y :: l1), nc, l2. rewrite E.
        split; [reflexivity|]. split; [assumption|]. split; [assumption|].
        split; [|assumption]. intros x [<-|Hx]; [lia | now apply H1].
Qed.

Lemma fold_bump_fst {A} (l : list (string * A)) (m : JsMap) :
  fold_left (fun m (x : string * A) => bump 1 (fst x) m) l m
  = fold_left (fun m item => bump 1 item m) (map fst l) m.
Proof. revert m. induction l as [|x l IH]; intros m; simpl; [reflexivity | apply IH]. Qed.

Lemma keys_fold_bump (items : list string) (m : JsMap) :
  exists rest, keys (fold_left (fun m item => bump 1 item m) items m) = keys m ++ rest.
Proof.
  revert m. induction items as [|x items IH]; intros m; simpl.
  - exists []. now rewrite app_nil_r.
  - destruct (IH (bump 1 x m)) as [rest Hr]. rewrite Hr. unfold bump. rewrite keys_map_set.
    destruct (string_in x (keys m)).
    + now exists rest.
    + exists ([x] ++ rest). now rewrite app_assoc.
Qed.

Lemma first_occurrence (k : string) (l : list string) :
  In k l -> exists l1 l2, l = l1 ++ k :: l2 /\ ~ In k l1.
Proof.
  induction l as [|x l IH]; intros Hin; [contradiction|].
  destruct (string_dec x k) as [->|Hne].
  - exists [], l. split; [reflexivity | intros []].
  - destruct Hin as [E|Hin]; [contradiction|].
    destruct (IH Hin) as [l1 [l2 [E Hn]]]. exists (x :: l1), l2. subst l.
    split; [reflexivity|]. intros [H|H]; [contradiction | now apply Hn].
Qed.

Lemma split_at_unique (k : string) (a b a' b' : list string) :
  a ++ k :: b = a' ++ k :: b' -> ~ In k a -> ~ In k a' -> a = a'.
Proof.
  revert a'. induction a as [|x a IH]; intros a' E Ha Ha'.
  - destruct a' as [|x' a']; [reflexivity|].
    simpl in E. inversion E; subst. exfalso. apply Ha'. now left.
  - destruct a' as [|x' a'].
    + simpl in E. inversion E; subst. exfalso. apply Ha. now left.
    + simpl in E. inversion E; subst. f_equal.
      apply (IH a'); [assumption | |]; intros H; [apply Ha | apply Ha']; now right.
Qed.

(** The keys of the recount stand in the order of first occurrence. *)
Lemma tally_order (items before after : list string) (k : string) :
  items = before ++ k :: after -> ~ In k before ->
  exists rest, keys (tally items) = keys (tally before) ++ k :: rest.
Proof.
  intros -> Hn. unfold tally. rewrite fold_left_app. cbn [fold_left].
  fold (tally before).
  destruct (keys_fold_bump after (bump 1 k (tally before))) as [rest Hr].
  rewrite Hr. unfold bump. rewrite keys_map_set.
  destruct (string_in k (keys (tally before))) eqn:E.
  - apply string_in_In in E. apply (proj2 (tally_keys before)) in E. contradiction.
  - exists rest. now rewrite <- app_assoc.
Qed.

(** X13. The recommended framework is one that is the best framework of
    the most analyses; of several with the most votes it is the one whose
    first vote comes first in the batch; there is none exactly when no
    analysis has a best framework. *)
Theorem recommended_has_most_votes (analyses : list SiteAnalysis) :
  let bests := map fst (somes (map (fun a => best_framework (frameworks (layout a)))
                                   analyses)) in
  (recommended analyses = None <-> bests = []) /\
  (forall name, recommended analyses = Some name ->
     0 < votes name analyses /\
     (forall other, votes other analyses <= votes name analyses) /\
     exists before after,
       bests = before ++ name :: after /\ ~ In name before /\
       forall other, In other before -> votes other analyses < votes name analyses).
Proof.
  intros bests. unfold recommended. cbv zeta. rewrite fold_bump_fst.
  fold bests. fold (tally bests).
  assert (Hvotes : forall k, votes k analyses = get_or_0 k (tally bests)).
  { intros k. unfold votes. fold bests. now rewrite tally_count. }
  destruct (tally_keys bests) as [Hnd Hkeys].
  assert (Hval : forall e, In e (tally bests) -> snd e = votes (fst e) analyses).
  { intros [k v] He. rewrite Hvotes. symmetry. now apply entry_value. }
  assert (Hpos : forall e, In e (tally bests) -> 1 <= snd e).
  { intros e He. rewrite (Hval e He). unfold votes. fold bests.
    apply count_occ_In. apply Hkeys. unfold keys. now apply in_map. }
  assert (Hzero : forall k, ~ In k bests -> votes k analyses = 0).
  { intros k Hk. unfold votes. fold bests. now apply count_occ_not_In. }
  destruct (most_from (tally bests) 0 None _ eq_refl)
    as [[Hr Hall]|[l1 [nc [l2 [E [Hr [Hb [H1 H2]]]]]]]];
    rewrite Hr; cbn [snd].
  - split; [|discriminate]. split; [|reflexivity]. intros _.
    destruct bests as [|b bests'] eqn:Eb; [reflexivity|]. exfalso.
    assert (Hin : In b (keys (tally (b :: bests')))) by (apply Hkeys; now left).
    unfold keys in Hin. apply in_map_iff in Hin. destruct Hin as [e [_ He]].
    specialize (Hall e He). specialize (Hpos e He). lia.
  - assert (Hnc : In nc (tally bests)) by (rewrite E; apply in_elt).
    split.
    + split; [discriminate|]. intros Hb0. rewrite Hb0 in E.
      destruct l1; discriminate.
    + intros name Hname. inversion Hname; subst name. clear Hname.
      rewrite <- (Hval nc Hnc). split; [assumption|]. split.
      * intros other. destruct (in_dec string_dec other bests) as [Hin|Hout].
        -- apply Hkeys in Hin. unfold keys in Hin. apply in_map_iff in Hin.
           destruct Hin as [e [<- He]]. rewrite <- (Hval e He).
           rewrite E in He. apply in_app_or in He.
           destruct He as [He|[<-|He]]; [apply H1 in He; lia | lia | now apply H2].
        -- rewrite (Hzero other Hout). lia.
      * assert (Hk : In (fst nc) bests).
        { apply Hkeys. unfold keys. now apply in_map. }
        destruct (first_occurrence (fst nc) bests Hk) as [before [after [Eb Hn]]].
        exists before, after. split; [assumption|]. split; [assumption|].
        intros other Ho.
        destruct (tally_order bests before after (fst nc) Eb Hn) as [rest Hrest].
        assert (Hkl : keys (tally bests) = keys l1 ++ fst nc :: keys l2).
        { rewrite E. unfold keys. now rewrite map_app. }
        assert (Hl1 : keys (tally before) = keys l1).
        { apply (split_at_unique (fst nc) _ rest _ (keys l2)).
          - now rewrite <- Hrest, <- Hkl.
          - intros H. apply (proj2 (tally_keys before)) in H. contradiction.
          - rewrite Hkl in Hnd. apply NoDup_remove_2 in Hnd.
            intros H. apply Hnd. apply in_or_app. now left. }
        assert (Hin : In other (keys l1)).
        { rewrite <- Hl1. now apply (proj2 (tally_keys before)). }
        unfold keys in Hin. apply in_map_iff in Hin. destruct Hin as [e [<- He]].
        rewrite <- (Hval e) by (rewrite E; apply in_or_app; now left).
        now apply H1.
Qed.

(** ** The recount of ranked tokens *)

Lemma get_or_0_set_same (k : string) (v : nat) (m : JsMap) :
  get_or_0 k (map_set k v m) = v.
Proof. unfold get_or_0. now rewrite map_get_set_same. Qed.

Lemma get_or_0_set_other (k k' : string) (v : nat) (m : JsMap) :
  k <> k' -> get_or_0 k' (map_set k v m) = get_or_0 k' m.
Proof. intros H. unfold get_or_0. now rewrite map_get_set_other. Qed.

Lemma get_or_0_absent (k : string) (m : JsMap) : ~ In k (keys m) -> get_or_0 k m = 0.
Proof. intros H. unfold get_or_0. apply map_get_keys in H. now rewrite H. Qed.

Lemma frequency_weight (items : list RawToken) (m : JsMap) (v : string) :
  let m' := fold_left bump_token items m in
  get_or_0 v m + weight v items <= get_or_0 v m' /\
  get_or_0 v m' <= get_or_0 v m + weight v items + (if get_or_0 v m =? 0 then 1 else 0) /\
  (Forall (fun item => 1 <= count item) items ->
   get_or_0 v m' = get_or_0 v m + weight v items).
Proof.
  cbv zeta. revert m. induction items as [|x items IH]; intros m; cbn [fold_left weight].
  - split; [lia|]. split; [destruct (_ =? 0); lia | intros _; lia].
  - destruct (IH (bump_token m x)) as [Hlo [Hhi Hex]].
    unfold bump_token in Hlo, Hhi, Hex |- *.
    destruct (String.eqb_spec (value x) v) as [E|Hne].
    + rewrite E in *. rewrite get_or_0_set_same in Hlo, Hhi, Hex.
      destruct (Nat.eqb_spec (get_or_0 v m + count x) 0) as [Hz|Hnz].
      * assert (get_or_0 v m = 0) by lia. assert (count x = 0) by lia.
        replace (get_or_0 v m =? 0) with true by (symmetry; now apply Nat.eqb_eq).
        cbn [Nat.eqb] in Hhi.
        split; [lia|]. split; [lia|].
        intros Hall. inversion Hall; subst. lia.
      * destruct (Nat.eqb_spec (get_or_0 v m + count x) 0) as [?|_]; [contradiction|].
        split; [lia|]. split; [destruct (get_or_0 v m =? 0); lia|].
        intros Hall. inversion Hall; subst. rewrite Hex by assumption. lia.
    + rewrite get_or_0_set_other in Hlo, Hhi, Hex by assumption.
      split; [lia|]. split; [lia|].
      intros Hall. inversion Hall; subst. rewrite Hex by assumption. lia.
Qed.

Lemma frequency_keys (items : list RawToken) (m : JsMap) :
  NoDup (keys m) ->
  NoDup (keys (fold_left bump_token items m)) /\
  (forall k, In k (keys (fold_left bump_token items m))
             <-> In k (keys m) \/ In k (map value items)).
Proof.
  revert m. induction items as [|x items IH]; intros m Hnd; cbn [fold_left map].
  - split; [assumption | intros k; simpl; tauto].
  - destruct (IH (bump_token m x)) as [H1 H2].
    { unfold bump_token. now apply NoDup_keys_map_set. }
    split; [assumption|].
    intros k. rewrite H2. unfold bump_token. rewrite keys_map_set.
    destruct (string_in (value x) (keys m)) eqn:E.
    + apply string_in_In in E. split; [simpl; tauto|].
      intros [H|[<-|H]]; simpl; tauto.
    + rewrite in_app_iff. simpl. tauto.
Qed.

Lemma frequency_positive (items : list RawToken) (m : JsMap) :
  Forall (fun e => 1 <= snd e) m ->
  Forall (fun e => 1 <= snd e) (fold_left bump_token items m).
Proof.
  revert m. induction items as [|x items IH]; intros m Hm; cbn [fold_left]; [assumption|].
  apply IH. unfold bump_token.
  generalize (get_or_0 (value x) m + count x). intros s.
  assert (Hv : 1 <= (if s =? 0 then 1 else s)) by (destruct (Nat.eqb_spec s 0); lia).
  revert Hv. generalize (if s =? 0 then 1 else s). intros n Hn.
  induction m as [|[k' v'] m IHm]; simpl.
  - constructor; [assumption | constructor].
  - inversion Hm; subst. destruct (String.eqb (value x) k').
    + constructor; assumption.
    + constructor; [assumption | now apply IHm].
Qed.

(** X14. [selectMostCommonFromObjects] merges the tokens of equal value:
    it returns at most [count] tokens with distinct values, in descending
    order of their counts, each count at least 1; the count of a value is
    the sum of the counts of its tokens when every token has a positive
    count, and in general that sum or one more (a token with count 0 that
    opens a value counts as 1); a value left out has no higher count than
    one that is returned. *)
Theorem tokens_merge_by_value (items : list RawToken) (n : nat) :
  let r := selectMostCommonFromObjects items n in
  NoDup (map value r) /\
  List.length r = Nat.min n (List.length (nodup string_dec (map value items))) /\
  descending r /\
  (forall t, In t r ->
     In (value t) (map value items) /\ 1 <= count t /\
     weight (value t) items <= count t <= weight (value t) items + 1) /\
  (Forall (fun item => 1 <= count item) items ->
   (forall t, In t r -> count t = weight (value t) items) /\
   (forall t v, In t r -> In v (map value items) -> ~ In v (map value r) ->
                weight v items <= count t)).
Proof.
  intros r. unfold r, selectMostCommonFromObjects.
  set (F := fold_left bump_token items []).
  destruct (frequency_keys items [] (NoDup_nil _)) as [Hnd Hkeys]. fold F in Hnd, Hkeys.
  set (S := sort_desc F).
  assert (Hperm : Permutation S F) by apply sort_desc_perm.
  assert (HndS : NoDup (keys S)) by (now apply NoDup_keys_sort).
  assert (Hd : descending S) by apply sort_desc_descending.
  assert (Hget : forall e, In e S -> snd e = get_or_0 (fst e) F).
  { intros [k v] He. symmetry. apply entry_value; [assumption|].
    eapply Permutation_in; [exact Hperm | exact He]. }
  assert (Hsplit : S = firstn n S ++ skipn n S) by (symmetry; apply firstn_skipn).
  assert (Hpos : Forall (fun e => 1 <= snd e) F) by (apply frequency_positive; constructor).
  split; [|split; [|split; [|split]]].
  - unfold keys in HndS. rewrite Hsplit, map_app in HndS.
    now apply NoDup_app_remove_r in HndS.
  - rewrite length_firstn. f_equal.
    rewrite <- (length_map fst S). fold (keys S).
    apply Permutation_length. apply NoDup_Permutation.
    + assumption.
    + apply NoDup_nodup.
    + intros k. unfold S. rewrite In_keys_sort, Hkeys, nodup_In. simpl. tauto.
  - rewrite Hsplit in Hd. now apply descending_app in Hd.
  - intros t Ht. apply In_firstn in Ht.
    assert (HtF : In t F) by (eapply Permutation_in; [exact Hperm | exact Ht]).
    split; [|split].
    + destruct (Hkeys (value t)) as [H _]. destruct H as [[]|H]; [|exact H].
      unfold keys, value. now apply in_map.
    + rewrite Forall_forall in Hpos. now apply Hpos.
    + unfold count, value. rewrite (Hget t Ht).
      destruct (frequency_weight items [] (fst t)) as [Hlo [Hhi _]].
      fold F in Hlo, Hhi. change (get_or_0 (fst t) []) with 0 in Hlo, Hhi.
      cbn [Nat.eqb] in Hhi. unfold value in *. lia.
  - intros Hall.
    assert (Hw : forall e, In e S -> snd e = weight (fst e) items).
    { intros e He. rewrite (Hget e He).
      destruct (frequency_weight items [] (fst e)) as [_ [_ Hex]].
      fold F in Hex. now rewrite Hex. }
    split.
    + intros t Ht. apply In_firstn in Ht. exact (Hw t Ht).
    + intros t v Ht Hv Hout.
      assert (HvS : In v (keys S)) by (unfold S; apply In_keys_sort, Hkeys; now right).
      unfold keys in HvS. rewrite Hsplit, map_app, in_app_iff in HvS.
      destruct HvS as [HvS|HvS]; [contradiction|].
      apply in_map_iff in HvS. destruct HvS as [e [<- He]].
      rewrite <- (Hw e) by (rewrite Hsplit; apply in_or_app; now right).
      rewrite Hsplit in Hd. apply descending_app in Hd. destruct Hd as [_ Hd].
      now apply Hd.
Qed.

(** ** From the analyses to the style guide *)

Section PipelineFacts.

Context {chromajs : ChromaJs}.


Lemma In_skipn {A} (n : nat) (l : list A) (x : A) : In x (skipn n l) -> In x l.
Proof. intros H. rewrite <- (firstn_skipn n l). apply in_or_app. now right. Qed.

(** What a successful analysis was computed from. *)
Lemma analyzeWebsite_parts (w : World) (u : Value) (a : SiteAnalysis) :
  analyzeWebsite w u = Ok a ->
  exists html doc colorMap,
    axios_get w u = Ok html /\
    cheerio_load w html = Ok doc /\
    collectColors doc = Ok colorMap /\
    colors a = categorizeColors colorMap /\
    components a = extractComponents doc /\
    layout a = analyzeLayout doc /\
    url a = u /\ timestamp a = now w.
Proof.
  unfold analyzeWebsite, rethrow, extractColors, bind.
  destruct (axios_get w u) as [html|]; [|discriminate].
  destruct (cheerio_load w html) as [doc|] eqn:Ed; [|discriminate].
  destruct (collectColors doc) as [colorMap|] eqn:Ec; [|discriminate].
  destruct (extractTypography doc); [|discriminate].
  intros H. inversion H. exists html, doc, colorMap.
  cbn [colors components layout url timestamp]. repeat split; (reflexivity || assumption).
Qed.





(** X15. Every color of the synthesized palette was collected from one of
    the analysed pages: for analyses that [analyzeWebsite] returned, a
    palette color is a key of the color frequency map of one of the pages,
    hence a string that passed [isValidColor] or the symbolic reference of
    a known color name. *)
Theorem palette_colors_were_collected (analyses : list SiteAnalysis) :
  Forall (fun a => exists w u, analyzeWebsite w u = Ok a) analyses ->
  let p := colorPalette analyses in
  forall c, In c (pal_primary p ++ pal_secondary p ++ pal_accent p ++ pal_neutral p) ->
    (exists a w u html doc colorMap,
        In a analyses /\ analyzeWebsite w u = Ok a /\ axios_get w u = Ok html /\
        cheerio_load w html = Ok doc /\
        collectColors doc = Ok colorMap /\ In c (keys colorMap)) /\
    (isValidColor c = true \/ symbolic c).
Proof.
  intros Hall p c Hc.
  assert (Hpool : exists a, In a analyses /\
            (In c (all (colors a)) \/ In c (primary (colors a)) \/ In c (secondary (colors a))
             \/ In c (accent (colors a)) \/ In c (neutral (colors a)))).
  { unfold p, colorPalette in Hc. cbn [pal_primary pal_secondary pal_accent pal_neutral] in Hc.
    rewrite !pool_or_spec in Hc.
    assert (Hflat : forall f : SiteAnalysis -> list string,
               In c (flat_map f analyses) -> exists a, In a analyses /\ In c (f a)).
    { intros f H. apply in_flat_map in H. exact H. }
    assert (Hsel : forall items n, In c (selectMostCommon items n) -> In c items).
    { intros items n. apply (selectMostCommon_spec items n). }
    repeat rewrite in_app_iff in Hc.
    destruct Hc as [Hc|[Hc|[Hc|Hc]]]; apply Hsel in Hc.
    - destruct (flat_map (fun a => primary (colors a)) analyses) eqn:E.
      + destruct (Hflat _ Hc) as [a [Ha Hin]]. exists a. tauto.
      + rewrite <- E in Hc. destruct (Hflat _ Hc) as [a [Ha Hin]]. exists a. tauto.
    - destruct (flat_map (fun a => secondary (colors a)) analyses) eqn:E.
      + apply In_skipn in Hc. destruct (Hflat _ Hc) as [a [Ha Hin]]. exists a. tauto.
      + rewrite <- E in Hc. destruct (Hflat _ Hc) as [a [Ha Hin]]. exists a. tauto.
    - destruct (flat_map (fun a => accent (colors a)) analyses) eqn:E.
      + apply In_skipn in Hc. destruct (Hflat _ Hc) as [a [Ha Hin]]. exists a. tauto.
      + rewrite <- E in Hc. destruct (Hflat _ Hc) as [a [Ha Hin]]. exists a. tauto.
    - destruct (flat_map (fun a => neutral (colors a)) analyses) eqn:E.
      + apply filter_In in Hc. destruct Hc as [Hc _].
        destruct (Hflat _ Hc) as [a [Ha Hin]]. exists a. tauto.
      + rewrite <- E in Hc. destruct (Hflat _ Hc) as [a [Ha Hin]]. exists a. tauto. }
  destruct Hpool as [a [Ha Hin]].
  rewrite Forall_forall in Hall. destruct (Hall a Ha) as [w [u Hu]].
  destruct (analyzeWebsite_parts w u a Hu)
    as [html [doc [colorMap [Hget [Hload [Hmap [Hcol _]]]]]]].
  assert (Hkey : In c (keys colorMap)).
  { rewrite Hcol in Hin. destruct Hin as [Hin|Hin].
    - unfold categorizeColors in Hin. cbn [all] in Hin. unfold processColors in Hin.
      destruct (dedupe_extends (sort_desc colorMap) []) as [added [E Hincl]].
      rewrite E in Hin. simpl in Hin. apply In_keys_sort. now apply Hincl.
    - apply categories_in_sorted in Hin. apply In_sortedColors in Hin. tauto. }
  split.
  - exists a, w, u, html, doc, colorMap. tauto.
  - destruct (collectColors_kept _ _ Hmap) as [_ Hadm]. now apply Hadm.
Qed.

End PipelineFacts.

(** ** The component specifications of a batch *)

Lemma lookup_by_key {A} (f : string -> A) (types : list string) (type : string) :
  In type types -> lookup type (map (fun t => (t, f t)) types) = Some (f type).
Proof.
  induction types as [|t types IH]; intros Hin; [contradiction|].
  cbn [map lookup]. destruct (String.eqb_spec type t) as [->|Hne]; [reflexivity|].
  destruct Hin as [E|Hin]; [congruence | now apply IH].
Qed.

Lemma lookup_by_entry {A B} (g : string -> A -> B) (l : list (string * A))
  (k : string) (a : A) :
  NoDup (map fst l) -> In (k, a) l ->
  lookup k (map (fun e : string * A => (fst e, g (fst e) (snd e))) l) = Some (g k a).
Proof.
  induction l as [|[k' a'] l IH]; intros Hnd Hin; [contradiction|].
  cbn [map lookup fst snd]. inversion Hnd as [|? ? Hk Hl]; subst.
  destruct (String.eqb_spec k k') as [->|Hne].
  - destruct Hin as [E|Hin]; [now inversion E|].
    exfalso. apply Hk. change k' with (fst (k', a)). now apply in_map.
  - destruct Hin as [E|Hin]; [inversion E; congruence | now apply IH].
Qed.

Lemma componentSelectors_keys : NoDup (map fst componentSelectors).
Proof.
  assert (E : nodup string_dec (map fst componentSelectors) = map fst componentSelectors)
    by (vm_compute; reflexivity).
  rewrite <- E. apply NoDup_nodup.
Qed.

Lemma fold_add {A} (f : A -> nat) (l : list A) (n : nat) :
  fold_left (fun sum a => sum + f a) l n = n + list_sum (map f l).
Proof.
  revert n. induction l as [|a l IH]; intros n; simpl; [lia|]. rewrite IH. lia.
Qed.

Lemma length_flat_map_min {A B} (f : A -> list B) (c : A -> nat) (l : list A) :
  (forall a, List.length (f a) = Nat.min 3 (c a)) ->
  Nat.min 3 (List.length (flat_map f l)) = Nat.min 3 (list_sum (map c l)).
Proof.
  intros H. induction l as [|a l IH]; [reflexivity|].
  cbn [flat_map map]. change (list_sum (c a :: map c l)) with (c a + list_sum (map c l)).
  rewrite length_app, H. lia.
Qed.

Lemma component_of_examples (doc : Cheerio) (selector : Selector) :
  comp_examples (component_of doc selector)
  = map component_example (firstn 3 (query doc selector)) /\
  List.length (comp_examples (component_of doc selector))
  = Nat.min 3 (List.length (query doc selector)).
Proof.
  unfold component_of, extractComponentExamples. cbn [comp_examples].
  destruct (query doc selector) as [|el els]; [split; reflexivity|].
  cbn [List.length Nat.ltb Nat.leb]. split; [reflexivity|].
  now rewrite length_map, length_firstn.
Qed.

(** X16. The component specifications of a batch of analysed pages: one
    entry for each of the eight fixed types, in their order (the types
    images, icons, headers, footers and sidebars of the analyses are left
    out); the count of a type is the number of elements its selector
    selects, summed over the pages; the examples are the first 3 of the
    pages' examples in batch order, and there are min(3, count) of them. *)
Theorem component_specs_add_up (docs : list Cheerio) (analyses : list SiteAnalysis) :
  map components analyses = map extractComponents docs ->
  let specs := generateComponentSpecs analyses in
  map fst specs = componentTypes /\
  (forall type, In type ["images"; "icons"; "headers"; "footers"; "sidebars"] ->
                lookup type specs = None) /\
  (forall type selector,
      In type componentTypes -> In (type, selector) componentSelectors ->
      exists spec,
        lookup type specs = Some spec /\
        spec_count spec = list_sum (map (fun doc => List.length (query doc selector)) docs) /\
        spec_examples spec
        = firstn 3 (flat_map (fun doc => map component_example (firstn 3 (query doc selector)))
                             docs) /\
        List.length (spec_examples spec) = Nat.min 3 (spec_count spec)).
Proof.
  intros Hmap specs. split; [|split].
  - unfold specs, generateComponentSpecs. rewrite map_map. cbn [fst]. apply map_id.
  - intros type Hin. unfold specs, generateComponentSpecs, componentTypes.
    cbn [In] in Hin.
    repeat (destruct Hin as [<-|Hin]; [vm_compute; reflexivity|]). contradiction.
  - intros type selector Htype Hsel.
    assert (Hlook : forall doc, lookup type (extractComponents doc)
                                = Some (component_of doc selector)).
    { intros doc. unfold extractComponents.
      exact (lookup_by_entry (fun _ sel => component_of doc sel) componentSelectors
                             type selector componentSelectors_keys Hsel). }
    unfold specs, generateComponentSpecs.
    rewrite (lookup_by_key _ componentTypes type Htype).
    eexists. split; [reflexivity|].
    cbn [spec_count spec_examples].
    assert (Hcount : forall n,
               fold_left (fun sum analysis =>
                            sum + match lookup type (components analysis) with
                                  | Some c => comp_count c
                                  | None => 0
                                  end) analyses n
               = n + list_sum (map (fun doc => List.length (query doc selector)) docs)).
    { clear specs. revert docs Hmap.
      induction analyses as [|a analyses IH]; intros docs Hmap n;
        destruct docs as [|doc docs]; try discriminate; simpl; [lia|].
      cbn [map] in Hmap. inversion Hmap as [[Ha Hrest]].
      rewrite (IH docs Hrest), Ha, Hlook. cbn [comp_count component_of]. lia. }
    assert (Hex : flat_map (fun analysis =>
                              match lookup type (components analysis) with
                              | Some c => comp_examples c
                              | None => []
                              end) analyses
                  = flat_map (fun doc => map component_example (firstn 3 (query doc selector)))
                             docs).
    { clear specs Hcount. revert docs Hmap.
      induction analyses as [|a analyses IH]; intros docs Hmap;
        destruct docs as [|doc docs]; try discriminate; [reflexivity|].
      cbn [map] in Hmap. inversion Hmap as [[Ha Hrest]].
      cbn [flat_map]. rewrite (IH docs Hrest), Ha, Hlook.
      now rewrite (proj1 (component_of_examples doc selector)). }
    rewrite Hcount, Hex. cbn [Nat.add].
    split; [reflexivity|]. split; [reflexivity|].
    rewrite length_firstn.
    apply (length_flat_map_min
             (fun doc => map component_example (firstn 3 (query doc selector)))
             (fun doc => List.length (query doc selector))).
    intros doc. now rewrite length_map, length_firstn.
Qed.

(** ** The download route *)






(** ** The further properties at sample inputs *)

Lemma lookup_In {A} (k : string) (l : list (string * A)) (v : A) :
  lookup k l = Some v -> In (k, v) l.
Proof.
  induction l as [|[k' v'] l IH]; simpl; [discriminate|].
  destruct (String.eqb_spec k k') as [->|Hne].
  - intros H. inversion H. now left.
  - intros H. right. now apply IH.
Qed.

Lemma collected_colors_are_valid_witness :
  collectColors (chromajs := red_only) two_reds_doc = Ok [("#ff0000", 2); ("red", 1)] /\
  NoDup (keys [("#ff0000", 2); ("red", 1)]) /\
  (forall k n, In (k, n) [("#ff0000", 2); ("red", 1)] ->
     1 <= n /\
     ((isValidColor (chromajs := red_only) k = true /\ chroma (ChromaJs := red_only) k <> None)
      \/ symbolic k) /\
     string_in (toLowerCase k)
       ["transparent"; "inherit"; "initial"; "currentcolor"; "none"] = false).
Proof.
  split; [vm_compute; reflexivity|].
  apply (collected_colors_are_valid (chromajs := red_only) two_reds_doc).
  vm_compute. reflexivity.
Defined.

Lemma dedup_keeps_a_representative_witness :
  processColors (chromajs := red_only) reds_map = ["#ff0000"; "var(--primary)"] /\
  NoDup (processColors (chromajs := red_only) reds_map) /\
  (In "red" (processColors (chromajs := red_only) reds_map) \/
   exists e d, In e (processColors (chromajs := red_only) reds_map) /\
               deltaE (chromajs := red_only) "red" e = Some d /\
               PrimFloat.ltb d 15%float = true).
Proof.
  destruct (dedup_keeps_a_representative (chromajs := red_only) reds_map)
    as [_ [Hnd [Hrep _]]].
  split; [vm_compute; reflexivity|].
  split; [exact (Hnd NoDup_reds_map)|].
  apply Hrep. simpl. tauto.
Defined.

Lemma compound_property_counts_twice_witness :
  get_or_0 (trim "red") (inline_colors (chromajs := red_only) [] red_background)
  = get_or_0 (trim "red") [] + 2 /\
  get_or_0 (trim "red") [] + 2
  <= get_or_0 (trim "red") (inline_colors (chromajs := red_only) [] red_background_first) /\
  capturing "color: #f00; background-color: red" (trim "red") = ["background-color"] /\
  get_or_0 (trim "red") (inline_colors (chromajs := red_only) [] red_background_last)
  = get_or_0 (trim "red") [] + 1.
Proof.
  split; [|split; [|split]].
  - refine (proj1 (proj2 (proj2
              (compound_property_counts_twice (chromajs := red_only) [] red_background
                 "background-color: red" "red" "r"%char _ _ _ _ _))) _);
      first [reflexivity | now left].
  - refine (proj1 (proj2
              (compound_property_counts_twice (chromajs := red_only) [] red_background_first
                 "background-color: red; color: #f00" "red" "r"%char _ _ _ _ _))
              "; color: #f00" _ _);
      first [reflexivity | now left | now right].
  - vm_compute. reflexivity.
  - refine (proj1
              (compound_property_counts_twice (chromajs := red_only) [] red_background_last
                 "color: #f00; background-color: red" "red" "r"%char _ _ _ _ _));
      reflexivity.
Defined.

Lemma typography_is_ranked_witness :
  match extractTypography five_sizes_doc with
  | Ok t =>
      List.length (fontSizes t) = 5 /\
      ranked (fontFamilies t) /\ ranked (fontSizes t) /\ ranked (fontWeights t) /\
      ranked (lineHeights t) /\ ranked (letterSpacings t) /\ ranked (textTransforms t) /\
      ranked (textDecorations t)
  | Throw _ => False
  end.
Proof.
  destruct (extractTypography five_sizes_doc) as [t|m] eqn:Et;
    [|vm_compute in Et; discriminate Et].
  split.
  - vm_compute in Et. inversion Et. reflexivity.
  - exact (typography_is_ranked five_sizes_doc t Et).
Defined.

Lemma headings_rank_as_font_weights_witness :
  match extractTypography heading_doc, query heading_doc headingSelector with
  | Ok t, h :: _ =>
      el_name h = "h" +++ "2" /\
      (exists n, 1 <= n /\ In (heading_key h, n) (fontWeights t)) /\
      heading_key h = "heading-" +++ "2"
  | _, _ => False
  end.
Proof.
  destruct (extractTypography heading_doc) as [t|m] eqn:Et;
    [|vm_compute in Et; discriminate Et].
  destruct (query heading_doc headingSelector) as [|h hs] eqn:Eh;
    [vm_compute in Eh; discriminate Eh|].
  assert (Hname : el_name h = "h" +++ "2") by (vm_compute in Eh; inversion Eh; reflexivity).
  assert (Hin : In h (query heading_doc headingSelector)) by (rewrite Eh; now left).
  destruct (headings_rank_as_font_weights heading_doc t h Et Hin) as [Hn Hkey].
  split; [exact Hname|]. split; [exact Hn|].
  apply Hkey; [simpl; tauto | exact Hname].
Defined.

Lemma font_rules_ignore_case_witness :
  first_match fontFamilyPatterns (trim (remove_quotes "ARIAL")) <> None /\
  normalizeFontFamily (toLowerCase "ARIAL") = normalizeFontFamily "ARIAL" /\
  normalizeFontFamily "helvetica" = "Helvetica, Arial, sans-serif".
Proof.
  split; [vm_compute; discriminate|].
  split.
  - apply (proj1 (proj2 (font_rules_ignore_case "ARIAL"))). vm_compute. discriminate.
  - apply (proj1 (proj2 (proj2 (proj2 (font_rules_ignore_case ""))))).
    simpl. tauto.
Defined.

Lemma component_examples_bounded_witness :
  match lookup "buttons" (extractComponents bootstrap_doc) with
  | Some c =>
      comp_count c = 1 /\
      exists selector,
        In ("buttons", selector) componentSelectors /\
        comp_count c = List.length (query bootstrap_doc selector) /\
        comp_examples c = map component_example (firstn 3 (query bootstrap_doc selector)) /\
        List.length (comp_examples c) = Nat.min 3 (comp_count c) /\
        (forall ex, In ex (comp_examples c) ->
           String.length (ex_text ex) <= 53 /\
           forall cl, In cl (ex_classes ex) ->
                      cl <> "" /\ all_chars (fun x => negb (is_space x)) cl = true)
  | None => False
  end.
Proof.
  destruct (lookup "buttons" (extractComponents bootstrap_doc)) as [c|] eqn:Ec;
    [|vm_compute in Ec; discriminate Ec].
  split.
  - vm_compute in Ec. inversion Ec. reflexivity.
  - apply (component_examples_bounded bootstrap_doc "buttons" c). now apply lookup_In.
Defined.

Lemma pattern_counts_each_element_once_witness :
  match lookup "containers" (patterns (analyzeLayout bootstrap_doc)) with
  | Some p =>
      p_count p = 1 /\
      In ("containers", p_selectors p) layoutPatterns /\
      p_count p = List.length (nodup Nat.eq_dec (selected_ids bootstrap_doc (p_selectors p))) /\
      p_count p <= List.length (selected_ids bootstrap_doc (p_selectors p)) /\
      List.length (p_examples p) = Nat.min 3 (p_count p)
  | None => False
  end.
Proof.
  destruct (lookup "containers" (patterns (analyzeLayout bootstrap_doc))) as [p|] eqn:Ep;
    [|vm_compute in Ep; discriminate Ep].
  split.
  - vm_compute in Ep. inversion Ep. reflexivity.
  - apply (pattern_counts_each_element_once bootstrap_doc "containers" p).
    now apply lookup_In.
Defined.

Lemma detection_needs_three_matches_witness :
  In ("bootstrap", bootstrap_entry) (frameworks (analyzeLayout bootstrap_doc)) /\
  matchCount bootstrap_doc (selectors bootstrap_entry) = 4 /\
  (detected bootstrap_entry = true <->
   (if List.length (selectors bootstrap_entry) =? 6 then 2 else 3)
   <= matchCount bootstrap_doc (selectors bootstrap_entry)) /\
  (confidence_of 3 (List.length (selectors bootstrap_entry)) <= confidence bootstrap_entry)%Z.
Proof.
  assert (Hin : In ("bootstrap", bootstrap_entry) (frameworks (analyzeLayout bootstrap_doc)))
    by (left; reflexivity).
  assert (Hm : matchCount bootstrap_doc (selectors bootstrap_entry) = 4)
    by (vm_compute; reflexivity).
  destruct (detection_needs_three_matches bootstrap_doc "bootstrap" bootstrap_entry Hin)
    as [Hd [_ [_ [_ Hmono]]]].
  split; [exact Hin|]. split; [exact Hm|]. split; [exact Hd|].
  apply Hmono. rewrite Hm. lia.
Defined.

Lemma version_of_last_link_witness :
  query versioned_doc stylesheetLinks = [link_elem 2 older_href] ++ link_elem 3 newer_href :: [] /\
  names_version "bootstrap" (link_elem 2 older_href) = Some "4.6.0" /\
  names_version "bootstrap" (link_elem 3 newer_href) = Some "5.3.2" /\
  version (detect_framework versioned_doc "bootstrap" (classes_of ["container"]))
  = Some "5.3.2" /\
  version (detect_framework roboto_doc "bootstrap" (classes_of ["container"])) = None.
Proof.
  assert (Hq : query versioned_doc stylesheetLinks
               = [link_elem 2 older_href] ++ link_elem 3 newer_href :: [])
    by (vm_compute; reflexivity).
  split; [exact Hq|]. split; [vm_compute; reflexivity|]. split; [vm_compute; reflexivity|].
  split.
  - apply (proj2 (version_of_last_link versioned_doc "bootstrap" (classes_of ["container"]))
                 [link_elem 2 older_href] (link_elem 3 newer_href) [] "5.3.2" Hq).
    + vm_compute. reflexivity.
    + intros x [].
  - apply (proj1 (version_of_last_link roboto_doc "bootstrap" (classes_of ["container"]))).
    intros x Hin. vm_compute in Hin. destruct Hin as [<-|[]]. vm_compute. reflexivity.
Defined.

Lemma best_framework_is_first_maximum_witness :
  match best_framework (frameworks (analyzeLayout bootstrap_doc)) with
  | Some nf =>
      fst nf = "materialize" /\ confidence (snd nf) = 57%Z /\
      exists l1 l2,
        frameworks (analyzeLayout bootstrap_doc) = l1 ++ nf :: l2 /\
        (0 < confidence (snd nf))%Z /\
        (forall x, In x l1 -> (confidence (snd x) < confidence (snd nf))%Z) /\
        (forall x, In x l2 -> (confidence (snd x) <= confidence (snd nf))%Z)
  | None => False
  end.
Proof.
  destruct (best_framework (frameworks (analyzeLayout bootstrap_doc))) as [nf|] eqn:Eb;
    [|vm_compute in Eb; discriminate Eb].
  split; [vm_compute in Eb; inversion Eb; reflexivity|].
  split; [vm_compute in Eb; inversion Eb; reflexivity|].
  exact (proj2 (best_framework_is_first_maximum (frameworks (analyzeLayout bootstrap_doc)))
               nf Eb).
Defined.

Lemma bootstrap_needs_alert_or_badge_witness :
  query bootstrap_doc (one [Class "alert"]) = [] /\
  query bootstrap_doc (one [Class "badge"]) = [] /\
  (confidence bootstrap_entry <= 75)%Z /\
  match best_framework (frameworks (analyzeLayout bootstrap_doc)) with
  | Some nf => fst nf <> "bootstrap"
  | None => False
  end.
Proof.
  assert (Ha : query bootstrap_doc (one [Class "alert"]) = []) by (vm_compute; reflexivity).
  assert (Hb : query bootstrap_doc (one [Class "badge"]) = []) by (vm_compute; reflexivity).
  destruct (bootstrap_needs_alert_or_badge bootstrap_doc Ha Hb) as [H75 Hbest].
  split; [exact Ha|]. split; [exact Hb|]. split.
  - apply H75. left. reflexivity.
  - destruct (best_framework (frameworks (analyzeLayout bootstrap_doc))) as [nf|] eqn:Eb;
      [|vm_compute in Eb; discriminate Eb].
    now apply Hbest.
Defined.

Lemma recommended_has_most_votes_witness :
  recommended [site_on roboto_doc; site_on bootstrap_doc] = Some "materialize" /\
  0 < votes "materialize" [site_on roboto_doc; site_on bootstrap_doc] /\
  (forall other, votes other [site_on roboto_doc; site_on bootstrap_doc]
                 <= votes "materialize" [site_on roboto_doc; site_on bootstrap_doc]).
Proof.
  assert (Hr : recommended [site_on roboto_doc; site_on bootstrap_doc] = Some "materialize")
    by (vm_compute; reflexivity).
  destruct (proj2 (recommended_has_most_votes [site_on roboto_doc; site_on bootstrap_doc])
                  "materialize" Hr) as [Hpos [Hmax _]].
  split; [exact Hr|]. split; [exact Hpos | exact Hmax].
Defined.

Lemma tokens_merge_by_value_witness :
  selectMostCommonFromObjects sample_tokens 5 = [("16px", 5); ("14px", 1)] /\
  Forall (fun item => 1 <= count item) sample_tokens /\
  (forall t, In t (selectMostCommonFromObjects sample_tokens 5) ->
             count t = weight (value t) sample_tokens).
Proof.
  assert (Hpos : Forall (fun item => 1 <= count item) sample_tokens).
  { unfold sample_tokens, count. repeat constructor; simpl; lia. }
  split; [vm_compute; reflexivity|]. split; [exact Hpos|].
  destruct (tokens_merge_by_value sample_tokens 5) as [_ [_ [_ [_ H]]]].
  exact (proj1 (H Hpos)).
Defined.

Lemma palette_colors_were_collected_witness :
  match analyzeWebsite (chromajs := red_only) two_reds_world example_url with
  | Ok a =>
      pal_primary (colorPalette (chromajs := red_only) [a]) = ["#ff0000"; "red"] /\
      forall c,
        In c (pal_primary (colorPalette (chromajs := red_only) [a])
              ++ pal_secondary (colorPalette (chromajs := red_only) [a])
              ++ pal_accent (colorPalette (chromajs := red_only) [a])
              ++ pal_neutral (colorPalette (chromajs := red_only) [a])) ->
        isValidColor (chromajs := red_only) c = true \/ symbolic c
  | Throw _ => False
  end.
Proof.
  destruct (analyzeWebsite (chromajs := red_only) two_reds_world example_url)
    as [a|m] eqn:Ea; [|vm_compute in Ea; discriminate Ea].
  split.
  - vm_compute in Ea. inversion Ea. vm_compute. reflexivity.
  - intros c Hc.
    refine (proj2 (palette_colors_were_collected (chromajs := red_only) [a] _ c Hc)).
    constructor; [|constructor]. exists two_reds_world, example_url. exact Ea.
Defined.

Lemma component_specs_add_up_witness :
  map components [site_on bootstrap_doc; site_on heading_doc]
  = map extractComponents [bootstrap_doc; heading_doc] /\
  In ("cards", one [AttrSub "class" "card"]) componentSelectors /\
  exists spec,
    lookup "cards" (generateComponentSpecs [site_on bootstrap_doc; site_on heading_doc])
    = Some spec /\
    spec_count spec
    = list_sum (map (fun doc => List.length (query doc (one [AttrSub "class" "card"])))
                    [bootstrap_doc; heading_doc]) /\
    spec_examples spec
    = firstn 3 (flat_map (fun doc => map component_example
                                         (firstn 3 (query doc (one [AttrSub "class" "card"]))))
                         [bootstrap_doc; heading_doc]) /\
    List.length (spec_examples spec) = Nat.min 3 (spec_count spec).
Proof.
  assert (Hsel : In ("cards", one [AttrSub "class" "card"]) componentSelectors)
    by (simpl; tauto).
  split; [reflexivity|]. split; [exact Hsel|].
  apply (proj2 (proj2 (component_specs_add_up [bootstrap_doc; heading_doc]
                         [site_on bootstrap_doc; site_on heading_doc] eq_refl))).
  - simpl. tauto.
  - exact Hsel.
Defined.


